(** * The responder system of the stack renderer

    A shallow embedding of [ResponderCache.js], [GestureCache.js],
    [GesturePropagators.js] and [ResponderEventPlugin.js], with the
    properties of the responder protocol stated and proved over it.

    The three JavaScript modules keep their state in module-level
    variables; here all of it lives in one record, [World], that is
    threaded through every function.  Gesture objects are shared by
    reference between [activeGestures], [gesturesByTouch],
    [gesturesByTarget] and the events handed out by [touchesChanged], so
    they live in a store ([heap]) and the indices hold references into
    it.  A reference is the position of the object in the store, and the
    store only grows: a reference is also the creation stamp of a
    gesture. *)

From stdpp Require Import base option list gmap strings fin_maps sorting.
From Stdlib Require Import ZArith Lia.

Set Default Proof Using "Type".

(** ** JavaScript values returned by listeners *)

Inductive JsVal : Type :=
| JBool (b : bool)
| JNumber (z : Z)
| JUndefined. (* [undefined] and [null] *)

(** [if (v)], [v || ...], [!v]. *)
Definition truthy (v : JsVal) : bool :=
  match v with
  | JBool b => b
  | JNumber z => negb (z =? 0)%Z
  | JUndefined => false
  end.

(** [v === true]. *)
Definition strictlyTrue (v : JsVal) : bool :=
  match v with
  | JBool true => true
  | _ => false
  end.

(** ** Instances

    An instance of the host tree carries its react tag and its
    [_hostParent]; the root has none. *)

Inductive Inst : Type :=
| Root (tag : Z)
| Child (tag : Z) (hostParent : Inst).

Global Instance Inst_eq_dec : EqDecision Inst.
Proof. solve_decision. Defined.

(** ** Exceptions and the state-and-exception monad

    Functions that cannot throw are plain state transformers; the batch
    processor and the entry point, which dereference values that may be
    [undefined], run in [M]. *)

Inductive Exn : Type :=
| TypeError (property : string).

Inductive Outcome (A : Type) : Type :=
| Ok (a : A)
| Throw (e : Exn).
Arguments Ok {A} a.
Arguments Throw {A} e.

(** ** The console *)

Inductive Message : Type :=
| TargetsCannotBeEqual
| InvalidTargetHasNoGesture (oldTag : Z)
| NativeEventHasNoTouches (topLevelType : string)
| EndedUncountedTouch.

Inductive ConsoleCall : Type :=
| console_warn (m : Message)
| console_error (m : Message).

(** ** EventPluginUtils *)

Module EventPluginUtils.

(** Modelled from the spec: the event-kind classifiers of
    [EventPluginUtils], a module the three sources require and that is not
    among them.  Section 6 asks for predicates that partition the
    low-level event kinds into start-like, move-like and end-like, at
    most one holding per kind; the kinds are React's top-level event
    names, of which the sources spell out ['topTouchCancel'],
    ['topScroll'] and ['topSelectionChange']. *)
Definition isStartish (topLevelType : string) : bool :=
  bool_decide (topLevelType = "topMouseDown")
  || bool_decide (topLevelType = "topTouchStart").

Definition isMoveish (topLevelType : string) : bool :=
  bool_decide (topLevelType = "topMouseMove")
  || bool_decide (topLevelType = "topTouchMove").

Definition isEndish (topLevelType : string) : bool :=
  bool_decide (topLevelType = "topMouseUp")
  || bool_decide (topLevelType = "topTouchEnd")
  || bool_decide (topLevelType = "topTouchCancel").

(** Modelled from the spec: the instance and target resolution of
    [EventPluginUtils] (section 6: [tagFromInstance], [parentOf]).  On the
    native renderer a node is its tag. *)
Definition getTagFromInstance (inst : Inst) : Z :=
  match inst with
  | Root tag => tag
  | Child tag _ => tag
  end.

Definition getNodeFromInstance (inst : Inst) : Z := getTagFromInstance inst.

Definition getTagFromNode (node : Z) : Z := node.

Definition getParentInstance (inst : Inst) : option Inst :=
  match inst with
  | Root _ => None
  | Child _ hostParent => Some hostParent
  end.

End EventPluginUtils.

(** ** Touches and native touch events *)

Module Touch.
Record t : Type := mk {
  identifier : Z;
  target : Z;
  payload : Z
}.
End Touch.

Global Instance Touch_eq_dec : EqDecision Touch.t.
Proof. solve_decision. Defined.

Module TouchEvent.
Record t : Type := mk {
  touches : option (list Touch.t);
  changedTouches : list Touch.t;
  responderIgnoreScroll : bool
}.
End TouchEvent.

(** ** TouchHistory *)

Module TouchHistory.

(** Modelled from the spec: the class [TouchHistory], which
    [GestureCache.js] instantiates once per gesture and which is not among
    the sources.  Section 3 describes it as the ordered log of the touch
    events of one target, able to report its number of active touches: a
    start-like event makes its changed touches active, an end-like event
    makes them inactive, every other kind is only logged. *)
Record t : Type := mk {
  log : list (string * list Touch.t);
  activeTouches : gset Z
}.

Definition new : t := {| log := []; activeTouches := ∅ |}.

Definition recordTouchEvent
    (topLevelType : string) (changedTouches : list Touch.t) (h : t) : t :=
  let ids : gset Z := list_to_set (Touch.identifier <$> changedTouches) in
  {| log := log h ++ [(topLevelType, changedTouches)];
     activeTouches :=
       if EventPluginUtils.isStartish topLevelType then activeTouches h ∪ ids
       else if EventPluginUtils.isEndish topLevelType then activeTouches h ∖ ids
       else activeTouches h |}.

Definition numberActiveTouches (h : t) : Z := Z.of_nat (size (activeTouches h)).

End TouchHistory.

(** ** Gestures *)

Module Gesture.
Record t : Type := mk {
  target : Z;
  touchMap : gmap Z Touch.t;
  changedTouches : list Touch.t;
  touchHistory : TouchHistory.t
}.

Definition set_target (v : Z) (g : t) : t :=
  {| target := v; touchMap := touchMap g;
     changedTouches := changedTouches g; touchHistory := touchHistory g |}.
Definition set_touchMap (f : gmap Z Touch.t → gmap Z Touch.t) (g : t) : t :=
  {| target := target g; touchMap := f (touchMap g);
     changedTouches := changedTouches g; touchHistory := touchHistory g |}.
Definition set_changedTouches (f : list Touch.t → list Touch.t) (g : t) : t :=
  {| target := target g; touchMap := touchMap g;
     changedTouches := f (changedTouches g); touchHistory := touchHistory g |}.
Definition set_touchHistory (f : TouchHistory.t → TouchHistory.t) (g : t) : t :=
  {| target := target g; touchMap := touchMap g;
     changedTouches := changedTouches g; touchHistory := f (touchHistory g) |}.
End Gesture.

Global Instance Gesture_inhabited : Inhabited Gesture.t :=
  populate (Gesture.mk 0 ∅ [] TouchHistory.new).

(** What [touchesChanged] hands out for a changed gesture.  [changedTouches]
    and [touchHistory] of the JavaScript object are the gesture's own array
    and history object, not copies: they are read through [gesture].
    [touches] is a fresh array, [Object.values(gesture.touchMap)], of which
    the plugin reads the length only.  The remaining properties are copied
    from the native event. *)
Module GestureEvent.
Record t : Type := mk {
  target : Z;
  gesture : nat;
  touches : list Touch.t;
  responderIgnoreScroll : bool
}.
End GestureEvent.

(** ** Synthetic events *)

(** One entry of [_dispatchListeners] / [_dispatchInstances]: the
    instance, the registration name under which the listener was found,
    and what the listener returns when it is called. *)
Record Dispatch : Type := mkDispatch {
  dispatchInstance : Inst;
  registrationName : string;
  listenerResult : JsVal
}.

(** The keys of the [eventTypes] table of [ResponderEventPlugin.js]. *)
Inductive EventType : Type :=
| startShouldSetResponder
| scrollShouldSetResponder
| selectionChangeShouldSetResponder
| moveShouldSetResponder
| gestureStart
| gestureEnd
| responderStart
| responderMove
| responderEnd
| responderRelease
| responderTerminationRequest
| responderGrant
| responderReject
| responderTerminate.

Global Instance EventType_eq_dec : EqDecision EventType.
Proof. solve_decision. Defined.

Inductive DispatchConfig : Type :=
| phasedRegistrationNames (bubbled captured : string)
| directRegistrationName (name : string).

(** The [eventTypes] table itself. *)
Definition eventTypes (eventType : EventType) : DispatchConfig :=
  match eventType with
  | startShouldSetResponder =>
      phasedRegistrationNames
        "onStartShouldSetResponder" "onStartShouldSetResponderCapture"
  | scrollShouldSetResponder =>
      phasedRegistrationNames
        "onScrollShouldSetResponder" "onScrollShouldSetResponderCapture"
  | selectionChangeShouldSetResponder =>
      phasedRegistrationNames
        "onSelectionChangeShouldSetResponder"
        "onSelectionChangeShouldSetResponderCapture"
  | moveShouldSetResponder =>
      phasedRegistrationNames
        "onMoveShouldSetResponder" "onMoveShouldSetResponderCapture"
  | gestureStart => directRegistrationName "onGestureStart"
  | gestureEnd => directRegistrationName "onGestureEnd"
  | responderStart => directRegistrationName "onResponderStart"
  | responderMove => directRegistrationName "onResponderMove"
  | responderEnd => directRegistrationName "onResponderEnd"
  | responderRelease => directRegistrationName "onResponderRelease"
  | responderTerminationRequest =>
      directRegistrationName "onResponderTerminationRequest"
  | responderGrant => directRegistrationName "onResponderGrant"
  | responderReject => directRegistrationName "onResponderReject"
  | responderTerminate => directRegistrationName "onResponderTerminate"
  end.

Record SyntheticEvent : Type := mkEvent {
  eventType : EventType;
  targetInst : option Inst;
  nativeEvent : GestureEvent.t;
  dispatches : list Dispatch
}.

(** A call of [ResponderCache.globalHandler.onChange]. *)
Record ResponderChange : Type := mkChange {
  previousResponder : option Inst;
  nextResponder : option Inst;
  blockHostResponder : option bool
}.

(** ** The environment: the host tree and the listeners registered on it *)

Record Env : Type := mkEnv {
  getInstanceFromTag : Z → option Inst;
  getListener : Inst → string → option JsVal;
  GlobalInteractionHandler : bool
}.

(** ** The state of the three modules *)

Record World : Type := mkWorld {
  (* ResponderCache *)
  cache : gmap Z Inst;
  responderChanges : list ResponderChange;
  (* GestureCache *)
  heap : list Gesture.t;
  activeGestures : list nat;
  gesturesByTouch : gmap Z nat;
  gesturesByTarget : gmap Z nat;
  (* ResponderEventPlugin *)
  trackedTouchCount : Z;
  previousActiveTouches : Z;
  interactionChanges : list Z;
  (* listeners called on demand, and the console *)
  dispatched : list Dispatch;
  console : list ConsoleCall
}.

Definition initialWorld : World :=
  {| cache := ∅; responderChanges := [];
     heap := []; activeGestures := []; gesturesByTouch := ∅;
     gesturesByTarget := ∅;
     trackedTouchCount := 0; previousActiveTouches := 0;
     interactionChanges := []; dispatched := []; console := [] |}.

Definition set_cache (f : gmap Z Inst → gmap Z Inst) (w : World) : World :=
  mkWorld (f (cache w)) (responderChanges w) (heap w) (activeGestures w)
    (gesturesByTouch w) (gesturesByTarget w) (trackedTouchCount w)
    (previousActiveTouches w) (interactionChanges w) (dispatched w) (console w).
Definition set_responderChanges
    (f : list ResponderChange → list ResponderChange) (w : World) : World :=
  mkWorld (cache w) (f (responderChanges w)) (heap w) (activeGestures w)
    (gesturesByTouch w) (gesturesByTarget w) (trackedTouchCount w)
    (previousActiveTouches w) (interactionChanges w) (dispatched w) (console w).
Definition set_heap (f : list Gesture.t → list Gesture.t) (w : World) : World :=
  mkWorld (cache w) (responderChanges w) (f (heap w)) (activeGestures w)
    (gesturesByTouch w) (gesturesByTarget w) (trackedTouchCount w)
    (previousActiveTouches w) (interactionChanges w) (dispatched w) (console w).
Definition set_activeGestures (f : list nat → list nat) (w : World) : World :=
  mkWorld (cache w) (responderChanges w) (heap w) (f (activeGestures w))
    (gesturesByTouch w) (gesturesByTarget w) (trackedTouchCount w)
    (previousActiveTouches w) (interactionChanges w) (dispatched w) (console w).
Definition set_gesturesByTouch (f : gmap Z nat → gmap Z nat) (w : World) : World :=
  mkWorld (cache w) (responderChanges w) (heap w) (activeGestures w)
    (f (gesturesByTouch w)) (gesturesByTarget w) (trackedTouchCount w)
    (previousActiveTouches w) (interactionChanges w) (dispatched w) (console w).
Definition set_gesturesByTarget (f : gmap Z nat → gmap Z nat) (w : World) : World :=
  mkWorld (cache w) (responderChanges w) (heap w) (activeGestures w)
    (gesturesByTouch w) (f (gesturesByTarget w)) (trackedTouchCount w)
    (previousActiveTouches w) (interactionChanges w) (dispatched w) (console w).
Definition set_trackedTouchCount (f : Z → Z) (w : World) : World :=
  mkWorld (cache w) (responderChanges w) (heap w) (activeGestures w)
    (gesturesByTouch w) (gesturesByTarget w) (f (trackedTouchCount w))
    (previousActiveTouches w) (interactionChanges w) (dispatched w) (console w).
Definition set_previousActiveTouches (f : Z → Z) (w : World) : World :=
  mkWorld (cache w) (responderChanges w) (heap w) (activeGestures w)
    (gesturesByTouch w) (gesturesByTarget w) (trackedTouchCount w)
    (f (previousActiveTouches w)) (interactionChanges w) (dispatched w) (console w).
Definition set_interactionChanges (f : list Z → list Z) (w : World) : World :=
  mkWorld (cache w) (responderChanges w) (heap w) (activeGestures w)
    (gesturesByTouch w) (gesturesByTarget w) (trackedTouchCount w)
    (previousActiveTouches w) (f (interactionChanges w)) (dispatched w) (console w).
Definition set_dispatched (f : list Dispatch → list Dispatch) (w : World) : World :=
  mkWorld (cache w) (responderChanges w) (heap w) (activeGestures w)
    (gesturesByTouch w) (gesturesByTarget w) (trackedTouchCount w)
    (previousActiveTouches w) (interactionChanges w) (f (dispatched w)) (console w).
Definition set_console (f : list ConsoleCall → list ConsoleCall) (w : World) : World :=
  mkWorld (cache w) (responderChanges w) (heap w) (activeGestures w)
    (gesturesByTouch w) (gesturesByTarget w) (trackedTouchCount w)
    (previousActiveTouches w) (interactionChanges w) (dispatched w) (f (console w)).

Definition M (A : Type) : Type := World → Outcome A * World.

Definition ret {A} (a : A) : M A := λ w, (Ok a, w).
Definition throw {A} (e : Exn) : M A := λ w, (Throw e, w).
Definition bind {A B} (m : M A) (k : A → M B) : M B :=
  λ w, match m w with
       | (Ok a, w') => k a w'
       | (Throw e, w') => (Throw e, w')
       end.
Definition lift (f : World → World) : M unit := λ w, (Ok tt, f w).

Notation "'let!' x ':=' m 'in' k" := (bind m (λ x, k))
  (at level 10, x name, m at level 100, k at level 200).
Notation "'run!' m 'in' k" := (bind m (λ _, k))
  (at level 10, m at level 100, k at level 200).

(** [array.forEach(callback)] over an array the callback does not change. *)
Fixpoint forEach {A} (l : list A) (callback : A → M unit) : M unit :=
  match l with
  | [] => ret tt
  | x :: l' => run! callback x in forEach l' callback
  end.

Definition warn (m : Message) : World → World :=
  set_console (λ c, c ++ [console_warn m]).
Definition error (m : Message) : World → World :=
  set_console (λ c, c ++ [console_error m]).

(** ** ResponderCache.js *)

Module ResponderCache.
Import EventPluginUtils.

(** What [findAncestor] accepts: a react tag (a number) or an instance,
    which may be [null].  Touch targets are tags, so the [isNode] branch of
    [resolveInstance] is the tag branch here. *)
Inductive Target : Type :=
| TagTarget (tag : Z)
| InstTarget (inst : option Inst).

Definition onChange (c : ResponderChange) : World → World :=
  set_responderChanges (λ l, l ++ [c]).

Definition grant (inst : Inst) (blockHostResponder : bool) (w : World) : World :=
  let tag := getTagFromInstance inst in
  let w := set_cache (insert tag inst) w in
  onChange (mkChange None (Some inst) (Some blockHostResponder)) w.

Definition release (inst : Inst) (w : World) : World :=
  let tag := getTagFromInstance inst in
  let w := set_cache (delete tag) w in
  onChange (mkChange (Some inst) None None) w.

Definition resolveInstance (env : Env) (target : Target) : option Inst :=
  match target with
  | TagTarget tag => getInstanceFromTag env tag
  | InstTarget inst => inst
  end.

(** The [while] loop of [findAncestor], by recursion on the parent chain. *)
Fixpoint findAncestorFrom (cache : gmap Z Inst) (inst : Inst) : option Inst :=
  match cache !! getTagFromInstance inst with
  | Some _ => Some inst
  | None =>
      match inst with
      | Root _ => None
      | Child _ hostParent => findAncestorFrom cache hostParent
      end
  end.

Definition findAncestor (env : Env) (target : Target) (w : World) : option Inst :=
  match resolveInstance env target with
  | Some inst => findAncestorFrom (cache w) inst
  | None => None
  end.

End ResponderCache.

(** ** GestureCache.js

    The module as it is exported ([module.exports] at the end of the
    file): [targetChanged], [touchesChanged], [attachGesture] and
    [removeGesture] of lines 186 to 327. *)

Module GestureCache.
Import EventPluginUtils.

(** Reading and writing a gesture object through its reference.  In
    JavaScript a reference always leads to an object; in a well-formed
    [World] every reference held by an index is below [length (heap w)]. *)
Definition deref (gesture : nat) (w : World) : Gesture.t := heap w !!! gesture.

Definition update (gesture : nat) (f : Gesture.t → Gesture.t) : World → World :=
  set_heap (alter f gesture).

(** [activeGestures.indexOf(gesture)]; [None] stands for [-1]. *)
Definition indexOf (gesture : nat) (l : list nat) : option nat :=
  fst <$> list_find (λ g, g = gesture) l.

(** [array.splice(index, 1)].  With [index = -1] the start is counted from
    the end of the array, and the last element goes. *)
Definition splice1 (index : option nat) (l : list nat) : list nat :=
  match index with
  | Some i => delete i l
  | None => take (length l - 1) l
  end.

Definition removeGesture (gesture : nat) (w : World) : World :=
  let index := indexOf gesture (activeGestures w) in
  let w := set_activeGestures (splice1 index) w in
  set_gesturesByTarget (delete (Gesture.target (deref gesture w))) w.

Definition newGesture (target : Z) : Gesture.t :=
  {| Gesture.target := target; Gesture.touchMap := ∅;
     Gesture.changedTouches := []; Gesture.touchHistory := TouchHistory.new |}.

(** The target under which [attachGesture] files a touch. *)
Definition gestureTarget (env : Env) (touch : Touch.t) (w : World) : Z :=
  let responderInst :=
    ResponderCache.findAncestor env
      (ResponderCache.TagTarget (Touch.target touch)) w in
  let targetNode :=
    match responderInst with
    | Some inst => getNodeFromInstance inst
    | None => Touch.target touch
    end in
  getTagFromNode targetNode.

Definition attachGesture (env : Env) (touch : Touch.t) (w : World) : nat * World :=
  let target := gestureTarget env touch w in
  let '(gesture, w) :=
    match gesturesByTarget w !! target with
    | Some gesture => (gesture, w)
    | None =>
        let gesture := length (heap w) in
        let w := set_heap (λ h, h ++ [newGesture target]) w in
        let w := set_activeGestures (λ l, l ++ [gesture]) w in
        (gesture, set_gesturesByTarget (insert target gesture) w)
    end in
  (gesture, set_gesturesByTouch (insert (Touch.identifier touch) gesture) w).

Definition targetChanged
    (topLevelType : string) (oldTarget newTarget : Inst) (w : World) : World :=
  let oldTag := getTagFromInstance oldTarget in
  match gesturesByTarget w !! oldTag with
  | None => warn (InvalidTargetHasNoGesture oldTag) w
  | Some oldGesture =>
      let newTag := getTagFromInstance newTarget in
      match gesturesByTarget w !! newTag with
      | Some newGesture =>
          (* Move touch data from [oldGesture] to [newGesture]. *)
          let w := update newGesture
            (Gesture.set_touchHistory
               (TouchHistory.recordTouchEvent topLevelType
                  (Gesture.changedTouches (deref oldGesture w)))) w in
          (* [forEach] visits the elements the array had when it started *)
          let moved := Gesture.changedTouches (deref oldGesture w) in
          let w := update newGesture
            (Gesture.set_changedTouches (λ l, l ++ moved)) w in
          let oldMap := Gesture.touchMap (deref oldGesture w) in
          let w := set_gesturesByTouch
            (λ m, ((λ _, newGesture) <$> oldMap) ∪ m) w in
          let w := update newGesture (Gesture.set_touchMap (λ m, oldMap ∪ m)) w in
          removeGesture oldGesture w
      | None =>
          let w := update oldGesture (Gesture.set_target newTag) w in
          let w := set_gesturesByTarget (insert newTag oldGesture) w in
          set_gesturesByTarget (delete oldTag) w
      end
  end.

(** [activeGestures.forEach(gesture => gesture.changedTouches.length = 0)] *)
Definition clearChangedTouches (w : World) : World :=
  foldl (λ w gesture, update gesture (Gesture.set_changedTouches (λ _, [])) w)
    w (activeGestures w).

(** The body of the first loop over [nativeEvent.changedTouches]. *)
Definition rebuildChangedTouches
    (env : Env) (topLevelType : string) (touch : Touch.t) : M unit :=
  λ w,
    let '(gesture, w) :=
      if isStartish topLevelType
      then let '(g, w) := attachGesture env touch w in (Some g, w)
      else (gesturesByTouch w !! Touch.identifier touch, w) in
    match gesture with
    | None => (Throw (TypeError "changedTouches"), w)
    | Some gesture =>
        let w := update gesture (Gesture.set_changedTouches (λ l, l ++ [touch])) w in
        let w :=
          if negb (isEndish topLevelType)
          then update gesture
                 (Gesture.set_touchMap (insert (Touch.identifier touch) touch)) w
          else w in
        (Ok tt, w)
    end.

(** The body of the second loop: detach an ended touch from its gesture. *)
Definition detachTouch (touch : Touch.t) : M unit :=
  λ w,
    let identifier := Touch.identifier touch in
    match gesturesByTouch w !! identifier with
    | None => (Throw (TypeError "touchMap"), w)
    | Some gesture =>
        let w := update gesture (Gesture.set_touchMap (delete identifier)) w in
        (Ok tt, set_gesturesByTouch (delete identifier) w)
    end.

(** [Object.values(touchMap)].  The keys of a touch map are touch
    identifiers, which are array indices, and the properties of an object
    whose keys are array indices are listed in ascending order of the
    keys, whatever the order in which they were added. *)
Definition ascending {A} (a b : Z * A) : Prop := (a.1 ≤ b.1)%Z.

Global Instance ascending_dec {A} (a b : Z * A) : Decision (ascending a b).
Proof. unfold ascending. apply _. Defined.

Definition values {A} (touchMap : gmap Z A) : list A :=
  (merge_sort ascending (map_to_list touchMap)).*2.

Definition gestureEvent
    (nativeEvent : TouchEvent.t) (gesture : nat) (w : World) : GestureEvent.t :=
  {| GestureEvent.target := Gesture.target (deref gesture w);
     GestureEvent.gesture := gesture;
     GestureEvent.touches := values (Gesture.touchMap (deref gesture w));
     GestureEvent.responderIgnoreScroll :=
       TouchEvent.responderIgnoreScroll nativeEvent |}.

(** The body of the last loop, for the gesture found at the current
    index: [events] is the array under construction. *)
Definition visitGesture
    (topLevelType : string) (nativeEvent : TouchEvent.t) (gesture : nat)
    (events : list GestureEvent.t) (w : World) : list GestureEvent.t * World :=
  match Gesture.changedTouches (deref gesture w) with
  | [] => (events, w)
  | changed =>
      (* Update the touch history of every gesture with changed touches. *)
      let w := update gesture
        (Gesture.set_touchHistory
           (TouchHistory.recordTouchEvent topLevelType changed)) w in
      let event := gestureEvent nativeEvent gesture w in
      (* When a gesture has no touches, remove it from the cache. *)
      let w :=
        if isEndish topLevelType
           && bool_decide
                (TouchHistory.numberActiveTouches
                   (Gesture.touchHistory (deref gesture w)) = 0%Z)
        then removeGesture gesture w
        else w in
      (events ++ [event], w)
  end.

(** [for (let i = activeGestures.length - 1; i >= 0; i--)], with [n] one
    above the index that is visited next. *)
Fixpoint changedGestureEvents
    (topLevelType : string) (nativeEvent : TouchEvent.t)
    (n : nat) (events : list GestureEvent.t) : M (list GestureEvent.t) :=
  match n with
  | O => ret events
  | S i => λ w,
      match activeGestures w !! i with
      | None => (Throw (TypeError "changedTouches"), w)
      | Some gesture =>
          let '(events, w) :=
            visitGesture topLevelType nativeEvent gesture events w in
          changedGestureEvents topLevelType nativeEvent i events w
      end
  end.

Definition touchesChanged
    (env : Env) (topLevelType : string) (nativeEvent : TouchEvent.t)
    : M (list GestureEvent.t) :=
  run! lift clearChangedTouches in
  run! forEach (TouchEvent.changedTouches nativeEvent)
         (rebuildChangedTouches env topLevelType) in
  run! (if isEndish topLevelType
        then forEach (TouchEvent.changedTouches nativeEvent) detachTouch
        else ret tt) in
  λ w, changedGestureEvents topLevelType nativeEvent
         (length (activeGestures w)) [] w.

End GestureCache.

(** ** Dispatch *)

(** Every instance from [inst] up to the root, [inst] first. *)
Fixpoint pathToRoot (inst : Inst) : list Inst :=
  inst ::
  match inst with
  | Root _ => []
  | Child _ hostParent => pathToRoot hostParent
  end.

(** The listener of [inst] under [name], if there is one, as a dispatch. *)
Definition listenerOf (env : Env) (name : string) (inst : Inst) : list Dispatch :=
  match getListener env inst name with
  | Some result => [mkDispatch inst name result]
  | None => []
  end.

Definition addDispatches (ds : list Dispatch) (event : SyntheticEvent)
    : SyntheticEvent :=
  mkEvent (eventType event) (targetInst event) (nativeEvent event)
    (dispatches event ++ ds).

(** Calling a listener on demand leaves a trace. *)
Definition call (d : Dispatch) : World → World :=
  set_dispatched (λ l, l ++ [d]).

Module EventPropagators.

(** Modelled from the spec: the two-phase and the direct accumulation of
    [EventPropagators], which [ResponderEventPlugin.js] requires and which
    is not among the sources.  Section 6: a capture-then-bubble traversal
    (root to target, then target to root) that collects the handlers
    registered under the event's names, optionally skipping the target's
    own handlers; and the handler of a single instance, without
    traversal. *)
Definition traverseTwoPhase
    (env : Env) (inst : option Inst) (event : SyntheticEvent) : SyntheticEvent :=
  match inst, eventTypes (eventType event) with
  | Some inst, phasedRegistrationNames bubbled captured =>
      let path := pathToRoot inst in
      addDispatches
        ((rev path ≫= listenerOf env captured) ++ (path ≫= listenerOf env bubbled))
        event
  | _, _ => event
  end.

Definition accumulateTwoPhaseDispatches
    (env : Env) (event : SyntheticEvent) : SyntheticEvent :=
  traverseTwoPhase env (targetInst event) event.

Definition accumulateTwoPhaseDispatchesSkipTarget
    (env : Env) (event : SyntheticEvent) : SyntheticEvent :=
  traverseTwoPhase env
    (targetInst event ≫= EventPluginUtils.getParentInstance) event.

Definition accumulateDirectDispatches
    (env : Env) (event : SyntheticEvent) : SyntheticEvent :=
  match targetInst event, eventTypes (eventType event) with
  | Some inst, directRegistrationName name =>
      addDispatches (listenerOf env name inst) event
  | _, _ => event
  end.

End EventPropagators.

Module EventPluginUtilsDispatch.

(** Modelled from the spec: the dispatch executors of [EventPluginUtils]
    (section 6).  [executeDispatchesInOrderStopAtTrue] calls the collected
    handlers in order and stops at the first that returns a true value,
    whose instance it returns; [executeDirectDispatch] calls the single
    handler of a direct event and returns what it returned, [null] when
    there is none; [executeDispatchesInOrder] calls them all. *)
Definition hasDispatches (event : SyntheticEvent) : bool :=
  match dispatches event with
  | [] => false
  | _ => true
  end.

Fixpoint stopAtTrue (ds : list Dispatch) (w : World) : option Inst * World :=
  match ds with
  | [] => (None, w)
  | d :: ds' =>
      let w := call d w in
      if truthy (listenerResult d) then (Some (dispatchInstance d), w)
      else stopAtTrue ds' w
  end.

Definition executeDispatchesInOrderStopAtTrue
    (event : SyntheticEvent) (w : World) : option Inst * World :=
  stopAtTrue (dispatches event) w.

Definition executeDirectDispatch
    (event : SyntheticEvent) (w : World) : JsVal * World :=
  match dispatches event with
  | [] => (JUndefined, w)
  | d :: _ => (listenerResult d, call d w)
  end.

Definition executeDispatchesInOrder (event : SyntheticEvent) (w : World) : World :=
  foldl (λ w d, call d w) w (dispatches event).

End EventPluginUtilsDispatch.

(** ** GesturePropagators.js *)

Module GesturePropagators.

Definition accumulateDispatch
    (env : Env) (inst : Inst) (event : SyntheticEvent) : SyntheticEvent :=
  match eventTypes (eventType event) with
  | directRegistrationName name => addDispatches (listenerOf env name inst) event
  | phasedRegistrationNames _ _ => event
  end.

Definition instancesUpFrom (inst : option Inst) : list Inst :=
  match inst with
  | Some inst => pathToRoot inst
  | None => []
  end.

(** Top-down: the root first, the target instance last. *)
Definition accumulateStartDispatches
    (env : Env) (targetInst : option Inst) (event : SyntheticEvent)
    : SyntheticEvent :=
  foldl (λ event inst, accumulateDispatch env inst event) event
    (rev (instancesUpFrom targetInst)).

(** Bottom-up: the target instance first. *)
Definition accumulateEndDispatches
    (env : Env) (targetInst : option Inst) (event : SyntheticEvent)
    : SyntheticEvent :=
  foldl (λ event inst, accumulateDispatch env inst event) event
    (instancesUpFrom targetInst).

(** [while (inst && inst !== targetInst)], from [deepestInst] upwards. *)
Fixpoint descendantsBelow (targetInst : Inst) (inst : Inst) : list Inst :=
  if decide (inst = targetInst) then []
  else inst ::
       match inst with
       | Root _ => []
       | Child _ hostParent => descendantsBelow targetInst hostParent
       end.

Definition accumulateDescendantDispatches
    (env : Env) (deepestInst targetInst : Inst) (event : SyntheticEvent)
    : SyntheticEvent :=
  foldl (λ event inst, accumulateDispatch env inst event) event
    (descendantsBelow targetInst deepestInst).

End GesturePropagators.

(** ** ResponderEventPlugin.js *)

Module ResponderEventPlugin.
Import EventPluginUtils EventPluginUtilsDispatch.

(** The list of events under accumulation; [None] is [undefined] or [null]. *)
Definition Extracted : Type := option (list SyntheticEvent).

(** Modelled from the spec: [accumulate], required by the plugin and not
    among the sources; it appends what is next to what was collected, either
    of which is one event or an array of events. *)
Definition accumulate (current : Extracted) (next : list SyntheticEvent)
    : Extracted :=
  Some (default [] current ++ next).

Definition createEvent
    (eventType : EventType) (responderInst : option Inst)
    (nativeEvent : GestureEvent.t) : SyntheticEvent :=
  mkEvent eventType responderInst nativeEvent [].

(** The kind of vote that goes with a low-level event. *)
Definition shouldSetEventType (topLevelType : string) : EventType :=
  if isStartish topLevelType then startShouldSetResponder
  else if isMoveish topLevelType then moveShouldSetResponder
  else if bool_decide (topLevelType = "topSelectionChange")
       then selectionChangeShouldSetResponder
  else scrollShouldSetResponder.

(** The end of [setResponderAndExtractTransfer], from
    [if (nextInst !== targetInst)] on: the previous responder, if there was
    one, has agreed and has been terminated. *)
Definition grantResponder
    (env : Env) (topLevelType : string) (targetInst nextInst : Inst)
    (nativeEvent : GestureEvent.t) (w : World) : Extracted * World :=
  let '(extracted, w) :=
    if decide (nextInst ≠ targetInst) then
      let event := createEvent gestureEnd (Some nextInst) nativeEvent in
      let event :=
        GesturePropagators.accumulateDescendantDispatches
          env targetInst nextInst event in
      (* The capturing responder becomes the new target. *)
      (accumulate None [event],
       GestureCache.targetChanged topLevelType targetInst nextInst w)
    else (None, w) in
  let event := createEvent responderGrant (Some nextInst) nativeEvent in
  let event := EventPropagators.accumulateDirectDispatches env event in
  let '(result, w) := executeDirectDispatch event w in
  let blockHostResponder := strictlyTrue result in
  (extracted, ResponderCache.grant nextInst blockHostResponder w).

Definition setResponderAndExtractTransfer
    (env : Env) (topLevelType : string) (targetInst : Inst)
    (nativeEvent : GestureEvent.t) (w : World) : Extracted * World :=
  (* Active responders always capture touches within descendants. *)
  let currentInst :=
    ResponderCache.findAncestor env
      (ResponderCache.InstTarget (Some targetInst)) w in
  let '(targetInst, w) :=
    match currentInst with
    | Some current =>
        if decide (current ≠ targetInst)
        then (current, GestureCache.targetChanged topLevelType targetInst current w)
        else (targetInst, w)
    | None => (targetInst, w)
    end in
  let event :=
    createEvent (shouldSetEventType topLevelType) (Some targetInst) nativeEvent in
  (* Always skip the current responder. *)
  let event :=
    match currentInst with
    | Some _ => EventPropagators.accumulateTwoPhaseDispatchesSkipTarget env event
    | None => EventPropagators.accumulateTwoPhaseDispatches env event
    end in
  (* Perform capturing/bubbling to determine the next responder. *)
  let '(nextInst, w) := executeDispatchesInOrderStopAtTrue event w in
  match nextInst with
  | None => (None, w)
  | Some nextInst =>
      match currentInst with
      | Some current =>
          (* Perform a termination request if an active responder exists. *)
          let event :=
            createEvent responderTerminationRequest (Some current) nativeEvent in
          let event := EventPropagators.accumulateDirectDispatches env event in
          let '(shouldSwitch, w) :=
            if negb (hasDispatches event) then (true, w)
            else let '(result, w) := executeDirectDispatch event w in
                 (truthy result, w) in
          if negb shouldSwitch then
            (* The active responder rejected the termination request. *)
            let event := createEvent responderReject (Some nextInst) nativeEvent in
            let event := EventPropagators.accumulateDirectDispatches env event in
            (accumulate None [event], w)
          else
            (* The previous responder has been terminated. *)
            let w := ResponderCache.release current w in
            let event := createEvent responderTerminate (Some current) nativeEvent in
            let event := EventPropagators.accumulateDirectDispatches env event in
            let w :=
              if hasDispatches event then snd (executeDirectDispatch event w)
              else w in
            grantResponder env topLevelType targetInst nextInst nativeEvent w
      | None =>
          grantResponder env topLevelType targetInst nextInst nativeEvent w
      end
  end.

Definition canTriggerTransfer
    (topLevelType : string) (topLevelInst : option Inst)
    (nativeEvent : GestureEvent.t) (w : World) : bool :=
  bool_decide (is_Some topLevelInst)
  && ((bool_decide (topLevelType = "topScroll")
       && negb (GestureEvent.responderIgnoreScroll nativeEvent))
      || (bool_decide (0 < trackedTouchCount w)%Z
          && bool_decide (topLevelType = "topSelectionChange"))
      || isStartish topLevelType
      || isMoveish topLevelType).

(** [extractTouchEvents] after the transfer attempt, from
    [var currentInst = ResponderCache.findAncestor(targetInst)] on. *)
Definition extractResponderEvents
    (env : Env) (topLevelType : string) (targetInst : option Inst)
    (nativeEvent : GestureEvent.t) (extracted : Extracted) (w : World)
    : Extracted * World :=
  (* Find the first ancestor that is currently responding. *)
  match ResponderCache.findAncestor env (ResponderCache.InstTarget targetInst) w with
  | None => (extracted, w)
  | Some currentInst =>
      let eventType :=
        if isStartish topLevelType then Some responderStart
        else if isMoveish topLevelType then Some responderMove
        else if isEndish topLevelType then Some responderEnd
        else None in
      (* Extract an incremental touch event. *)
      let extracted :=
        match eventType with
        | Some eventType =>
            let event := createEvent eventType (Some currentInst) nativeEvent in
            let event := EventPropagators.accumulateDirectDispatches env event in
            accumulate extracted [event]
        | None => extracted
        end in
      if negb (isEndish topLevelType) then (extracted, w)
      else
        let history :=
          Gesture.touchHistory
            (GestureCache.deref (GestureEvent.gesture nativeEvent) w) in
        let eventType :=
          if bool_decide (topLevelType = "topTouchCancel")
          then Some responderTerminate
          else if bool_decide (TouchHistory.numberActiveTouches history = 0%Z)
               then Some responderRelease
          else None in
        match eventType with
        | None => (extracted, w)
        | Some eventType =>
            let w := ResponderCache.release currentInst w in
            let event := createEvent eventType (Some currentInst) nativeEvent in
            let event := EventPropagators.accumulateDirectDispatches env event in
            (accumulate extracted [event], w)
        end
  end.

Definition extractTouchEvents
    (env : Env) (topLevelType : string) (targetInst : option Inst)
    (nativeEvent : GestureEvent.t) (w : World) : Extracted * World :=
  let '(extracted, w) :=
    if canTriggerTransfer topLevelType targetInst nativeEvent w then
      match targetInst with
      | Some inst =>
          setResponderAndExtractTransfer env topLevelType inst nativeEvent w
      | None => (None, w) (* excluded by [canTriggerTransfer] *)
      end
    else (None, w) in
  extractResponderEvents env topLevelType targetInst nativeEvent extracted w.

(** The callback of [GestureCache.touchesChanged(...).forEach] in
    [extractEvents]; [extracted] is the variable it closes over. *)
Definition extractGestureEvents
    (env : Env) (topLevelType : string) (event : GestureEvent.t)
    (extracted : Extracted) (w : World) : Extracted * World :=
  let targetInst := getInstanceFromTag env (GestureEvent.target event) in
  let changedTouches :=
    Gesture.changedTouches (GestureCache.deref (GestureEvent.gesture event) w) in
  (* Dispatch a [gestureStart] event to every potential responder. *)
  let w :=
    if isStartish topLevelType
       && bool_decide (length (GestureEvent.touches event) = length changedTouches)
    then
      let startEvent := createEvent gestureStart targetInst event in
      let startEvent :=
        GesturePropagators.accumulateStartDispatches env targetInst startEvent in
      executeDispatchesInOrder startEvent w
    else w in
  let '(touchEvents, w) := extractTouchEvents env topLevelType targetInst event w in
  let extracted :=
    match touchEvents with
    | Some touchEvents => accumulate extracted touchEvents
    | None => extracted
    end in
  (* Dispatch a [gestureEnd] event to every responder that needs it. *)
  let extracted :=
    if isEndish topLevelType
       && bool_decide (length (GestureEvent.touches event) = 0)
    then
      let endEvent := createEvent gestureEnd targetInst event in
      let endEvent :=
        GesturePropagators.accumulateEndDispatches env targetInst endEvent in
      accumulate extracted [endEvent]
    else extracted in
  (extracted, w).

Fixpoint forEachGesture
    (env : Env) (topLevelType : string) (events : list GestureEvent.t)
    (extracted : Extracted) (w : World) : Extracted * World :=
  match events with
  | [] => (extracted, w)
  | event :: events' =>
      let '(extracted, w) :=
        extractGestureEvents env topLevelType event extracted w in
      forEachGesture env topLevelType events' extracted w
  end.

(** The end of [extractEvents]: tell the interaction observer, if one was
    injected, that the number of tracked touches has changed. *)
Definition reportInteraction (env : Env) (w : World) : World :=
  let w :=
    if GlobalInteractionHandler env
       && negb (bool_decide (trackedTouchCount w = previousActiveTouches w))
    then set_interactionChanges (λ l, l ++ [trackedTouchCount w]) w
    else w in
  set_previousActiveTouches (λ _, trackedTouchCount w) w.

Definition extractEvents
    (env : Env) (topLevelType : string) (targetInst : option Inst)
    (nativeEvent : TouchEvent.t) : M Extracted :=
  λ w,
    (* Currently, only touch events are extracted. *)
    match TouchEvent.touches nativeEvent with
    | None => (Ok None, warn (NativeEventHasNoTouches topLevelType) w)
    | Some _ =>
        let changed := Z.of_nat (length (TouchEvent.changedTouches nativeEvent)) in
        let w :=
          if isStartish topLevelType
          then set_trackedTouchCount (λ n, n + changed)%Z w
          else if isEndish topLevelType
               then set_trackedTouchCount (λ n, n - changed)%Z w
          else w in
        if negb (isStartish topLevelType) && isEndish topLevelType
           && bool_decide (trackedTouchCount w < 0)%Z
        then (Ok None, error EndedUncountedTouch w)
        else
          (* Touches are grouped by current target. *)
          (let! events := GestureCache.touchesChanged env topLevelType nativeEvent in
           λ w,
             let '(extracted, w) := forEachGesture env topLevelType events None w in
             (Ok extracted, reportInteraction env w)) w
    end.

End ResponderEventPlugin.

(** ** GestureCache.js, the first copy

    [GestureCache.js] holds the module twice.  The first copy (lines 13 to
    150) assigns its functions to [exports]; the second, modelled above,
    replaces them through [module.exports] and is the one whose result
    [ResponderEventPlugin.js] can read ([event.touches]).  The first copy
    differs in [targetChanged], which compares the two tags before
    anything else, and in the last loop of [touchesChanged], a [forEach]
    from the front that returns the gestures themselves.  [attachGesture],
    [removeGesture] and the first two loops are the same code. *)

Module GestureCacheFirst.
Import EventPluginUtils.

Definition targetChanged
    (topLevelType : string) (oldTarget newTarget : Inst) (w : World) : World :=
  let oldTag := getNodeFromInstance oldTarget in
  let newTag := getNodeFromInstance newTarget in
  if decide (newTag = oldTag) then warn TargetsCannotBeEqual w
  else
    match gesturesByTarget w !! oldTag with
    | None => warn (InvalidTargetHasNoGesture oldTag) w
    | Some oldGesture =>
        match gesturesByTarget w !! newTag with
        | Some newGesture =>
            let w := GestureCache.update newGesture
              (Gesture.set_touchHistory
                 (TouchHistory.recordTouchEvent topLevelType
                    (Gesture.changedTouches (GestureCache.deref oldGesture w)))) w in
            let moved := Gesture.changedTouches (GestureCache.deref oldGesture w) in
            let w := GestureCache.update newGesture
              (Gesture.set_changedTouches (λ l, l ++ moved)) w in
            let oldMap := Gesture.touchMap (GestureCache.deref oldGesture w) in
            let w := set_gesturesByTouch
              (λ m, ((λ _, newGesture) <$> oldMap) ∪ m) w in
            let w := GestureCache.update newGesture
              (Gesture.set_touchMap (λ m, oldMap ∪ m)) w in
            GestureCache.removeGesture oldGesture w
        | None =>
            let w := GestureCache.update oldGesture (Gesture.set_target newTag) w in
            let w := set_gesturesByTarget (insert newTag oldGesture) w in
            set_gesturesByTarget (delete oldTag) w
        end
    end.

(** The callback of the last [forEach]. *)
Definition visitGesture
    (topLevelType : string) (gesture : nat)
    (changedGestures : list nat) (w : World) : list nat * World :=
  match Gesture.changedTouches (GestureCache.deref gesture w) with
  | [] => (changedGestures, w)
  | changed =>
      let changedGestures := changedGestures ++ [gesture] in
      let w := GestureCache.update gesture
        (Gesture.set_touchHistory
           (TouchHistory.recordTouchEvent topLevelType changed)) w in
      let w :=
        if isEndish topLevelType
           && bool_decide
                (TouchHistory.numberActiveTouches
                   (Gesture.touchHistory (GestureCache.deref gesture w)) = 0%Z)
        then GestureCache.removeGesture gesture w
        else w in
      (changedGestures, w)
  end.

(** [activeGestures.forEach(callback)] while the callback removes gestures
    from [activeGestures]: the indices [k], [k + 1], ... below the length
    the array had at the start are visited, each only if the array still
    reaches it, and each holds whatever the array holds there by then. *)
Fixpoint forEachActive
    (topLevelType : string) (k remaining : nat) (changedGestures : list nat)
    (w : World) : list nat * World :=
  match remaining with
  | O => (changedGestures, w)
  | S remaining =>
      match activeGestures w !! k with
      | None => forEachActive topLevelType (S k) remaining changedGestures w
      | Some gesture =>
          let '(changedGestures, w) :=
            visitGesture topLevelType gesture changedGestures w in
          forEachActive topLevelType (S k) remaining changedGestures w
      end
  end.

Definition touchesChanged
    (env : Env) (topLevelType : string) (nativeEvent : TouchEvent.t)
    : M (list nat) :=
  run! lift GestureCache.clearChangedTouches in
  run! forEach (TouchEvent.changedTouches nativeEvent)
         (GestureCache.rebuildChangedTouches env topLevelType) in
  run! (if isEndish topLevelType
        then forEach (TouchEvent.changedTouches nativeEvent)
               GestureCache.detachTouch
        else ret tt) in
  λ w, let '(changedGestures, w) :=
         forEachActive topLevelType 0 (length (activeGestures w)) [] w in
       (Ok changedGestures, w).

End GestureCacheFirst.

(** * Properties of states and runs *)

Import EventPluginUtils.

(** A run that ends without an exception. *)
Definition returns {A} (r : Outcome A * World) : Prop :=
  match r.1 with
  | Ok _ => True
  | Throw _ => False
  end.

(** The changed touches of a gesture, and whether it has any. *)
Definition changedOf (w : World) (gesture : nat) : list Touch.t :=
  Gesture.changedTouches (GestureCache.deref gesture w).

Definition hasChanged (w : World) (gesture : nat) : Prop :=
  changedOf w gesture ≠ [].

Global Instance hasChanged_dec w g : Decision (hasChanged w g).
Proof. unfold hasChanged. apply _. Defined.

(** The touch is in the touch-to-gesture index. *)
Definition tracked (w : World) (touch : Touch.t) : Prop :=
  is_Some (gesturesByTouch w !! Touch.identifier touch).

(** [activeGestures] lists existing gestures in the order of their
    creation: [attachGesture] pushes the gesture it has just allocated,
    and nothing else adds to the array. *)
Definition creationOrdered (w : World) : Prop :=
  StronglySorted lt (activeGestures w)
  ∧ Forall (λ g, g < length (heap w)) (activeGestures w).

(** The touch-to-gesture index holds existing gestures. *)
Definition refsBelow (w : World) : Prop :=
  map_Forall (λ _ g, g < length (heap w)) (gesturesByTouch w).

(** The events of a batch, the most recently created gesture first, and
    the oldest gesture first. *)
Definition newestFirst (events : list GestureEvent.t) : Prop :=
  StronglySorted (λ a b, b < a) (GestureEvent.gesture <$> events).

Definition oldestFirst (events : list GestureEvent.t) : Prop :=
  StronglySorted lt (GestureEvent.gesture <$> events).

(** The state after the touch history of a changed gesture has been
    updated in the last loop of [touchesChanged], and whether the loop
    then removes the gesture. *)
Definition recorded (topLevelType : string) (w : World) (g : nat) : World :=
  GestureCache.update g
    (Gesture.set_touchHistory
       (TouchHistory.recordTouchEvent topLevelType (changedOf w g))) w.

Definition removable (topLevelType : string) (w : World) (g : nat) : bool :=
  isEndish topLevelType
  && bool_decide
       (TouchHistory.numberActiveTouches
          (Gesture.touchHistory (GestureCache.deref g (recorded topLevelType w g)))
        = 0%Z).

(** The visits of the last loop, in the order in which they happen. *)
Definition visitGestures
    (topLevelType : string) (nativeEvent : TouchEvent.t) (gestures : list nat)
    (acc : list GestureEvent.t * World) : list GestureEvent.t * World :=
  foldl (λ acc g, GestureCache.visitGesture topLevelType nativeEvent g acc.1 acc.2)
    acc gestures.

Definition cleared : Gesture.t → Gesture.t :=
  Gesture.set_changedTouches (λ _, []).

Import GestureCache EventPluginUtilsDispatch ResponderEventPlugin.

(** The instance that wins a vote, and the listeners called for it. *)
Fixpoint firstTrue (ds : list Dispatch) : option Inst :=
  match ds with
  | [] => None
  | d :: ds' =>
      if truthy (listenerResult d) then Some (dispatchInstance d) else firstTrue ds'
  end.

Fixpoint calledUntilTrue (ds : list Dispatch) : list Dispatch :=
  match ds with
  | [] => []
  | d :: ds' => d :: (if truthy (listenerResult d) then [] else calledUntilTrue ds')
  end.

(** The should-set-responder vote that [setResponderAndExtractTransfer]
    runs when [voteTarget] is the target of the vote: the handlers of the
    target are skipped when there is a current responder. *)
Definition voteDispatches
    (env : Env) (topLevelType : string) (currentInst : option Inst)
    (voteTarget : Inst) : list Dispatch :=
  let path :=
    match currentInst with
    | Some _ => GesturePropagators.instancesUpFrom (getParentInstance voteTarget)
    | None => pathToRoot voteTarget
    end in
  match eventTypes (shouldSetEventType topLevelType) with
  | phasedRegistrationNames bubbled captured =>
      (rev path ≫= listenerOf env captured) ++ (path ≫= listenerOf env bubbled)
  | directRegistrationName _ => []
  end.

(** The same environment with one more listener. *)
Definition withListener
    (env : Env) (inst : Inst) (name : string) (result : JsVal) : Env :=
  mkEnv (getInstanceFromTag env)
    (λ i n, if decide (i = inst ∧ n = name) then Some result else getListener env i n)
    (GlobalInteractionHandler env).

(** A state without the trace of the listeners called on demand. *)
Definition forget (w : World) : World := set_dispatched (λ _, []) w.

(** The event that tells a candidate that the responder keeps its status. *)
Definition rejectEvent (env : Env) (next : Inst) (ne : GestureEvent.t) : SyntheticEvent :=
  EventPropagators.accumulateDirectDispatches env
    (createEvent responderReject (Some next) ne).

(** The start of [setResponderAndExtractTransfer] when there is a current
    responder: the vote is held at the responder, after the gesture of the
    target has been handed to it. *)
Definition retargeted
    (topLevelType : string) (targetInst current : Inst) (w : World) : World :=
  if decide (current ≠ targetInst)
  then targetChanged topLevelType targetInst current w
  else w.

(** The state in which the termination request is made, and the transfer
    once it has been approved. *)
Definition voted
    (env : Env) (topLevelType : string) (targetInst current : Inst) (w : World)
    : World :=
  set_dispatched
    (λ l, l ++ calledUntilTrue (voteDispatches env topLevelType (Some current) current))
    (retargeted topLevelType targetInst current w).

Definition approvedTransfer
    (env : Env) (topLevelType : string) (current next : Inst)
    (ne : GestureEvent.t) (w : World) : Extracted * World :=
  let w := ResponderCache.release current w in
  let event :=
    EventPropagators.accumulateDirectDispatches env
      (createEvent responderTerminate (Some current) ne) in
  let w := if hasDispatches event then (executeDirectDispatch event w).2 else w in
  grantResponder env topLevelType current next ne w.

(** What is on record outside the gesture cache. *)
Definition observed (w : World)
    : gmap Z Inst * list ResponderChange * list Dispatch * Z * Z * list Z :=
  (cache w, responderChanges w, dispatched w, trackedTouchCount w,
   previousActiveTouches w, interactionChanges w).

(** The target-to-gesture index leads to active gestures that carry the
    target they are filed under. *)
Definition targetIndexed (w : World) : Prop :=
  map_Forall
    (λ target g, g ∈ activeGestures w ∧ Gesture.target (deref g w) = target)
    (gesturesByTarget w).

Global Instance creationOrdered_dec w : Decision (creationOrdered w).
Proof. unfold creationOrdered. apply _. Defined.

Global Instance targetIndexed_dec w : Decision (targetIndexed w).
Proof. unfold targetIndexed. apply _. Defined.

Global Instance refsBelow_dec w : Decision (refsBelow w).
Proof. unfold refsBelow. apply _. Defined.

(** * Scenarios *)

Module Scenario.

(** A parent and its child. *)
Definition T1 : Inst := Root 1.
Definition T2 : Inst := Child 2 T1.

Definition listeners (l : list (Inst * string * JsVal)) : Inst → string → option JsVal :=
  λ inst name, (λ e, e.2.2) <$> list_find (λ e, e.1.1 = inst ∧ e.1.2 = name) l.

Definition instances (l : list Inst) : Z → option Inst :=
  λ tag, snd <$> list_find (λ inst, getTagFromInstance inst = tag) l.

(** A native event whose touches are its changed touches. *)
Definition batch (l : list Touch.t) : TouchEvent.t := TouchEvent.mk (Some l) l false.

(** No listener at all. *)
Definition silent : Env := mkEnv (instances [T1; T2]) (listeners []) true.

(** Both instances want to become the responder when a touch starts, and
    both agree to let go when asked. *)
Definition eager : Env :=
  mkEnv (instances [T1; T2])
    (listeners [(T1, "onStartShouldSetResponder", JBool true);
                (T1, "onResponderTerminationRequest", JBool true);
                (T1, "onResponderGrant", JUndefined);
                (T2, "onStartShouldSetResponder", JBool true);
                (T2, "onResponderTerminationRequest", JBool true);
                (T2, "onResponderTerminate", JUndefined)]) true.

(** The same, but the child refuses to let go. *)
Definition stubborn : Env :=
  mkEnv (instances [T1; T2])
    (listeners [(T1, "onStartShouldSetResponder", JBool true);
                (T2, "onStartShouldSetResponder", JBool true);
                (T2, "onResponderTerminationRequest", JBool false)]) true.

(** The same, but the child has no say: it is told when it has lost the
    status, as the parent is when it has got it. *)
Definition indifferent : Env :=
  mkEnv (instances [T1; T2])
    (listeners [(T1, "onStartShouldSetResponder", JBool true);
                (T1, "onResponderGrant", JBool true);
                (T2, "onStartShouldSetResponder", JBool true);
                (T2, "onResponderTerminate", JUndefined)]) true.

(** The parent claims the responder status when a touch moves. *)
Definition claimsOnMove : Env :=
  mkEnv (instances [T1; T2])
    (listeners [(T1, "onMoveShouldSetResponder", JBool true)]) true.

Definition touch (identifier target payload : Z) : Touch.t :=
  Touch.mk identifier target payload.

(** A touch has started on the parent, which is now the responder. *)
Definition parentResponds : World :=
  (extractEvents eager "topTouchStart" (Some T1) (batch [touch 10 1 0])
     initialWorld).2.

(** A touch has started on the child; where the child has a listener
    that claims the responder status, it is now the responder. *)
Definition childTouched (env : Env) : World :=
  (extractEvents env "topTouchStart" (Some T2) (batch [touch 10 2 0])
     initialWorld).2.

(** Two touches, one on the child and one on the parent; the parent
    became the responder when its touch moved. *)
Definition twoGestures : World :=
  let w := (extractEvents claimsOnMove "topTouchStart" (Some T2)
              (batch [touch 10 2 0]) initialWorld).2 in
  let w := (extractEvents claimsOnMove "topTouchStart" (Some T1)
              (batch [touch 11 1 0]) w).2 in
  (extractEvents claimsOnMove "topTouchMove" (Some T1) (batch [touch 11 1 1]) w).2.

(** The event of a gesture, as [touchesChanged] builds it. *)
Definition gestureEventOf (target : Z) (gesture : nat) : GestureEvent.t :=
  GestureEvent.mk target gesture [] false.

End Scenario.

(** The events of a run that returned. *)
Definition eventsOf (r : Outcome (list GestureEvent.t) * World) : list GestureEvent.t :=
  match r.1 with
  | Ok events => events
  | Throw _ => []
  end.


(** The gesture cache is consistent: [activeGestures] is in creation order
    and [gesturesByTarget] leads to active gestures under their own
    targets. *)
Definition consistent (w : World) : Prop := creationOrdered w ∧ targetIndexed w.

(** The states that the plugin reaches from the initial state, one native
    event after the other. *)
Inductive reachable (env : Env) : World → Prop :=
  | reachable_initial : reachable env initialWorld
  | reachable_extractEvents topLevelType targetInst nativeEvent w :
      reachable env w →
      reachable env (extractEvents env topLevelType targetInst nativeEvent w).2.

(** What lies outside the gesture cache: the registry and its observer,
    the counters of the plugin and their observer, the listeners called
    and the console. *)
Definition outsideGestures (w : World)
    : gmap Z Inst * list ResponderChange * Z * Z * list Z * list Dispatch
      * list ConsoleCall :=
  (cache w, responderChanges w, trackedTouchCount w, previousActiveTouches w,
   interactionChanges w, dispatched w, console w).

(** The registry that an observer of [ResponderCache.globalHandler] builds
    from the calls it has received: a grant registers the new responder
    under its tag, a release removes what is under the tag of the old
    one. *)
Definition replayChange (registry : gmap Z Inst) (c : ResponderChange) : gmap Z Inst :=
  match nextResponder c, previousResponder c with
  | Some inst, _ => <[getTagFromInstance inst := inst]> registry
  | None, Some inst => delete (getTagFromInstance inst) registry
  | None, None => registry
  end.

Definition replay (changes : list ResponderChange) : gmap Z Inst :=
  foldl replayChange ∅ changes.

(** The touch-to-gesture index leads to active gestures. *)
Definition touchIndexed (w : World) : Prop :=
  map_Forall (λ _ g, g ∈ activeGestures w) (gesturesByTouch w).

Global Instance touchIndexed_dec w : Decision (touchIndexed w).
Proof. unfold touchIndexed. apply _. Defined.

(** A log in which no entry repeats the one before it. *)
Fixpoint noRepeat (previous : Z) (l : list Z) : Prop :=
  match l with
  | [] => True
  | x :: l' => x ≠ previous ∧ noRepeat x l'
  end.

(** A call of the observer that announces a release. *)
Definition isRelease (c : ResponderChange) : Prop :=
  is_Some (previousResponder c) ∧ nextResponder c = None.

Global Instance consistent_dec w : Decision (consistent w).
Proof. unfold consistent. apply _. Defined.

Create Rewrite HintDb frame.

(** * The values of a touch map *)

Lemma values_empty {A} : values (∅ : gmap Z A) = [].
Proof. unfold values. by rewrite map_to_list_empty. Qed.

Lemma values_singleton {A} (identifier : Z) (touch : A) :
  values ({[identifier := touch]} : gmap Z A) = [touch].
Proof. unfold values. by rewrite map_to_list_singleton. Qed.

Lemma values_Permutation {A} (touchMap : gmap Z A) :
  values touchMap ≡ₚ (map_to_list touchMap).*2.
Proof. unfold values. by rewrite merge_sort_Permutation. Qed.

Lemma length_values {A} (touchMap : gmap Z A) :
  length (values touchMap) = size touchMap.
Proof. rewrite values_Permutation, length_fmap. by rewrite length_map_to_list. Qed.

(** The values are those of the entries of the map, listed by ascending
    key. *)
Lemma values_ascending {A} (touchMap : gmap Z A) :
  ∃ entries,
    values touchMap = entries.*2
    ∧ entries ≡ₚ map_to_list touchMap
    ∧ StronglySorted ascending entries.
Proof.
  exists (merge_sort ascending (map_to_list touchMap)).
  split; [done|]. split; [apply merge_sort_Permutation|].
  apply StronglySorted_merge_sort.
  - intros a b c. unfold ascending. lia.
  - intros a b. unfold ascending. lia.
Qed.

(** * The batch processor *)

(* --- indexOf / splice1 --- *)
Lemma indexOf_lookup l i g :
  NoDup l → l !! i = Some g → indexOf g l = Some i.
Proof.
  intros Hnd Hi. unfold indexOf.
  destruct (list_find (λ x, x = g) l) as [[j y]|] eqn:E; simpl.
  - apply list_find_Some in E as (Hj & -> & _).
    f_equal. eapply NoDup_lookup; eauto.
  - apply list_find_None in E. rewrite Forall_forall in E.
    exfalso. eapply E; [|reflexivity]. apply list_elem_of_lookup. eauto.
Qed.

Lemma splice1_length_ge l o i : i < length l → i ≤ length (splice1 o l).
Proof.
  intros Hi. destruct o as [j|]; simpl.
  - rewrite delete_take_drop, length_app, length_take, length_drop. lia.
  - rewrite length_take. lia.
Qed.

(** The effect of one visit *)
Lemma deref_update g g' f w :
  deref g (update g' f w) = if decide (g' = g ∧ g < length (heap w)) then f (deref g w) else deref g w.
Proof.
  unfold deref, update. simpl.
  case_decide as H.
  - destruct H as [-> H]. rewrite list_lookup_total_alter_eq; done.
  - destruct (decide (g' = g)) as [->|Hne].
    + rewrite !list_lookup_total_alt.
      rewrite list_lookup_alter_eq.
      rewrite (lookup_ge_None_2 (heap w) g) by lia. done.
    + by rewrite list_lookup_total_alter_ne.
Qed.

Lemma changedOf_update_history g g' f w :
  changedOf (update g' (Gesture.set_touchHistory f) w) g = changedOf w g.
Proof. unfold changedOf. rewrite deref_update. by case_decide. Qed.

Lemma visitGesture_unchanged type ne g events w :
  ¬ hasChanged w g → visitGesture type ne g events w = (events, w).
Proof.
  unfold hasChanged, changedOf, visitGesture. intros H.
  destruct (Gesture.changedTouches (deref g w)); [done|]. by destruct H.
Qed.

Lemma visitGesture_changed type ne g events w :
  hasChanged w g →
  visitGesture type ne g events w =
    (events ++ [gestureEvent ne g (recorded type w g)],
     if removable type w g then removeGesture g (recorded type w g) else recorded type w g).
Proof.
  unfold hasChanged, changedOf, visitGesture, removable, recorded, changedOf. intros H.
  destruct (Gesture.changedTouches (deref g w)) eqn:E; [done|]. done.
Qed.

Lemma visitGesture_changedOf type ne g events w g' :
  changedOf (visitGesture type ne g events w).2 g' = changedOf w g'.
Proof.
  destruct (decide (hasChanged w g)) as [H|H].
  - rewrite visitGesture_changed by done. simpl.
    destruct (removable type w g); unfold recorded; [|by rewrite changedOf_update_history].
    apply (changedOf_update_history g' g).
  - by rewrite visitGesture_unchanged.
Qed.

Lemma visitGesture_gestures type ne g events w :
  GestureEvent.gesture <$> (visitGesture type ne g events w).1
  = (GestureEvent.gesture <$> events) ++ (if decide (hasChanged w g) then [g] else []).
Proof.
  case_decide as H.
  - rewrite visitGesture_changed by done. simpl. by rewrite fmap_app.
  - rewrite visitGesture_unchanged by done. simpl. by rewrite app_nil_r.
Qed.

Lemma visitGesture_active type ne g events w :
  activeGestures (visitGesture type ne g events w).2
  = if decide (hasChanged w g) then
      if removable type w g then splice1 (indexOf g (activeGestures w)) (activeGestures w)
      else activeGestures w
    else activeGestures w.
Proof.
  case_decide as H.
  - rewrite visitGesture_changed by done. simpl. by destruct removable.
  - by rewrite visitGesture_unchanged.
Qed.

Lemma changedGestureEvents_returns topLevelType nativeEvent n :
  ∀ events w, n ≤ length (activeGestures w) →
    ∃ events' w', changedGestureEvents topLevelType nativeEvent n events w = (Ok events', w').
Proof.
  induction n as [|i IH]; intros events w Hn; simpl.
  - by eexists _, _.
  - destruct (lookup_lt_is_Some_2 (activeGestures w) i) as [g Hg]; [lia|].
    rewrite Hg. destruct (visitGesture _ _ _ _ _) as [events1 w1] eqn:E.
    apply IH. replace w1 with (visitGesture topLevelType nativeEvent g events w).2 by (by rewrite E).
    rewrite visitGesture_active. repeat case_match; try lia.
    apply splice1_length_ge. lia.
Qed.

(** The gestures of the events come out in the reverse order of [activeGestures]. *)
Lemma changedGestureEvents_gestures topLevelType nativeEvent n :
  ∀ events w events' w',
    NoDup (activeGestures w) →
    n ≤ length (activeGestures w) →
    changedGestureEvents topLevelType nativeEvent n events w = (Ok events', w') →
    GestureEvent.gesture <$> events'
    = (GestureEvent.gesture <$> events)
      ++ reverse (filter (hasChanged w) (take n (activeGestures w))).
Proof.
  induction n as [|i IH]; intros events w events' w' Hnd Hn; simpl.
  - intros [= <- <-]. by rewrite take_0, app_nil_r.
  - destruct (lookup_lt_is_Some_2 (activeGestures w) i) as [g Hg]; [lia|].
    rewrite Hg. destruct (visitGesture _ _ _ _ _) as [events1 w1] eqn:E.
    assert (E1 : events1 = (visitGesture topLevelType nativeEvent g events w).1) by (by rewrite E).
    assert (E2 : w1 = (visitGesture topLevelType nativeEvent g events w).2) by (by rewrite E).
    assert (Hact : take i (activeGestures w1) = take i (activeGestures w)
                   ∧ NoDup (activeGestures w1) ∧ i ≤ length (activeGestures w1)).
    { rewrite E2, visitGesture_active.
      repeat case_match; try (split_and!; [done|done|lia]).
      rewrite (indexOf_lookup _ i) by done. simpl.
      split_and!.
      - rewrite delete_take_drop, take_app_le by (rewrite length_take; lia).
        rewrite take_take. f_equal. lia.
      - eapply sublist_NoDup; [|apply sublist_delete]. done.
      - rewrite delete_take_drop, length_app, length_take, length_drop. lia. }
    destruct Hact as (Htake & Hnd1 & Hlen1).
    intros Hrun. apply IH in Hrun; [|done..].
    rewrite Hrun, Htake, E1, visitGesture_gestures.
    rewrite (take_S_r _ _ g) by done. rewrite filter_app, reverse_app.
    rewrite <- (assoc_L (++)). f_equal.
    rewrite (list_filter_iff (hasChanged w1) (hasChanged w)); last first.
    { intros g'. unfold hasChanged. by rewrite E2, visitGesture_changedOf. }
    f_equal. rewrite filter_cons, filter_nil. by case_decide.
Qed.

Lemma forEach_preserves {A} (P : World → Prop) (f : A → M unit) l w :
  (∀ x w, P w → P (f x w).2) → P w → P (forEach l f w).2.
Proof.
  intros Hf. revert w. induction l as [|x l IH]; intros w Hw; simpl; [done|].
  unfold bind. specialize (Hf x w Hw).
  destruct (f x w) as [[[]|e] w1]; simpl in *; auto.
Qed.

Lemma clearChangedTouches_active w :
  activeGestures (clearChangedTouches w) = activeGestures w.
Proof.
  unfold clearChangedTouches. generalize (activeGestures w) at 1 as l.
  intros l. revert w. induction l as [|g l IH]; intros w; simpl; [done|].
  by rewrite IH.
Qed.

Lemma clearChangedTouches_length w :
  length (heap (clearChangedTouches w)) = length (heap w).
Proof.
  unfold clearChangedTouches. generalize (activeGestures w) as l.
  intros l. revert w. induction l as [|g l IH]; intros w; simpl; [done|].
  rewrite IH. simpl. apply length_alter.
Qed.

Lemma creationOrdered_NoDup w : creationOrdered w → NoDup (activeGestures w).
Proof.
  intros [Hs _]. induction Hs as [|g l Hs IH Hg]; constructor; [|done].
  intros Hin. rewrite Forall_forall in Hg. specialize (Hg _ Hin). lia.
Qed.

Lemma creationOrdered_update g f w :
  creationOrdered w → creationOrdered (update g f w).
Proof. unfold creationOrdered. simpl. by rewrite length_alter. Qed.

Lemma creationOrdered_clear w :
  creationOrdered w → creationOrdered (clearChangedTouches w).
Proof.
  unfold creationOrdered.
  by rewrite clearChangedTouches_active, clearChangedTouches_length.
Qed.

Lemma creationOrdered_attach env touch w :
  creationOrdered w → creationOrdered (attachGesture env touch w).2.
Proof.
  intros [Hs Hb]. unfold attachGesture.
  destruct (gesturesByTarget w !! _); simpl; [done|].
  split; simpl.
  - apply StronglySorted_app; split_and!; [|done|repeat constructor].
    intros g1 g2 Hg1 ->%list_elem_of_singleton.
    rewrite Forall_forall in Hb. by apply Hb.
  - rewrite length_app. simpl. apply Forall_app. split.
    + eapply Forall_impl; [done|]. simpl. lia.
    + repeat constructor. lia.
Qed.

Lemma creationOrdered_rebuild env type touch w :
  creationOrdered w → creationOrdered (rebuildChangedTouches env type touch w).2.
Proof.
  intros Hw. unfold rebuildChangedTouches.
  destruct (isStartish type).
  - pose proof (creationOrdered_attach env touch w Hw) as H.
    destruct (attachGesture env touch w) as [g w1]. simpl in *.
    destruct (negb _); simpl; repeat apply creationOrdered_update; done.
  - destruct (gesturesByTouch w !! _); simpl; [|done].
    destruct (negb _); simpl; repeat apply creationOrdered_update; done.
Qed.

Lemma creationOrdered_detach touch w :
  creationOrdered w → creationOrdered (detachTouch touch w).2.
Proof.
  intros Hw. unfold detachTouch.
  destruct (gesturesByTouch w !! _); simpl; [|done].
  by apply (creationOrdered_update _ _ w).
Qed.

Lemma StronglySorted_filter_lt (P : nat → Prop) `{!∀ x, Decision (P x)} l :
  StronglySorted lt l → StronglySorted lt (filter P l).
Proof.
  induction 1 as [|x l Hs IH Hx]; [constructor|].
  rewrite filter_cons. case_decide; [|done].
  constructor; [done|].
  apply Forall_forall. intros y [_ Hy]%list_elem_of_filter.
  rewrite Forall_forall in Hx. auto.
Qed.

Lemma StronglySorted_reverse_lt l :
  StronglySorted lt l → StronglySorted (λ a b, b < a) (reverse l).
Proof.
  induction 1 as [|x l Hs IH Hx]; [constructor|].
  rewrite reverse_cons. apply StronglySorted_app. split_and!; [|done|repeat constructor].
  intros y z Hy ->%list_elem_of_singleton.
  rewrite elem_of_reverse in Hy. rewrite Forall_forall in Hx. auto.
Qed.

(** C1, amended.  The events that [touchesChanged] returns are in the
    reverse order of the creation of their gestures, the most recently
    created gesture first: the last loop runs from the end of
    [activeGestures], which lists the gestures in the order of their
    creation. *)
Theorem touchesChanged_newest_first env topLevelType nativeEvent w events w' :
  creationOrdered w →
  touchesChanged env topLevelType nativeEvent w = (Ok events, w') →
  newestFirst events.
Proof.
  intros Hw. unfold touchesChanged, bind, lift.
  pose proof (creationOrdered_clear w Hw) as H0.
  pose proof (forEach_preserves creationOrdered
    (rebuildChangedTouches env topLevelType)
    (TouchEvent.changedTouches nativeEvent) _
    (creationOrdered_rebuild env topLevelType) H0) as H1.
  destruct (forEach _ _ _) as [[[]|e] w1]; [|done]. simpl in H1.
  assert (H2 : ∀ o w2,
    (if isEndish topLevelType
     then forEach (TouchEvent.changedTouches nativeEvent) detachTouch
     else ret tt) w1 = (o, w2) → creationOrdered w2).
  { intros o w2. destruct (isEndish topLevelType).
    - intros E. replace w2 with (forEach (TouchEvent.changedTouches nativeEvent) detachTouch w1).2
        by (by rewrite E).
      apply forEach_preserves; [apply creationOrdered_detach|done].
    - by intros [= <- <-]. }
  destruct (_ w1) as [[[]|e] w2] eqn:E2; [|done].
  specialize (H2 _ _ eq_refl).
  intros Hrun.
  apply changedGestureEvents_gestures in Hrun;
    [|by apply creationOrdered_NoDup|done].
  unfold newestFirst. rewrite Hrun. simpl.
  apply StronglySorted_reverse_lt, StronglySorted_filter_lt.
  rewrite firstn_all. apply H2.
Qed.

Lemma returns_Ok {A} (r : Outcome A * World) :
  returns r ↔ ∃ a w', r = (Ok a, w').
Proof.
  destruct r as [[a|e] w']; unfold returns; simpl; split; try done.
  - intros _. by eexists _, _.
  - by intros (? & ? & ?).
Qed.

Lemma returns_bind {A B} (m : M A) (k : A → M B) w :
  returns (bind m k w) ↔ ∃ a w1, m w = (Ok a, w1) ∧ returns (k a w1).
Proof.
  unfold bind. destruct (m w) as [[a|e] w1].
  - split; [by eexists _, _|]. by intros (? & ? & [= <- <-] & ?).
  - split; [done|]. by intros (? & ? & ? & _).
Qed.

Lemma clearChangedTouches_byTouch w :
  gesturesByTouch (clearChangedTouches w) = gesturesByTouch w.
Proof.
  unfold clearChangedTouches. generalize (activeGestures w) as l.
  intros l. revert w. induction l as [|g l IH]; intros w; simpl; [done|].
  by rewrite IH.
Qed.

Lemma clearChangedTouches_console w :
  console (clearChangedTouches w) = console w.
Proof.
  unfold clearChangedTouches. generalize (activeGestures w) as l.
  intros l. revert w. induction l as [|g l IH]; intros w; simpl; [done|].
  by rewrite IH.
Qed.

Lemma rebuild_byTouch env type touch w :
  isStartish type = false →
  gesturesByTouch (rebuildChangedTouches env type touch w).2 = gesturesByTouch w.
Proof.
  intros Hs. unfold rebuildChangedTouches. rewrite Hs.
  by repeat case_match.
Qed.

Lemma rebuild_returns env type touch w :
  isStartish type = false →
  returns (rebuildChangedTouches env type touch w) ↔ tracked w touch.
Proof.
  intros Hs. unfold rebuildChangedTouches, tracked, returns. rewrite Hs.
  destruct (gesturesByTouch w !! _); simpl; [done|].
  split; [done|]. by intros [].
Qed.

Lemma forEach_rebuild_returns env type l :
  isStartish type = false →
  ∀ w, returns (forEach l (rebuildChangedTouches env type) w) ↔ Forall (tracked w) l.
Proof.
  intros Hs. induction l as [|t l IH]; intros w; simpl.
  - split; [constructor|done].
  - rewrite returns_bind, Forall_cons, <- (rebuild_returns env type) by done.
    pose proof (rebuild_byTouch env type t w Hs) as Hb.
    split.
    + intros ([] & w1 & E & H). rewrite E in Hb. split; [by rewrite E|].
      apply IH in H. eapply Forall_iff; [|done]. intros; unfold tracked. by rewrite <- Hb.
    + intros [(a & w1 & E)%returns_Ok H]. exists a, w1. split; [done|].
      rewrite E in Hb. apply IH. eapply Forall_iff; [|done].
      intros; unfold tracked. by rewrite <- Hb.
Qed.

Lemma forEach_detach_returns l :
  ∀ w, returns (forEach l detachTouch w)
       ↔ NoDup (Touch.identifier <$> l) ∧ Forall (tracked w) l.
Proof.
  induction l as [|t l IH]; intros w; simpl.
  - split; [by split; constructor|done].
  - rewrite returns_bind, NoDup_cons, Forall_cons. unfold detachTouch at 1, tracked at 1.
    destruct (gesturesByTouch w !! Touch.identifier t) as [g|] eqn:Ht; simpl.
    + match goal with |- context [(Ok (), ?w1)] => set (w1' := w1) end.
      assert (Forall (tracked w1') l
              ↔ (Touch.identifier t ∉ Touch.identifier <$> l) ∧ Forall (tracked w) l) as Hiff.
      { rewrite list_elem_of_fmap, !Forall_forall. unfold tracked. simpl. split.
        - intros H. split.
          + intros (t' & Hid & Hin). specialize (H _ Hin).
            rewrite <- Hid, lookup_delete_eq in H. by destruct H.
          + intros t' Hin. specialize (H _ Hin).
            rewrite lookup_delete in H. by case_decide; [destruct H|].
        - intros [Hn H] t' Hin. rewrite lookup_delete_ne; [by apply H|].
          intros Hid. apply Hn. by exists t'. }
      split.
      * intros (a & w2 & [= <- <-] & [Hnd H]%IH). apply Hiff in H as [? ?]. eauto.
      * intros ([Hn Hnd] & _ & H). exists (), w1'. split; [done|].
        apply IH. split; [done|]. by apply Hiff.
    + split; [by intros (? & ? & ? & _)|]. by intros [_ [[] _]].
Qed.

Lemma forEach_console {A} (f : A → M unit) l w :
  (∀ x w, console (f x w).2 = console w) → console (forEach l f w).2 = console w.
Proof.
  intros Hf. apply (forEach_preserves (λ w', console w' = console w)); [|done].
  intros x w1 <-. apply Hf.
Qed.

Lemma rebuild_console env type touch w :
  console (rebuildChangedTouches env type touch w).2 = console w.
Proof.
  unfold rebuildChangedTouches, attachGesture.
  repeat case_match; simplify_eq/=; done.
Qed.

Lemma detach_console touch w : console (detachTouch touch w).2 = console w.
Proof. unfold detachTouch. by case_match. Qed.

Lemma visitGesture_console type ne g events w :
  console (visitGesture type ne g events w).2 = console w.
Proof. unfold visitGesture. by repeat case_match. Qed.

Lemma changedGestureEvents_console type ne n :
  ∀ events w, console (changedGestureEvents type ne n events w).2 = console w.
Proof.
  induction n as [|i IH]; intros events w; simpl; [done|].
  destruct (activeGestures w !! i) as [g|]; [|done].
  pose proof (visitGesture_console type ne g events w) as H.
  destruct (visitGesture _ _ _ _ _) as [events1 w1]. simpl in H.
  by rewrite IH.
Qed.

Lemma touchesChanged_console env type ne w :
  console (touchesChanged env type ne w).2 = console w.
Proof.
  unfold touchesChanged, bind, lift.
  pose proof (forEach_console (rebuildChangedTouches env type)
    (TouchEvent.changedTouches ne) (clearChangedTouches w) (rebuild_console env type)) as H1.
  rewrite clearChangedTouches_console in H1.
  destruct (forEach _ _ _) as [[[]|e] w1]; [|done]. simpl in H1.
  destruct (isEndish type).
  - pose proof (forEach_console detachTouch (TouchEvent.changedTouches ne) w1
      detach_console) as H2.
    destruct (forEach _ detachTouch w1) as [[[]|e] w2]; simpl in *; [|congruence].
    rewrite changedGestureEvents_console. congruence.
  - simpl. by rewrite changedGestureEvents_console.
Qed.

Lemma forEach_rebuild_byTouch env type l w :
  isStartish type = false →
  gesturesByTouch (forEach l (rebuildChangedTouches env type) w).2 = gesturesByTouch w.
Proof.
  intros Hs.
  apply (forEach_preserves (λ w', gesturesByTouch w' = gesturesByTouch w)); [|done].
  intros x w1 <-. by apply rebuild_byTouch.
Qed.

(** C4.  The batch processor has no guard for a touch that is not
    tracked.  A batch that is not start-like returns exactly when each of
    its changed touches is in [gesturesByTouch] and, if it is end-like, no
    identifier occurs twice in it; otherwise [touchesChanged] throws a
    [TypeError] where the claim expects a report and a normal return.  In
    both cases it reports nothing on the console. *)
Theorem touchesChanged_returns_iff env topLevelType nativeEvent w :
  isStartish topLevelType = false →
  (returns (touchesChanged env topLevelType nativeEvent w)
   ↔ Forall (tracked w) (TouchEvent.changedTouches nativeEvent)
     ∧ (isEndish topLevelType = true →
        NoDup (Touch.identifier <$> TouchEvent.changedTouches nativeEvent)))
  ∧ console (touchesChanged env topLevelType nativeEvent w).2 = console w.
Proof.
  intros Hs. split; [|apply touchesChanged_console].
  unfold touchesChanged.
  rewrite returns_bind. unfold lift at 1.
  assert (∀ P, (∃ (a : ()) w1, (Ok (), clearChangedTouches w) = (Ok a, w1) ∧ P a w1)
               ↔ P () (clearChangedTouches w)) as ->.
  { intros P. split; [by intros ([] & ? & [= <-] & ?)|]. intros; by eexists _, _. }
  rewrite returns_bind.
  pose proof (forEach_rebuild_returns env topLevelType
    (TouchEvent.changedTouches nativeEvent) Hs (clearChangedTouches w)) as H1.
  pose proof (forEach_rebuild_byTouch env topLevelType
    (TouchEvent.changedTouches nativeEvent) (clearChangedTouches w) Hs) as Hb.
  rewrite clearChangedTouches_byTouch in Hb.
  rewrite (Forall_iff (tracked (clearChangedTouches w)) _ (tracked w)) in H1
    by (intros; unfold tracked; by rewrite clearChangedTouches_byTouch).
  rewrite <- H1. clear H1.
  split.
  - intros ([] & w1 & E & H). rewrite E in Hb |- *. split; [done|].
    apply returns_bind in H as ([] & w2 & E2 & _).
    intros He. rewrite He in E2.
    assert (returns (forEach (TouchEvent.changedTouches nativeEvent) detachTouch w1)) as H
      by (by rewrite E2).
    by apply forEach_detach_returns in H as [H _].
  - intros [(a & w1 & E)%returns_Ok Hnd]. destruct a.
    exists (), w1. split; [done|]. rewrite E in Hb. simpl in Hb.
    apply returns_bind.
    assert (returns ((if isEndish topLevelType
        then forEach (TouchEvent.changedTouches nativeEvent) detachTouch else ret ()) w1)) as H2.
    { destruct (isEndish topLevelType); [|done].
      apply forEach_detach_returns. split; [by apply Hnd|].
      assert (returns (forEach (TouchEvent.changedTouches nativeEvent)
                (rebuildChangedTouches env topLevelType) (clearChangedTouches w))) as H
        by (by rewrite E).
      apply forEach_rebuild_returns in H; [|done].
      eapply Forall_iff; [|done]. intros; unfold tracked.
      by rewrite Hb, clearChangedTouches_byTouch. }
    apply returns_Ok in H2 as ([] & w2 & E2). exists (), w2. split; [done|].
    apply returns_Ok. by apply changedGestureEvents_returns.
Qed.

Lemma changedGestureEvents_visits type ne n :
  ∀ events w,
    NoDup (activeGestures w) →
    n ≤ length (activeGestures w) →
    changedGestureEvents type ne n events w
    = let r := visitGestures type ne
                 (reverse (filter (hasChanged w) (take n (activeGestures w))))
                 (events, w) in
      (Ok r.1, r.2).
Proof.
  induction n as [|i IH]; intros events w Hnd Hn; simpl.
  - done.
  - destruct (lookup_lt_is_Some_2 (activeGestures w) i) as [g Hg]; [lia|].
    rewrite Hg, (take_S_r _ _ g), filter_app, reverse_app by done.
    rewrite filter_cons, filter_nil.
    destruct (decide (hasChanged w g)) as [Hc|Hc].
    + simpl.
      destruct (visitGesture type ne g events w) as [events1 w1] eqn:E.
      assert (E2 : w1 = (visitGesture type ne g events w).2) by (by rewrite E).
      assert (Hact : take i (activeGestures w1) = take i (activeGestures w)
                     ∧ NoDup (activeGestures w1) ∧ i ≤ length (activeGestures w1)).
      { rewrite E2, visitGesture_active.
        repeat case_match; try (split_and!; [done|done|lia]).
        rewrite (indexOf_lookup _ i) by done. simpl.
        split_and!.
        - rewrite delete_take_drop, take_app_le by (rewrite length_take; lia).
          rewrite take_take. f_equal. lia.
        - eapply sublist_NoDup; [|apply sublist_delete]. done.
        - rewrite delete_take_drop, length_app, length_take, length_drop. lia. }
      destruct Hact as (Htake & Hnd1 & Hlen1).
      rewrite IH, Htake by done.
      rewrite (list_filter_iff (hasChanged w1) (hasChanged w)); [done|].
      intros g'. unfold hasChanged. by rewrite E2, visitGesture_changedOf.
    + simpl. rewrite visitGesture_unchanged by done. by apply IH; [|lia].
Qed.

Lemma elem_of_delete_NoDup (l : list nat) i c g :
  NoDup l → l !! i = Some c → g ∈ delete i l ↔ g ∈ l ∧ g ≠ c.
Proof.
  intros Hnd Hi. rewrite delete_take_drop.
  rewrite <- (take_drop_middle _ _ _ Hi) in Hnd.
  rewrite <- (take_drop_middle l i c Hi) at 3.
  apply NoDup_app in Hnd as (_ & Hn1 & Hn2).
  apply NoDup_cons in Hn2 as [Hn2 _].
  rewrite !elem_of_app, elem_of_cons. split.
  - intros [H|H]; (split; [tauto|]); intros ->.
    + apply (Hn1 c H). by left.
    + done.
  - intros [[H|[H|H]] Hne]; tauto.
Qed.

Lemma removeGesture_active g w :
  activeGestures (removeGesture g w)
  = splice1 (indexOf g (activeGestures w)) (activeGestures w).
Proof. reflexivity. Qed.

Lemma recorded_deref type w g :
  deref g (recorded type w g)
  = if decide (g < length (heap w))
    then Gesture.set_touchHistory
           (TouchHistory.recordTouchEvent type (changedOf w g)) (deref g w)
    else deref g w.
Proof.
  unfold recorded. rewrite deref_update.
  repeat case_decide; try done; tauto.
Qed.

Lemma recorded_deref_ne type w g g' :
  g ≠ g' → deref g' (recorded type w g) = deref g' w.
Proof.
  intros Hne. unfold recorded. rewrite deref_update. case_decide; tauto.
Qed.

Lemma hasChanged_lt w g : hasChanged w g → g < length (heap w).
Proof.
  unfold hasChanged, changedOf, deref. intros H.
  destruct (decide (g < length (heap w))); [done|].
  rewrite list_lookup_total_alt, lookup_ge_None_2 in H by lia. done.
Qed.

(** What one visit of a changed gesture does to the state. *)
Lemma visitGesture_state type ne c events w :
  NoDup (activeGestures w) → c ∈ activeGestures w → hasChanged w c →
  let w1 := (visitGesture type ne c events w).2 in
  (∀ g, g ∈ activeGestures w1
        ↔ g ∈ activeGestures w ∧ ¬ (g = c ∧ removable type w c = true))
  ∧ NoDup (activeGestures w1)
  ∧ (∀ g, deref g w1 = if decide (g = c) then deref c (recorded type w c) else deref g w)
  ∧ length (heap w1) = length (heap w)
  ∧ gesturesByTarget w1
    = (if removable type w c then delete (Gesture.target (deref c w)) (gesturesByTarget w)
       else gesturesByTarget w)
  ∧ gesturesByTouch w1 = gesturesByTouch w.
Proof.
  intros Hnd Hc Hch. rewrite visitGesture_changed by done. simpl.
  assert (Hd : ∀ g, deref g (recorded type w c)
                    = if decide (g = c) then deref c (recorded type w c) else deref g w).
  { intros g. case_decide as E; [by subst|]. by rewrite recorded_deref_ne. }
  assert (Ht : Gesture.target (deref c (recorded type w c)) = Gesture.target (deref c w)).
  { rewrite recorded_deref. by case_decide. }
  destruct (removable type w c) eqn:Hr.
  - apply list_elem_of_lookup in Hc as [i Hi].
    assert (Hact : activeGestures (removeGesture c (recorded type w c))
                   = delete i (activeGestures w)).
    { rewrite removeGesture_active. change (activeGestures (recorded type w c))
        with (activeGestures w). by rewrite (indexOf_lookup _ i). }
    split_and!.
    + intros g. rewrite Hact, (elem_of_delete_NoDup _ i c) by done. tauto.
    + rewrite Hact. eapply sublist_NoDup; [|apply sublist_delete]. done.
    + intros g. apply Hd.
    + change (length (heap (recorded type w c)) = length (heap w)).
      apply length_alter.
    + rewrite <- Ht. reflexivity.
    + reflexivity.
  - split_and!; try done.
    + intros g. split; [|tauto]. intros H. split; [done|]. by intros [_ ?].
    + apply length_alter.
Qed.

Lemma removable_ext type w w1 g :
  deref g w1 = deref g w → length (heap w1) = length (heap w) →
  removable type w1 g = removable type w g.
Proof.
  intros Hd Hl. unfold removable. rewrite !recorded_deref, Hl.
  unfold changedOf. by rewrite Hd.
Qed.

Lemma visitGestures_state type ne cs :
  ∀ events w,
    NoDup (activeGestures w) → NoDup cs →
    (∀ c, c ∈ cs → c ∈ activeGestures w ∧ hasChanged w c) →
    let w' := (visitGestures type ne cs (events, w)).2 in
    (∀ g, g ∈ activeGestures w'
          ↔ g ∈ activeGestures w ∧ ¬ (g ∈ cs ∧ removable type w g = true))
    ∧ (∀ g, deref g w' = if decide (g ∈ cs) then deref g (recorded type w g) else deref g w)
    ∧ (∀ g, g ∈ cs → removable type w g = true →
            gesturesByTarget w' !! Gesture.target (deref g w) = None)
    ∧ (∀ t, gesturesByTarget w' !! t = None
            ∨ gesturesByTarget w' !! t = gesturesByTarget w !! t)
    ∧ gesturesByTouch w' = gesturesByTouch w.
Proof.
  induction cs as [|c cs IH]; intros events w Hnd Hcs Hin; simpl.
  - split_and!.
    + intros g. rewrite elem_of_nil. tauto.
    + intros g. first [done | by rewrite decide_False by apply not_elem_of_nil].
    + by intros g ?%elem_of_nil.
    + by right.
    + done.
  - apply NoDup_cons in Hcs as [Hc Hcs].
    destruct (Hin c) as [Hca Hch]; [by left|].
    destruct (visitGesture_state type ne c events w Hnd Hca Hch)
      as (Ha1 & Hnd1 & Hd1 & Hl1 & Ht1 & Hb1).
    destruct (visitGesture type ne c events w) as [events1 w1]. simpl in *.
    assert (Hch1 : ∀ g, hasChanged w1 g ↔ hasChanged w g).
    { intros g. unfold hasChanged, changedOf. rewrite Hd1. case_decide; [subst|done].
      rewrite recorded_deref. by case_decide. }
    assert (Hr1 : ∀ g, g ≠ c → removable type w1 g = removable type w g).
    { intros g Hne. apply removable_ext; [|done]. rewrite Hd1. by case_decide. }
    destruct (IH events1 w1) as (Ha & Hd & Ht & Hk & Hb); [done|done| |].
    { intros c' Hc'. destruct (Hin c') as [? ?]; [by right|].
      split; [|by apply Hch1]. apply Ha1. split; [done|]. intros [-> _]. done. }
    split_and!.
    + intros g. rewrite Ha, Ha1, elem_of_cons.
      destruct (decide (g = c)) as [->|Hne]; [tauto|].
      rewrite Hr1 by done. tauto.
    + intros g. rewrite Hd, Hd1.
      destruct (decide (g = c)) as [->|Hne].
      * rewrite (decide_False (P := c ∈ cs)) by done.
        by rewrite decide_True by (by left).
      * destruct (decide (g ∈ cs)) as [Hg|Hg].
        -- rewrite (decide_True (P := g ∈ c :: cs)) by (by right).
           rewrite !recorded_deref, Hl1. unfold changedOf.
           rewrite Hd1. by rewrite (decide_False (P := g = c)) by done.
        -- rewrite (decide_False (P := g ∈ c :: cs)); [done|].
           by intros [?|?]%elem_of_cons.
    + intros g [->|Hg]%elem_of_cons Hr.
      * destruct (Hk (Gesture.target (deref c w))) as [?|E]; [done|].
        rewrite E, Ht1, Hr. apply lookup_delete_eq.
      * assert (g ≠ c) as Hne by (by intros ->).
        specialize (Ht g Hg). rewrite Hr1, Hd1, decide_False in Ht by done. auto.
    + intros t. destruct (Hk t) as [?|E]; [by left|].
      rewrite E, Ht1. destruct (removable type w c); [|by right].
      destruct (decide (Gesture.target (deref c w) = t)) as [->|Hne].
      * left. apply lookup_delete_eq.
      * right. by apply lookup_delete_ne.
    + by rewrite Hb.
Qed.

Lemma attachGesture_active_mono env touch w g :
  g ∈ activeGestures w → g ∈ activeGestures (attachGesture env touch w).2.
Proof.
  unfold attachGesture. destruct (gesturesByTarget w !! _); simpl; [done|].
  intros H. apply elem_of_app. by left.
Qed.

Lemma rebuild_active_mono env type touch w g :
  g ∈ activeGestures w → g ∈ activeGestures (rebuildChangedTouches env type touch w).2.
Proof.
  intros H. unfold rebuildChangedTouches. destruct (isStartish type).
  - pose proof (attachGesture_active_mono env touch w g H) as H1.
    destruct (attachGesture env touch w) as [g1 w1]. simpl in *.
    by destruct (negb _).
  - destruct (gesturesByTouch w !! _); simpl; [|done]. by destruct (negb _).
Qed.

Lemma detach_active touch w :
  activeGestures (detachTouch touch w).2 = activeGestures w.
Proof. unfold detachTouch. by destruct (gesturesByTouch w !! _). Qed.

(** The state in which the last loop of [touchesChanged] starts. *)
Lemma touchesChanged_phases env type ne w events w' :
  creationOrdered w →
  touchesChanged env type ne w = (Ok events, w') →
  ∃ w2, creationOrdered w2
        ∧ (∀ g, g ∈ activeGestures w → g ∈ activeGestures w2)
        ∧ changedGestureEvents type ne (length (activeGestures w2)) [] w2
          = (Ok events, w').
Proof.
  intros Hw. unfold touchesChanged, bind, lift.
  pose proof (creationOrdered_clear w Hw) as H0.
  pose proof (forEach_preserves creationOrdered
    (rebuildChangedTouches env type) (TouchEvent.changedTouches ne) _
    (creationOrdered_rebuild env type) H0) as H1.
  pose proof (forEach_preserves (λ w', ∀ g, g ∈ activeGestures w → g ∈ activeGestures w')
    (rebuildChangedTouches env type) (TouchEvent.changedTouches ne)
    (clearChangedTouches w)) as M1.
  simpl in M1. specialize (M1 (λ x w1 H g Hg, rebuild_active_mono env type x w1 g (H g Hg))).
  rewrite clearChangedTouches_active in M1. specialize (M1 (λ g Hg, Hg)).
  destruct (forEach _ _ _) as [[[]|e] w1]; [|done]. simpl in H1, M1.
  destruct (isEndish type).
  - pose proof (forEach_preserves creationOrdered detachTouch
      (TouchEvent.changedTouches ne) w1 creationOrdered_detach H1) as H2.
    pose proof (forEach_preserves (λ w', activeGestures w' = activeGestures w1) detachTouch
      (TouchEvent.changedTouches ne) w1) as M2.
    simpl in M2. specialize (M2 (λ x w2 H, eq_trans (detach_active x w2) H) eq_refl).
    destruct (forEach _ detachTouch w1) as [[[]|e] w2]; [|done]. simpl in *.
    intros Hrun. exists w2. split_and!; [done| |done].
    intros g Hg. rewrite M2. auto.
  - simpl. intros Hrun. by exists w1.
Qed.

Theorem gesture_removed_iff env topLevelType nativeEvent w events w' :
  creationOrdered w →
  touchesChanged env topLevelType nativeEvent w = (Ok events, w') →
  ∀ g, g ∈ activeGestures w →
    (g ∉ activeGestures w'
     ↔ isEndish topLevelType = true
       ∧ hasChanged w' g
       ∧ TouchHistory.numberActiveTouches (Gesture.touchHistory (deref g w')) = 0%Z)
    ∧ (g ∉ activeGestures w'
       → gesturesByTarget w' !! Gesture.target (deref g w') = None).
Proof.
  intros Hw Hrun g Hg.
  destruct (touchesChanged_phases _ _ _ _ _ _ Hw Hrun) as (w2 & Hw2 & Hmono & Hloop).
  pose proof (creationOrdered_NoDup _ Hw2) as Hnd.
  rewrite changedGestureEvents_visits in Hloop by done.
  rewrite firstn_all in Hloop. simpl in Hloop.
  set (cs := reverse (filter (hasChanged w2) (activeGestures w2))) in *.
  assert (Hcs : ∀ c, c ∈ cs ↔ c ∈ activeGestures w2 ∧ hasChanged w2 c).
  { intros c. unfold cs. rewrite elem_of_reverse, list_elem_of_filter. tauto. }
  destruct (visitGestures_state topLevelType nativeEvent cs [] w2)
    as (Ha & Hd & Ht & _ & _); [done| |by intros c ?%Hcs|].
  { unfold cs. rewrite reverse_Permutation. by apply NoDup_filter. }
  injection Hloop as _ Hw'. rewrite Hw' in Ha, Hd, Ht. clear Hw'.
  specialize (Hmono g Hg).
  assert (Hchg : hasChanged w' g ↔ hasChanged w2 g).
  { unfold hasChanged, changedOf. rewrite Hd. case_decide; [|done].
    rewrite recorded_deref. by case_decide. }
  assert (Hrem : g ∉ activeGestures w' ↔ g ∈ cs ∧ removable topLevelType w2 g = true).
  { rewrite Ha.
    destruct (decide (g ∈ cs)) as [Hc|Hc];
      destruct (removable topLevelType w2 g) eqn:Hr;
      (split; [intros H|intros [? ?]; try done; tauto]);
      try done; exfalso; apply H; (split; [done|]); by intros [? ?]. }
  split.
  - rewrite Hrem, Hcs, Hchg. unfold removable.
    rewrite andb_true_iff, bool_decide_eq_true.
    split.
    + intros [[_ Hc] [He Hn]]. split_and!; [done..|].
      rewrite Hd. by rewrite decide_True by (by apply Hcs).
    + intros (He & Hc & Hn). split_and!; [done..|].
      rewrite Hd in Hn. by rewrite decide_True in Hn by (by apply Hcs).
  - intros [Hc Hr]%Hrem. specialize (Ht g Hc Hr).
    rewrite Hd, decide_True, recorded_deref by done. by case_decide.
Qed.

(** ** One touch started, then ended *)

Lemma isStartish_not_isEndish type : isStartish type = true → isEndish type = false.
Proof.
  unfold isStartish, isEndish.
  rewrite orb_true_iff, !bool_decide_eq_true. by intros [-> | ->].
Qed.

Lemma isEndish_not_isStartish type : isEndish type = true → isStartish type = false.
Proof.
  intros H. destruct (isStartish type) eqn:E; [|done].
  apply isStartish_not_isEndish in E. congruence.
Qed.

Lemma clearChangedTouches_fold w :
  clearChangedTouches w
  = set_heap (λ h, foldl (λ h g, alter cleared g h) h (activeGestures w)) w.
Proof.
  unfold clearChangedTouches. generalize (activeGestures w) as l. intros l.
  revert w. induction l as [|g l IH]; intros w; simpl.
  - by destruct w.
  - rewrite IH. by destruct w.
Qed.

Lemma foldl_cleared_lookup (l : list nat) (h : list Gesture.t) g :
  foldl (λ h g, alter cleared g h) h l !!! g
  = if decide (g ∈ l) then cleared (h !!! g) else h !!! g.
Proof.
  revert h. induction l as [|a l IH]; intros h; simpl.
  - done.
  - rewrite IH. rewrite list_lookup_total_alter.
    destruct (decide (g ∈ l)) as [Hl|Hl].
    + rewrite (decide_True (P := g ∈ a :: l)) by (by right).
      case_decide as E; [|done]. by destruct E as [-> _].
    + destruct (decide (a = g)) as [->|Hne].
      * rewrite (decide_True (P := g ∈ g :: l)) by (by left).
        case_decide as E; [done|].
        rewrite !list_lookup_total_alt, lookup_ge_None_2; [done|].
        destruct (decide (g < length h)); [|lia]. destruct E. done.
      * rewrite (decide_False (P := g ∈ a :: l)) by (by intros [?|?]%elem_of_cons).
        case_decide as E; [|done]. by destruct E.
Qed.

Lemma clearChangedTouches_deref w g :
  deref g (clearChangedTouches w)
  = if decide (g ∈ activeGestures w) then cleared (deref g w) else deref g w.
Proof. rewrite clearChangedTouches_fold. unfold deref. simpl. apply foldl_cleared_lookup. Qed.

Lemma clearChangedTouches_unchanged w g :
  g ∈ activeGestures w → ¬ hasChanged (clearChangedTouches w) g.
Proof.
  intros Hg. unfold hasChanged, changedOf.
  rewrite clearChangedTouches_deref, decide_True by done. by intros [].
Qed.

Lemma filter_hasChanged_nil w (l : list nat) :
  (∀ g, g ∈ l → ¬ hasChanged w g) → filter (hasChanged w) l = [].
Proof.
  induction l as [|a l IH]; intros H; [done|].
  rewrite filter_cons_False by (apply H; by left).
  apply IH. intros g Hg. apply H. by right.
Qed.

(** When the last gesture of [activeGestures] is the only one with changed
    touches, the last loop is one visit. *)
Lemma changedGestureEvents_last type ne w l g :
  activeGestures w = l ++ [g] → NoDup (l ++ [g]) →
  hasChanged w g → (∀ g', g' ∈ l → ¬ hasChanged w g') →
  changedGestureEvents type ne (length (activeGestures w)) [] w
  = let r := visitGesture type ne g [] w in (Ok r.1, r.2).
Proof.
  intros Hl Hnd Hg Hothers.
  rewrite changedGestureEvents_visits by (by rewrite Hl).
  rewrite firstn_all, Hl, filter_app, filter_hasChanged_nil by done.
  by rewrite filter_cons_True, filter_nil by done.
Qed.

Lemma World_eq w w' :
  cache w = cache w' → responderChanges w = responderChanges w' →
  heap w = heap w' → activeGestures w = activeGestures w' →
  gesturesByTouch w = gesturesByTouch w' → gesturesByTarget w = gesturesByTarget w' →
  trackedTouchCount w = trackedTouchCount w' →
  previousActiveTouches w = previousActiveTouches w' →
  interactionChanges w = interactionChanges w' →
  dispatched w = dispatched w' → console w = console w' →
  w = w'.
Proof. destruct w, w'; simpl; intros; by subst. Qed.

Lemma clearChangedTouches_cache w : cache (clearChangedTouches w) = cache w.
Proof. by rewrite clearChangedTouches_fold. Qed.
Lemma clearChangedTouches_byTarget w :
  gesturesByTarget (clearChangedTouches w) = gesturesByTarget w.
Proof. by rewrite clearChangedTouches_fold. Qed.
Lemma clearChangedTouches_responderChanges w :
  responderChanges (clearChangedTouches w) = responderChanges w.
Proof. by rewrite clearChangedTouches_fold. Qed.
Lemma clearChangedTouches_trackedTouchCount w :
  trackedTouchCount (clearChangedTouches w) = trackedTouchCount w.
Proof. by rewrite clearChangedTouches_fold. Qed.
Lemma clearChangedTouches_previousActiveTouches w :
  previousActiveTouches (clearChangedTouches w) = previousActiveTouches w.
Proof. by rewrite clearChangedTouches_fold. Qed.
Lemma clearChangedTouches_interactionChanges w :
  interactionChanges (clearChangedTouches w) = interactionChanges w.
Proof. by rewrite clearChangedTouches_fold. Qed.
Lemma clearChangedTouches_dispatched w :
  dispatched (clearChangedTouches w) = dispatched w.
Proof. by rewrite clearChangedTouches_fold. Qed.

Hint Rewrite clearChangedTouches_cache clearChangedTouches_byTarget
  clearChangedTouches_responderChanges clearChangedTouches_trackedTouchCount
  clearChangedTouches_previousActiveTouches clearChangedTouches_interactionChanges
  clearChangedTouches_dispatched clearChangedTouches_active
  clearChangedTouches_byTouch clearChangedTouches_console
  clearChangedTouches_length : frame.

Lemma gestureTarget_cache env touch w w' :
  cache w' = cache w → gestureTarget env touch w' = gestureTarget env touch w.
Proof.
  intros H. unfold gestureTarget, ResponderCache.findAncestor. by rewrite H.
Qed.

Lemma update_last f h G w :
  heap w = h ++ [G] →
  update (length h) f w = set_heap (λ _, h ++ [f G]) w.
Proof.
  intros H. destruct w; simpl in *. subst.
  unfold update, set_heap. simpl. f_equal.
  rewrite alter_app_r_alt by done. by rewrite Nat.sub_diag.
Qed.

Lemma forEach_singleton {A} (f : A → M unit) x w : forEach [x] f w = f x w.
Proof. simpl. unfold bind, ret. by destruct (f x w) as [[[]|e] w1]. Qed.

Lemma touchesChanged_unfold env type ne w :
  touchesChanged env type ne w
  = match forEach (TouchEvent.changedTouches ne) (rebuildChangedTouches env type)
            (clearChangedTouches w) with
    | (Ok _, w1) =>
        match (if isEndish type
               then forEach (TouchEvent.changedTouches ne) detachTouch
               else ret tt) w1 with
        | (Ok _, w2) =>
            changedGestureEvents type ne (length (activeGestures w2)) [] w2
        | (Throw e, w2) => (Throw e, w2)
        end
    | (Throw e, w1) => (Throw e, w1)
    end.
Proof. reflexivity. Qed.

Lemma attachGesture_fresh env touch w :
  gesturesByTarget w !! gestureTarget env touch w = None →
  attachGesture env touch w
  = (length (heap w),
     set_gesturesByTouch (insert (Touch.identifier touch) (length (heap w)))
       (set_gesturesByTarget (insert (gestureTarget env touch w) (length (heap w)))
          (set_activeGestures (λ l, l ++ [length (heap w)])
             (set_heap (λ h, h ++ [newGesture (gestureTarget env touch w)]) w)))).
Proof. intros H. unfold attachGesture. by rewrite H. Qed.

Lemma attachGesture_existing env touch w g :
  gesturesByTarget w !! gestureTarget env touch w = Some g →
  attachGesture env touch w
  = (g, set_gesturesByTouch (insert (Touch.identifier touch) g) w).
Proof. intros H. unfold attachGesture. by rewrite H. Qed.

Lemma rebuild_start env type touch w :
  isStartish type = true →
  rebuildChangedTouches env type touch w
  = let '(g, w1) := attachGesture env touch w in
    (Ok tt,
     update g (Gesture.set_touchMap (insert (Touch.identifier touch) touch))
       (update g (Gesture.set_changedTouches (λ l, l ++ [touch])) w1)).
Proof.
  intros Hs. unfold rebuildChangedTouches.
  rewrite Hs, (isStartish_not_isEndish _ Hs).
  by destruct (attachGesture env touch w).
Qed.

Lemma rebuild_end type env touch w g :
  isEndish type = true →
  gesturesByTouch w !! Touch.identifier touch = Some g →
  rebuildChangedTouches env type touch w
  = (Ok tt, update g (Gesture.set_changedTouches (λ l, l ++ [touch])) w).
Proof.
  intros He Hg. unfold rebuildChangedTouches.
  by rewrite He, (isEndish_not_isStartish _ He), Hg.
Qed.

Lemma detachTouch_tracked touch w g :
  gesturesByTouch w !! Touch.identifier touch = Some g →
  detachTouch touch w
  = (Ok tt, set_gesturesByTouch (delete (Touch.identifier touch))
              (update g (Gesture.set_touchMap (delete (Touch.identifier touch))) w)).
Proof. intros Hg. unfold detachTouch. by rewrite Hg. Qed.

(** A start-like batch of one touch whose target has no gesture yet. *)
Lemma touchesChanged_start_fresh env type ne touch w :
  isStartish type = true →
  TouchEvent.changedTouches ne = [touch] →
  creationOrdered w →
  gesturesByTarget w !! gestureTarget env touch w = None →
  let g := length (heap w) in
  let tgt := gestureTarget env touch w in
  let G := {| Gesture.target := tgt;
              Gesture.touchMap := {[Touch.identifier touch := touch]};
              Gesture.changedTouches := [touch];
              Gesture.touchHistory :=
                TouchHistory.recordTouchEvent type [touch] TouchHistory.new |} in
  let w1 :=
    set_heap (λ _, heap (clearChangedTouches w) ++ [G])
      (set_activeGestures (λ l, l ++ [g])
         (set_gesturesByTarget (insert tgt g)
            (set_gesturesByTouch (insert (Touch.identifier touch) g) w))) in
  touchesChanged env type ne w
  = (Ok [{| GestureEvent.target := tgt; GestureEvent.gesture := g;
            GestureEvent.touches := [touch];
            GestureEvent.responderIgnoreScroll :=
              TouchEvent.responderIgnoreScroll ne |}], w1).
Proof.
  intros Hs Hne Hw Hnone g tgt G w1.
  pose proof (isStartish_not_isEndish _ Hs) as He.
  rewrite touchesChanged_unfold, Hne, He, forEach_singleton, rebuild_start by done.
  rewrite attachGesture_fresh; last first.
  { rewrite (gestureTarget_cache env touch w) by apply clearChangedTouches_cache.
    by rewrite clearChangedTouches_byTarget. }
  rewrite (gestureTarget_cache env touch w) by apply clearChangedTouches_cache.
  fold tgt.
  rewrite (update_last (Gesture.set_changedTouches _)
             (heap (clearChangedTouches w)) (newGesture tgt)) by reflexivity.
  rewrite (update_last (Gesture.set_touchMap _)
             (heap (clearChangedTouches w)) _) by reflexivity.
  unfold ret.
  match goal with |- changedGestureEvents _ _ _ _ ?w2 = _ => set (w2' := w2) end.
  assert (Hlen : length (heap (clearChangedTouches w)) = g)
    by apply clearChangedTouches_length.
  assert (Hact : activeGestures w2' = activeGestures w ++ [g]).
  { unfold w2'. simpl. by rewrite clearChangedTouches_active, Hlen. }
  assert (Hdg : deref g w2'
    = {| Gesture.target := tgt; Gesture.touchMap := {[Touch.identifier touch := touch]};
         Gesture.changedTouches := [touch]; Gesture.touchHistory := TouchHistory.new |}).
  { unfold deref, w2'. simpl. rewrite <- Hlen.
    rewrite list_lookup_total_middle by done. reflexivity. }
  pose proof (creationOrdered_NoDup _ Hw) as Hnd0.
  destruct Hw as [Hsorted Hbound]. rewrite Forall_forall in Hbound.
  assert (Hnd : NoDup (activeGestures w ++ [g])).
  { apply NoDup_app. split_and!.
    - done.
    - intros x Hx ->%list_elem_of_singleton. specialize (Hbound _ Hx). unfold g in Hbound. lia.
    - apply NoDup_singleton. }
  rewrite (changedGestureEvents_last type ne w2' (activeGestures w) g); try done.
  - rewrite visitGesture_changed by (unfold hasChanged, changedOf; by rewrite Hdg).
    unfold removable. rewrite He. simpl.
    f_equal.
    + f_equal. unfold gestureEvent. rewrite recorded_deref.
      rewrite decide_True; last first.
      { unfold w2'. simpl. rewrite length_app. simpl. lia. }
      rewrite Hdg. simpl. by rewrite values_singleton.
    + unfold recorded, changedOf. rewrite Hdg. simpl.
      unfold w2'. rewrite <- Hlen.
      erewrite update_last; [|reflexivity]. unfold w1.
      apply World_eq; simpl; autorewrite with frame; reflexivity.
  - unfold hasChanged, changedOf. by rewrite Hdg.
  - intros g' Hg'. specialize (Hbound _ Hg').
    unfold hasChanged, changedOf, deref, w2'. simpl.
    rewrite lookup_total_app_l by (rewrite Hlen; done).
    apply (clearChangedTouches_unchanged w g' Hg').
Qed.

Lemma update_length g f w : length (heap (update g f w)) = length (heap w).
Proof. apply length_alter. Qed.
Hint Rewrite update_length : frame.

Lemma filter_hasChanged_single w (l : list nat) g :
  NoDup l → g ∈ l → hasChanged w g →
  (∀ g', g' ∈ l → g' ≠ g → ¬ hasChanged w g') →
  filter (hasChanged w) l = [g].
Proof.
  intros Hnd Hg Hc Hothers.
  apply list_elem_of_lookup in Hg as [i Hi].
  rewrite <- (take_drop_middle _ _ _ Hi) in Hnd, Hothers |- *.
  apply NoDup_app in Hnd as (_ & Hn1 & Hn2).
  apply NoDup_cons in Hn2 as [Hn2 _].
  rewrite filter_app, filter_cons_True by done.
  rewrite !filter_hasChanged_nil; [done| |].
  - intros g' Hg'. apply Hothers; [|by intros ->].
    apply elem_of_app. right. by right.
  - intros g' Hg'. apply Hothers.
    + apply elem_of_app. by left.
    + intros ->. apply (Hn1 g Hg'). by left.
Qed.

(** When one gesture only has changed touches, the last loop is one visit. *)
Lemma changedGestureEvents_single type ne w g :
  NoDup (activeGestures w) → g ∈ activeGestures w →
  hasChanged w g → (∀ g', g' ∈ activeGestures w → g' ≠ g → ¬ hasChanged w g') →
  changedGestureEvents type ne (length (activeGestures w)) [] w
  = let r := visitGesture type ne g [] w in (Ok r.1, r.2).
Proof.
  intros Hnd Hg Hc Hothers.
  rewrite changedGestureEvents_visits by done.
  by rewrite firstn_all, (filter_hasChanged_single w _ g).
Qed.

(** An end-like batch of one tracked touch. *)
Lemma touchesChanged_end_single env type ne touch w g :
  isEndish type = true →
  TouchEvent.changedTouches ne = [touch] →
  creationOrdered w →
  g ∈ activeGestures w →
  gesturesByTouch w !! Touch.identifier touch = Some g →
  ∃ event w',
    touchesChanged env type ne w = (Ok [event], w')
    ∧ GestureEvent.gesture event = g
    ∧ (TouchHistory.numberActiveTouches
         (TouchHistory.recordTouchEvent type [touch]
            (Gesture.touchHistory (deref g w))) = 0%Z →
       (∀ g', g' ∈ activeGestures w' ↔ g' ∈ activeGestures w ∧ g' ≠ g)
       ∧ gesturesByTarget w'
         = delete (Gesture.target (deref g w)) (gesturesByTarget w)
       ∧ gesturesByTouch w' = delete (Touch.identifier touch) (gesturesByTouch w)).
Proof.
  intros He Hne Hw Hg Hid.
  pose proof (creationOrdered_NoDup _ Hw) as Hnd.
  assert (Hlt : g < length (heap w)).
  { destruct Hw as [_ Hb]. rewrite Forall_forall in Hb. auto. }
  rewrite touchesChanged_unfold, Hne, He, forEach_singleton.
  rewrite (rebuild_end type env touch _ g) by (by autorewrite with frame).
  cbv beta iota. rewrite forEach_singleton.
  rewrite (detachTouch_tracked touch _ g) by (simpl; by autorewrite with frame).
  cbv beta iota.
  match goal with |- context [changedGestureEvents _ _ _ _ ?x] => set (w2 := x) end.
  assert (Hact : activeGestures w2 = activeGestures w)
    by (unfold w2; simpl; by autorewrite with frame).
  assert (Hd : ∀ g', deref g' w2
    = if decide (g' = g)
      then Gesture.set_touchMap (delete (Touch.identifier touch))
             (Gesture.set_changedTouches (λ _, [touch]) (deref g w))
      else if decide (g' ∈ activeGestures w) then cleared (deref g' w) else deref g' w).
  { intros g'. unfold w2.
    change (deref g' (set_gesturesByTouch ?f ?w)) with (deref g' w).
    rewrite !deref_update, !update_length, clearChangedTouches_length.
    rewrite clearChangedTouches_deref.
    destruct (decide (g' = g)) as [->|Hne'].
    - rewrite !decide_True by done. reflexivity.
    - by rewrite !decide_False by (by intros [? _]). }
  assert (Hcg : hasChanged w2 g).
  { unfold hasChanged, changedOf. rewrite Hd, decide_True by done. done. }
  rewrite (changedGestureEvents_single type ne w2 g); try (by rewrite ?Hact).
  2:{ rewrite Hact. intros g' Hg' Hne'. unfold hasChanged, changedOf.
      rewrite Hd, decide_False, decide_True by done. by intros []. }
  exists (gestureEvent ne g (recorded type w2 g)), (visitGesture type ne g [] w2).2.
  split; [by rewrite visitGesture_changed|]. split; [reflexivity|].
  intros Hzero.
  assert (Hr : removable type w2 g = true).
  { unfold removable. rewrite He. simpl. apply bool_decide_eq_true.
    rewrite recorded_deref, decide_True; last first.
    { unfold w2. simpl. by rewrite !length_alter, clearChangedTouches_length. }
    unfold changedOf. rewrite Hd, decide_True by done. done. }
  destruct (visitGesture_state type ne g [] w2) as (Ha & _ & Hd' & _ & Ht & Hb);
    [by rewrite Hact|by rewrite Hact|done|].
  rewrite Hr in Ha, Ht.
  split_and!.
  - intros g'. rewrite Ha, Hact. split; [intros [? Hn]|intros [? ?]]; (split; [done|]).
    + intros ->. by apply Hn.
    + by intros [? _].
  - rewrite Ht, Hd, decide_True by done. simpl.
    unfold w2. simpl. by autorewrite with frame.
  - rewrite Hb. unfold w2. simpl. by autorewrite with frame.
Qed.

(** ** [creationOrdered] is an invariant of the batch processor *)

Lemma StronglySorted_sublist_lt (l l' : list nat) :
  l' `sublist_of` l → StronglySorted lt l → StronglySorted lt l'.
Proof.
  induction 1 as [|x l1 l2 Hsub IH|x l1 l2 Hsub IH]; intros Hs; [done|..].
  - apply StronglySorted_cons in Hs as [Hx Hs]. constructor; [auto|].
    apply Forall_forall. intros y Hy. rewrite Forall_forall in Hx.
    apply Hx. by eapply elem_of_sublist.
  - apply StronglySorted_cons in Hs as [_ Hs]. auto.
Qed.

Lemma splice1_sublist o l : splice1 o l `sublist_of` l.
Proof. destruct o; simpl; [apply sublist_delete|apply sublist_take]. Qed.

Lemma creationOrdered_removeGesture g w :
  creationOrdered w → creationOrdered (removeGesture g w).
Proof.
  intros [Hs Hb]. split.
  - rewrite removeGesture_active.
    eapply StronglySorted_sublist_lt; [apply splice1_sublist|done].
  - rewrite removeGesture_active.
    change (heap (removeGesture g w)) with (heap w).
    apply Forall_forall. intros x Hx. rewrite Forall_forall in Hb.
    apply Hb. eapply elem_of_sublist; [done|apply splice1_sublist].
Qed.

Lemma creationOrdered_visit type ne g events w :
  creationOrdered w → creationOrdered (visitGesture type ne g events w).2.
Proof.
  intros Hw. unfold visitGesture.
  destruct (Gesture.changedTouches (deref g w)); [done|].
  simpl. case_match.
  - by apply creationOrdered_removeGesture, creationOrdered_update.
  - by apply creationOrdered_update.
Qed.

Lemma creationOrdered_loop type ne n :
  ∀ events w, creationOrdered w →
    creationOrdered (changedGestureEvents type ne n events w).2.
Proof.
  induction n as [|i IH]; intros events w Hw; simpl; [done|].
  destruct (activeGestures w !! i) as [g|]; [|done].
  pose proof (creationOrdered_visit type ne g events w Hw) as H.
  destruct (visitGesture _ _ _ _ _) as [events1 w1]. by apply IH.
Qed.

Lemma creationOrdered_touchesChanged env type ne w :
  creationOrdered w → creationOrdered (touchesChanged env type ne w).2.
Proof.
  intros Hw. rewrite touchesChanged_unfold.
  pose proof (forEach_preserves creationOrdered
    (rebuildChangedTouches env type) (TouchEvent.changedTouches ne) _
    (creationOrdered_rebuild env type) (creationOrdered_clear w Hw)) as H1.
  destruct (forEach _ _ _) as [[[]|e] w1]; [|done]. simpl in H1.
  destruct (isEndish type).
  - pose proof (forEach_preserves creationOrdered detachTouch
      (TouchEvent.changedTouches ne) w1 creationOrdered_detach H1) as H2.
    destruct (forEach _ detachTouch w1) as [[[]|e] w2]; [|done].
    by apply creationOrdered_loop.
  - by apply creationOrdered_loop.
Qed.

Lemma TouchHistory_start_end startType endType touch touch' :
  isStartish startType = true → isEndish endType = true →
  Touch.identifier touch' = Touch.identifier touch →
  TouchHistory.numberActiveTouches
    (TouchHistory.recordTouchEvent endType [touch']
       (TouchHistory.recordTouchEvent startType [touch] TouchHistory.new)) = 0%Z.
Proof.
  intros Hs He Hid. unfold TouchHistory.numberActiveTouches, TouchHistory.recordTouchEvent.
  simpl. rewrite Hs, He, (isEndish_not_isStartish _ He), Hid.
  rewrite (right_id_L ∅ (∪)), (left_id_L ∅ (∪)), difference_diag_L.
  by rewrite size_empty.
Qed.

Lemma start_then_end env startType endType ne1 ne2 touch touch' w :
  isStartish startType = true → isEndish endType = true →
  TouchEvent.changedTouches ne1 = [touch] →
  TouchEvent.changedTouches ne2 = [touch'] →
  Touch.identifier touch' = Touch.identifier touch →
  creationOrdered w → refsBelow w →
  gesturesByTarget w !! gestureTarget env touch w = None →
  ∃ g event1 w1 event2 w2,
    touchesChanged env startType ne1 w = (Ok [event1], w1)
    ∧ touchesChanged env endType ne2 w1 = (Ok [event2], w2)
    ∧ GestureEvent.gesture event1 = g ∧ GestureEvent.gesture event2 = g
    ∧ g ∈ activeGestures w1
    ∧ gesturesByTarget w1 !! gestureTarget env touch w = Some g
    ∧ gesturesByTouch w1 !! Touch.identifier touch = Some g
    ∧ (g ∉ activeGestures w2)
    ∧ gesturesByTarget w2 !! gestureTarget env touch w = None
    ∧ (∀ identifier, gesturesByTouch w2 !! identifier ≠ Some g).
Proof.
  intros Hs He Hne1 Hne2 Hid Hw Hrefs Hnone.
  pose proof (touchesChanged_start_fresh env startType ne1 touch w Hs Hne1 Hw Hnone) as H1.
  simpl in H1.
  set (g := length (heap w)) in *.
  match type of H1 with _ = (Ok [?e], ?x) => set (event1 := e) in *; set (w1 := x) in * end.
  assert (Hw1 : creationOrdered w1).
  { replace w1 with (touchesChanged env startType ne1 w).2 by (by rewrite H1).
    by apply creationOrdered_touchesChanged. }
  assert (Hg1 : g ∈ activeGestures w1).
  { unfold w1. simpl. apply elem_of_app. right. by left. }
  assert (Hb1 : gesturesByTouch w1 !! Touch.identifier touch' = Some g).
  { unfold w1. simpl. rewrite Hid. apply lookup_insert_eq. }
  destruct (touchesChanged_end_single env endType ne2 touch' w1 g He Hne2 Hw1 Hg1 Hb1)
    as (event2 & w2 & H2 & Hg2 & Hrem).
  exists g, event1, w1, event2, w2.
  assert (Hdg : deref g w1
    = {| Gesture.target := gestureTarget env touch w;
         Gesture.touchMap := {[Touch.identifier touch := touch]};
         Gesture.changedTouches := [touch];
         Gesture.touchHistory :=
           TouchHistory.recordTouchEvent startType [touch] TouchHistory.new |}).
  { unfold deref, w1, g. simpl. rewrite <- (clearChangedTouches_length w).
    by rewrite list_lookup_total_middle. }
  destruct Hrem as (Ha & Ht & Hb).
  { rewrite Hdg. simpl. by apply TouchHistory_start_end. }
  split_and!; try done.
  - unfold w1. simpl. apply lookup_insert_eq.
  - rewrite <- Hid. done.
  - rewrite Ha. by intros [_ ?].
  - rewrite Ht, Hdg. simpl. apply lookup_delete_eq.
  - intros i. rewrite Hb. unfold w1. simpl. rewrite Hid.
    rewrite delete_insert_eq. intros Hi.
    apply lookup_delete_Some in Hi as [_ Hi].
    apply Hrefs in Hi. unfold g in Hi. lia.
Qed.

(** A start-like batch of one touch whose target has a gesture already. *)
Lemma touchesChanged_start_existing env type ne touch w g :
  isStartish type = true →
  TouchEvent.changedTouches ne = [touch] →
  creationOrdered w →
  gesturesByTarget w !! gestureTarget env touch w = Some g →
  g ∈ activeGestures w →
  let G := deref g w in
  let touchMap' := <[Touch.identifier touch := touch]> (Gesture.touchMap G) in
  let w1 :=
    recorded type
      (update g (Gesture.set_touchMap (insert (Touch.identifier touch) touch))
         (update g (Gesture.set_changedTouches (λ l, l ++ [touch]))
            (set_gesturesByTouch (insert (Touch.identifier touch) g)
               (clearChangedTouches w)))) g in
  touchesChanged env type ne w
  = (Ok [{| GestureEvent.target := Gesture.target G; GestureEvent.gesture := g;
            GestureEvent.touches := values touchMap';
            GestureEvent.responderIgnoreScroll :=
              TouchEvent.responderIgnoreScroll ne |}], w1)
  ∧ changedOf w1 g = [touch].
Proof.
  intros Hs Hne Hw Hsome Hg G touchMap' w1.
  pose proof (isStartish_not_isEndish _ Hs) as He.
  pose proof (creationOrdered_NoDup _ Hw) as Hnd.
  assert (Hlt : g < length (heap w)).
  { destruct Hw as [_ Hb]. rewrite Forall_forall in Hb. auto. }
  rewrite touchesChanged_unfold, Hne, He, forEach_singleton, rebuild_start by done.
  rewrite (attachGesture_existing env touch _ g); last first.
  { rewrite (gestureTarget_cache env touch w) by apply clearChangedTouches_cache.
    by rewrite clearChangedTouches_byTarget. }
  unfold ret.
  match goal with |- context [changedGestureEvents _ _ _ _ ?x] => set (w2 := x) end.
  assert (Hact : activeGestures w2 = activeGestures w)
    by (unfold w2; simpl; by autorewrite with frame).
  assert (Hd : ∀ g', deref g' w2
    = if decide (g' = g)
      then Gesture.set_touchMap (insert (Touch.identifier touch) touch)
             (Gesture.set_changedTouches (λ _, [touch]) (deref g w))
      else if decide (g' ∈ activeGestures w) then cleared (deref g' w) else deref g' w).
  { intros g'. unfold w2. rewrite !deref_update, !update_length.
    change (deref g' (set_gesturesByTouch ?f ?x)) with (deref g' x).
    change (length (heap (set_gesturesByTouch ?f ?x))) with (length (heap x)).
    rewrite clearChangedTouches_length, !clearChangedTouches_deref.
    destruct (decide (g' = g)) as [->|Hne'].
    - rewrite !decide_True by done. reflexivity.
    - by rewrite !decide_False by (by intros [? _]). }
  assert (Hcg : hasChanged w2 g).
  { unfold hasChanged, changedOf. rewrite Hd, decide_True by done. done. }
  rewrite (changedGestureEvents_single type ne w2 g); try (by rewrite ?Hact).
  2:{ rewrite Hact. intros g' Hg' Hne'. unfold hasChanged, changedOf.
      rewrite Hd, decide_False, decide_True by done. by intros []. }
  rewrite visitGesture_changed by done. cbn [fst snd].
  unfold removable. rewrite He. cbn [andb].
  assert (Hlt2 : g < length (heap w2)).
  { unfold w2. rewrite !update_length. simpl. by rewrite clearChangedTouches_length. }
  split.
  - f_equal. f_equal. unfold gestureEvent. rewrite recorded_deref, decide_True by done.
    rewrite Hd, decide_True by done. reflexivity.
  - unfold w1. fold w2. unfold changedOf at 1.
    rewrite recorded_deref, decide_True by done.
    rewrite Hd, decide_True by done. reflexivity.
Qed.

(** A start-like batch of one touch: one gesture has changed. *)
Lemma touchesChanged_start_single env type ne touch w :
  isStartish type = true →
  TouchEvent.changedTouches ne = [touch] →
  creationOrdered w → targetIndexed w →
  ∃ event w1,
    touchesChanged env type ne w = (Ok [event], w1)
    ∧ GestureEvent.target event = gestureTarget env touch w
    ∧ GestureEvent.touches event
      = values
          (<[Touch.identifier touch := touch]>
             (Gesture.touchMap (deref (GestureEvent.gesture event) w)))
    ∧ changedOf w1 (GestureEvent.gesture event) = [touch]
    ∧ observed w1 = observed w.
Proof.
  intros Hs Hne Hw Hidx.
  destruct (gesturesByTarget w !! gestureTarget env touch w) as [g|] eqn:Hg.
  - destruct (Hidx _ _ Hg) as [Hact Htgt].
    destruct (touchesChanged_start_existing env type ne touch w g Hs Hne Hw Hg Hact)
      as [-> Hc].
    eexists _, _. split; [reflexivity|]. cbn [GestureEvent.target GestureEvent.gesture
      GestureEvent.touches].
    split_and!; try done.
    unfold observed, recorded. simpl. by autorewrite with frame.
  - rewrite (touchesChanged_start_fresh env type ne touch w Hs Hne Hw Hg).
    eexists _, _. split; [reflexivity|]. cbn [GestureEvent.target GestureEvent.gesture
      GestureEvent.touches].
    split_and!; try done.
    + unfold deref. rewrite list_lookup_total_alt, lookup_ge_None_2 by done.
      simpl. by rewrite insert_empty, values_singleton.
    + unfold changedOf, deref. simpl.
      rewrite <- (clearChangedTouches_length w).
      by rewrite list_lookup_total_middle.
Qed.

(** * The negotiation *)


Lemma stopAtTrue_spec ds w :
  stopAtTrue ds w = (firstTrue ds, set_dispatched (λ l, l ++ calledUntilTrue ds) w).
Proof.
  revert w. induction ds as [|d ds IH]; intros w; simpl.
  - f_equal. apply World_eq; simpl; try done. by rewrite app_nil_r.
  - destruct (truthy (listenerResult d)).
    + done.
    + rewrite IH. f_equal. apply World_eq; simpl; try done.
      by rewrite <- (assoc_L (++)).
Qed.

Lemma shouldSetEventType_phased type :
  ∃ bubbled captured,
    eventTypes (shouldSetEventType type) = phasedRegistrationNames bubbled captured
    ∧ bubbled ≠ "onResponderTerminationRequest"
    ∧ captured ≠ "onResponderTerminationRequest".
Proof.
  unfold shouldSetEventType. repeat case_match; simpl; eexists _, _; done.
Qed.

Lemma vote_dispatches env type currentInst voteTarget ne :
  dispatches
    (match currentInst with
     | Some _ => EventPropagators.accumulateTwoPhaseDispatchesSkipTarget env
                   (createEvent (shouldSetEventType type) (Some voteTarget) ne)
     | None => EventPropagators.accumulateTwoPhaseDispatches env
                 (createEvent (shouldSetEventType type) (Some voteTarget) ne)
     end)
  = voteDispatches env type currentInst voteTarget.
Proof.
  unfold voteDispatches, EventPropagators.accumulateTwoPhaseDispatchesSkipTarget,
    EventPropagators.accumulateTwoPhaseDispatches, EventPropagators.traverseTwoPhase.
  destruct (shouldSetEventType_phased type) as (b & c & E & _).
  destruct currentInst; cbn -[eventTypes shouldSetEventType listenerOf]; rewrite ?E.
  - destruct (getParentInstance voteTarget);
      cbn -[eventTypes shouldSetEventType listenerOf]; done.
  - done.
Qed.

(** What [targetChanged] leaves alone. *)
Lemma targetChanged_cache type o n w : cache (targetChanged type o n w) = cache w.
Proof. unfold targetChanged. by repeat case_match. Qed.
Lemma targetChanged_responderChanges type o n w :
  responderChanges (targetChanged type o n w) = responderChanges w.
Proof. unfold targetChanged. by repeat case_match. Qed.
Lemma targetChanged_dispatched type o n w :
  dispatched (targetChanged type o n w) = dispatched w.
Proof. unfold targetChanged. by repeat case_match. Qed.
Lemma targetChanged_trackedTouchCount type o n w :
  trackedTouchCount (targetChanged type o n w) = trackedTouchCount w.
Proof. unfold targetChanged. by repeat case_match. Qed.
Lemma targetChanged_previousActiveTouches type o n w :
  previousActiveTouches (targetChanged type o n w) = previousActiveTouches w.
Proof. unfold targetChanged. by repeat case_match. Qed.
Lemma targetChanged_interactionChanges type o n w :
  interactionChanges (targetChanged type o n w) = interactionChanges w.
Proof. unfold targetChanged. by repeat case_match. Qed.
Hint Rewrite targetChanged_cache targetChanged_responderChanges
  targetChanged_dispatched targetChanged_trackedTouchCount
  targetChanged_previousActiveTouches targetChanged_interactionChanges : frame.

Lemma directDispatch_listener env kind name inst ne result :
  eventTypes kind = directRegistrationName name →
  getListener env inst name = Some result →
  EventPropagators.accumulateDirectDispatches env (createEvent kind (Some inst) ne)
  = mkEvent kind (Some inst) ne [mkDispatch inst name result].
Proof.
  intros Hname Hl. unfold EventPropagators.accumulateDirectDispatches, createEvent.
  cbn [targetInst eventType]. rewrite Hname. unfold listenerOf. by rewrite Hl.
Qed.

Lemma directDispatch_no_listener env kind name inst ne :
  eventTypes kind = directRegistrationName name →
  getListener env inst name = None →
  EventPropagators.accumulateDirectDispatches env (createEvent kind (Some inst) ne)
  = mkEvent kind (Some inst) ne [].
Proof.
  intros Hname Hl. unfold EventPropagators.accumulateDirectDispatches, createEvent.
  cbn [targetInst eventType]. rewrite Hname. unfold listenerOf. by rewrite Hl.
Qed.

Lemma retarget_current topLevelType (targetInst current : Inst) w :
  (if decide (current ≠ targetInst)
   then (current, targetChanged topLevelType targetInst current w)
   else (targetInst, w))
  = (current, retargeted topLevelType targetInst current w).
Proof.
  unfold retargeted. case_decide as Hd; [done|]. f_equal.
  by destruct (decide (current = targetInst)).
Qed.

Lemma termination_refused_run
    env topLevelType targetInst nativeEvent w current next result :
  ResponderCache.findAncestor env (ResponderCache.InstTarget (Some targetInst)) w
    = Some current →
  firstTrue (voteDispatches env topLevelType (Some current) current) = Some next →
  getListener env current "onResponderTerminationRequest" = Some result →
  truthy result = false →
  setResponderAndExtractTransfer env topLevelType targetInst nativeEvent w
  = (Some [rejectEvent env next nativeEvent],
     call (mkDispatch current "onResponderTerminationRequest" result)
       (set_dispatched
          (λ l, l ++ calledUntilTrue
                       (voteDispatches env topLevelType (Some current) current))
          (retargeted topLevelType targetInst current w))).
Proof.
  intros Hcur Hvote Hlistener Hfalse. unfold setResponderAndExtractTransfer.
  rewrite Hcur, retarget_current.
  unfold executeDispatchesInOrderStopAtTrue.
  rewrite (vote_dispatches env topLevelType (Some current) current nativeEvent).
  rewrite stopAtTrue_spec, Hvote.
  rewrite (directDispatch_listener env responderTerminationRequest _ current _ result)
    by done.
  cbn -[call]. by rewrite Hfalse.
Qed.

(** C6.  When the responder [current] answers the termination request
    with a value that is not truthy, [setResponderAndExtractTransfer]
    returns one event, the [responderReject] for the candidate [next].
    The registry is as before, the observer has not been called, and the
    only listeners called are those of the vote and the termination
    request: nothing is released, granted or terminated. *)
Theorem termination_refused env topLevelType targetInst nativeEvent w current next result :
  ResponderCache.findAncestor env (ResponderCache.InstTarget (Some targetInst)) w
    = Some current →
  firstTrue (voteDispatches env topLevelType (Some current) current) = Some next →
  getListener env current "onResponderTerminationRequest" = Some result →
  truthy result = false →
  let r := setResponderAndExtractTransfer env topLevelType targetInst nativeEvent w in
  r.1 = Some [rejectEvent env next nativeEvent]
  ∧ cache r.2 = cache w
  ∧ responderChanges r.2 = responderChanges w
  ∧ dispatched r.2
    = dispatched w
      ++ calledUntilTrue (voteDispatches env topLevelType (Some current) current)
      ++ [mkDispatch current "onResponderTerminationRequest" result].
Proof.
  intros Hcur Hvote Hlistener Hfalse r. unfold r.
  rewrite (termination_refused_run _ _ _ _ _ _ _ _ Hcur Hvote Hlistener Hfalse).
  unfold retargeted. simpl.
  split_and!; [done|..]; case_decide; autorewrite with frame;
    rewrite <- ?(assoc_L (++)); done.
Qed.

Lemma executeDirectDispatch_spec env kind name inst ne w :
  eventTypes kind = directRegistrationName name →
  executeDirectDispatch
    (EventPropagators.accumulateDirectDispatches env (createEvent kind (Some inst) ne)) w
  = (default JUndefined (getListener env inst name),
     set_dispatched (λ l, l ++ listenerOf env name inst) w).
Proof.
  intros Hname. destruct (getListener env inst name) as [result|] eqn:Hl.
  - rewrite (directDispatch_listener env kind name inst ne result) by done.
    unfold listenerOf. by rewrite Hl.
  - rewrite (directDispatch_no_listener env kind name inst ne) by done.
    unfold listenerOf. rewrite Hl. simpl. f_equal.
    apply World_eq; simpl; try done. by rewrite app_nil_r.
Qed.

Lemma dispatch_if_listener env kind name inst ne w :
  eventTypes kind = directRegistrationName name →
  (let event := EventPropagators.accumulateDirectDispatches env
                  (createEvent kind (Some inst) ne) in
   if hasDispatches event then (executeDirectDispatch event w).2 else w)
  = set_dispatched (λ l, l ++ listenerOf env name inst) w.
Proof.
  intros Hname. cbv zeta. rewrite (executeDirectDispatch_spec env kind name) by done.
  destruct (getListener env inst name) as [result|] eqn:Hl.
  - by rewrite (directDispatch_listener env kind name inst ne result) by done.
  - rewrite (directDispatch_no_listener env kind name inst ne) by done.
    unfold listenerOf. rewrite Hl. simpl.
    apply World_eq; simpl; try done. by rewrite app_nil_r.
Qed.

Lemma targetChanged_observed type o n w :
  observed (targetChanged type o n w) = observed w.
Proof. unfold observed. by autorewrite with frame. Qed.

Lemma approvedTransfer_observed env type current next ne w :
  next ≠ current →
  let r := approvedTransfer env type current next ne w in
  r.1 = Some [GesturePropagators.accumulateDescendantDispatches env current next
                (createEvent gestureEnd (Some next) ne)]
  ∧ observed r.2
    = (<[getTagFromInstance next := next]>
         (delete (getTagFromInstance current) (cache w)),
       responderChanges w
         ++ [mkChange (Some current) None None;
             mkChange None (Some next)
               (Some (strictlyTrue
                        (default JUndefined (getListener env next "onResponderGrant"))))],
       dispatched w
         ++ listenerOf env "onResponderTerminate" current
         ++ listenerOf env "onResponderGrant" next,
       trackedTouchCount w, previousActiveTouches w, interactionChanges w).
Proof.
  intros Hne. unfold approvedTransfer.
  rewrite (dispatch_if_listener env responderTerminate "onResponderTerminate") by done.
  unfold grantResponder. rewrite decide_True by done.
  rewrite (executeDirectDispatch_spec env responderGrant "onResponderGrant") by done.
  cbn [fst snd]. split; [done|].
  unfold observed. cbn -[listenerOf]. autorewrite with frame. cbn -[listenerOf].
  by rewrite <- !(assoc_L (++)).
Qed.

Lemma observed_inv w c r d t p i :
  observed w = (c, r, d, t, p, i) →
  cache w = c ∧ responderChanges w = r ∧ dispatched w = d
  ∧ trackedTouchCount w = t ∧ previousActiveTouches w = p
  ∧ interactionChanges w = i.
Proof. unfold observed. intros [= <- <- <- <- <- <-]. done. Qed.

(** ** A termination request without a listener *)

Lemma listenerOf_withListener env inst name result n i :
  n ≠ name →
  listenerOf (withListener env inst name result) n i = listenerOf env n i.
Proof.
  intros Hne. unfold listenerOf, withListener. simpl.
  rewrite decide_False; [done|]. by intros [_ ?].
Qed.

Lemma bind_listenerOf_withListener env inst name result n (l : list Inst) :
  n ≠ name →
  l ≫= listenerOf (withListener env inst name result) n = l ≫= listenerOf env n.
Proof.
  intros Hne. induction l as [|i l IH]; [done|].
  rewrite !bind_cons, IH. by rewrite listenerOf_withListener.
Qed.

Lemma voteDispatches_withListener env inst result type currentInst voteTarget :
  voteDispatches (withListener env inst "onResponderTerminationRequest" result)
    type currentInst voteTarget
  = voteDispatches env type currentInst voteTarget.
Proof.
  unfold voteDispatches.
  destruct (shouldSetEventType_phased type) as (b & c & -> & Hb & Hc).
  by rewrite !bind_listenerOf_withListener.
Qed.

Lemma accumulateDirectDispatches_withListener env inst result kind target ne :
  kind ≠ responderTerminationRequest →
  EventPropagators.accumulateDirectDispatches
    (withListener env inst "onResponderTerminationRequest" result)
    (createEvent kind target ne)
  = EventPropagators.accumulateDirectDispatches env (createEvent kind target ne).
Proof.
  intros Hk. unfold EventPropagators.accumulateDirectDispatches, createEvent.
  cbn [targetInst eventType]. destruct target as [i|]; [|done].
  destruct kind; simpl; try done; by rewrite listenerOf_withListener.
Qed.

Lemma accumulateDispatch_withListener env inst result i (event : SyntheticEvent) :
  eventType event = gestureEnd →
  GesturePropagators.accumulateDispatch
    (withListener env inst "onResponderTerminationRequest" result) i event
  = GesturePropagators.accumulateDispatch env i event
  ∧ eventType (GesturePropagators.accumulateDispatch env i event) = gestureEnd.
Proof.
  intros E. unfold GesturePropagators.accumulateDispatch. rewrite E. simpl.
  by rewrite listenerOf_withListener.
Qed.

Lemma accumulateDescendantDispatches_withListener env inst result deepest target ne :
  GesturePropagators.accumulateDescendantDispatches
    (withListener env inst "onResponderTerminationRequest" result)
    deepest target (createEvent gestureEnd (Some target) ne)
  = GesturePropagators.accumulateDescendantDispatches env
      deepest target (createEvent gestureEnd (Some target) ne).
Proof.
  unfold GesturePropagators.accumulateDescendantDispatches.
  assert (E : eventType (createEvent gestureEnd (Some target) ne) = gestureEnd) by done.
  revert E. generalize (createEvent gestureEnd (Some target) ne) as event.
  generalize (GesturePropagators.descendantsBelow target deepest) as l.
  intros l. induction l as [|i l IH]; intros event E; [done|]. simpl.
  destruct (accumulateDispatch_withListener env inst result i event E) as [-> E'].
  by apply IH.
Qed.

Lemma forget_call d w : forget (call d w) = forget w.
Proof. reflexivity. Qed.

Lemma forget_targetChanged type o n w :
  forget (targetChanged type o n w) = targetChanged type o n (forget w).
Proof. unfold targetChanged. simpl. by repeat case_match. Qed.

Lemma forget_release inst w :
  forget (ResponderCache.release inst w) = ResponderCache.release inst (forget w).
Proof. reflexivity. Qed.

Lemma forget_grant inst block w :
  forget (ResponderCache.grant inst block w) = ResponderCache.grant inst block (forget w).
Proof. reflexivity. Qed.

Lemma executeDirectDispatch_forget event w :
  (executeDirectDispatch event w).1 = (executeDirectDispatch event (forget w)).1
  ∧ forget (executeDirectDispatch event w).2 = forget w.
Proof. unfold executeDirectDispatch. by destruct (dispatches event). Qed.

Lemma grantResponder_forget env type targetInst next ne w w' :
  forget w = forget w' →
  (grantResponder env type targetInst next ne w).1
  = (grantResponder env type targetInst next ne w').1
  ∧ forget (grantResponder env type targetInst next ne w).2
    = forget (grantResponder env type targetInst next ne w').2.
Proof.
  intros Hw. unfold grantResponder.
  set (w1 := if decide (next ≠ targetInst) then targetChanged type targetInst next w else w).
  set (w1' := if decide (next ≠ targetInst) then targetChanged type targetInst next w' else w').
  assert (Hw1 : forget w1 = forget w1').
  { unfold w1, w1'. case_decide; [|done]. by rewrite !forget_targetChanged, Hw. }
  assert (E : ∀ x, (if decide (next ≠ targetInst)
     then (accumulate None
             [GesturePropagators.accumulateDescendantDispatches env targetInst next
                (createEvent gestureEnd (Some next) ne)],
           targetChanged type targetInst next x)
     else (None, x))
    = ((if decide (next ≠ targetInst)
        then accumulate None
             [GesturePropagators.accumulateDescendantDispatches env targetInst next
                (createEvent gestureEnd (Some next) ne)]
        else None),
       if decide (next ≠ targetInst) then targetChanged type targetInst next x else x)).
  { intros x. by case_decide. }
  rewrite !E. fold w1 w1'. clear E.
  set (event := EventPropagators.accumulateDirectDispatches env _).
  destruct (executeDirectDispatch_forget event w1) as [E1 E2].
  destruct (executeDirectDispatch_forget event w1') as [E1' E2'].
  destruct (executeDirectDispatch event w1) as [v x] eqn:Ex.
  destruct (executeDirectDispatch event w1') as [v' x'] eqn:Ex'.
  simpl in *. rewrite Hw1 in E1. rewrite <- E1' in E1. subst v'.
  split; [done|]. rewrite !forget_grant. congruence.
Qed.

Lemma grantResponder_withListener env inst result type targetInst next ne w :
  grantResponder (withListener env inst "onResponderTerminationRequest" result)
    type targetInst next ne w
  = grantResponder env type targetInst next ne w.
Proof.
  unfold grantResponder.
  rewrite accumulateDescendantDispatches_withListener.
  by rewrite accumulateDirectDispatches_withListener.
Qed.

Lemma approvedTransfer_forget env type current next ne w w' :
  forget w = forget w' →
  (approvedTransfer env type current next ne w).1
  = (approvedTransfer env type current next ne w').1
  ∧ forget (approvedTransfer env type current next ne w).2
    = forget (approvedTransfer env type current next ne w').2.
Proof.
  intros Hw. unfold approvedTransfer. apply grantResponder_forget.
  set (event := EventPropagators.accumulateDirectDispatches env _).
  destruct (hasDispatches event).
  - destruct (executeDirectDispatch_forget event (ResponderCache.release current w)) as [_ ->].
    destruct (executeDirectDispatch_forget event (ResponderCache.release current w')) as [_ ->].
    by rewrite !forget_release, Hw.
  - by rewrite !forget_release, Hw.
Qed.

Lemma approvedTransfer_withListener env inst result type current next ne w :
  approvedTransfer (withListener env inst "onResponderTerminationRequest" result)
    type current next ne w
  = approvedTransfer env type current next ne w.
Proof.
  unfold approvedTransfer.
  rewrite grantResponder_withListener.
  by rewrite accumulateDirectDispatches_withListener.
Qed.

Lemma transfer_without_listener env topLevelType targetInst ne w current :
  ResponderCache.findAncestor env (ResponderCache.InstTarget (Some targetInst)) w
    = Some current →
  getListener env current "onResponderTerminationRequest" = None →
  setResponderAndExtractTransfer env topLevelType targetInst ne w
  = match firstTrue (voteDispatches env topLevelType (Some current) current) with
    | Some next =>
        approvedTransfer env topLevelType current next ne
          (voted env topLevelType targetInst current w)
    | None => (None, voted env topLevelType targetInst current w)
    end.
Proof.
  intros Hcur Hnone. unfold setResponderAndExtractTransfer.
  rewrite Hcur, retarget_current.
  unfold executeDispatchesInOrderStopAtTrue.
  rewrite (vote_dispatches env topLevelType (Some current) current ne).
  rewrite stopAtTrue_spec.
  destruct (firstTrue _) as [next|]; [|done].
  by rewrite (directDispatch_no_listener env responderTerminationRequest _ current) by done.
Qed.

Lemma transfer_approved env topLevelType targetInst ne w current result :
  ResponderCache.findAncestor env (ResponderCache.InstTarget (Some targetInst)) w
    = Some current →
  getListener env current "onResponderTerminationRequest" = Some result →
  truthy result = true →
  setResponderAndExtractTransfer env topLevelType targetInst ne w
  = match firstTrue (voteDispatches env topLevelType (Some current) current) with
    | Some next =>
        approvedTransfer env topLevelType current next ne
          (call (mkDispatch current "onResponderTerminationRequest" result)
             (voted env topLevelType targetInst current w))
    | None => (None, voted env topLevelType targetInst current w)
    end.
Proof.
  intros Hcur Hl Ht. unfold setResponderAndExtractTransfer.
  rewrite Hcur, retarget_current.
  unfold executeDispatchesInOrderStopAtTrue.
  rewrite (vote_dispatches env topLevelType (Some current) current ne).
  rewrite stopAtTrue_spec.
  destruct (firstTrue _) as [next|]; [|done].
  rewrite (directDispatch_listener env responderTerminationRequest _ current _ result)
    by done.
  cbn -[call]. by rewrite Ht.
Qed.

(** An instance is not among its own strict ancestors. *)
Lemma pathToRoot_length_le (inst ancestor : Inst) :
  ancestor ∈ pathToRoot inst →
  length (pathToRoot ancestor) ≤ length (pathToRoot inst).
Proof.
  induction inst as [tag|tag parent IH]; simpl.
  - intros ->%list_elem_of_singleton. done.
  - intros [->|H]%elem_of_cons; [done|]. specialize (IH H). lia.
Qed.

Lemma not_above_itself (inst : Inst) :
  inst ∉ GesturePropagators.instancesUpFrom (getParentInstance inst).
Proof.
  destruct inst as [tag|tag parent]; simpl.
  - apply not_elem_of_nil.
  - intros H%pathToRoot_length_le. simpl in H. lia.
Qed.

Lemma firstTrue_elem_of ds next :
  firstTrue ds = Some next → ∃ d, d ∈ ds ∧ dispatchInstance d = next.
Proof.
  induction ds as [|d ds IH]; simpl; [done|].
  destruct (truthy (listenerResult d)).
  - intros [= <-]. exists d. split; [left|done].
  - intros (d' & Hd & E)%IH. exists d'. split; [by right|done].
Qed.

Lemma listenerOf_instance env name inst d :
  d ∈ listenerOf env name inst → dispatchInstance d = inst.
Proof.
  unfold listenerOf. destruct (getListener env inst name); [|by intros ?%not_elem_of_nil].
  by intros ->%list_elem_of_singleton.
Qed.

Lemma bind_listenerOf_instance env name (l : list Inst) d :
  d ∈ l ≫= listenerOf env name → dispatchInstance d ∈ l.
Proof.
  rewrite list_elem_of_bind. intros (inst & Hd & Hinst).
  by rewrite (listenerOf_instance _ _ _ _ Hd).
Qed.

(** The listeners of a vote belong to the instances the vote visits: with
    a responder, its strict ancestors. *)
Lemma voteDispatches_instances env type currentInst voteTarget d :
  d ∈ voteDispatches env type currentInst voteTarget →
  dispatchInstance d
  ∈ match currentInst with
    | Some _ => GesturePropagators.instancesUpFrom (getParentInstance voteTarget)
    | None => pathToRoot voteTarget
    end.
Proof.
  unfold voteDispatches.
  destruct (eventTypes (shouldSetEventType type)); [|by intros ?%not_elem_of_nil].
  intros [H|H]%elem_of_app; apply bind_listenerOf_instance in H; [|done].
  apply list_elem_of_In, in_rev in H. by apply list_elem_of_In.
Qed.

Lemma vote_winner_above env type current next :
  firstTrue (voteDispatches env type (Some current) current) = Some next →
  next ∈ GesturePropagators.instancesUpFrom (getParentInstance current)
  ∧ next ≠ current.
Proof.
  intros (d & Hd & <-)%firstTrue_elem_of.
  apply voteDispatches_instances in Hd. split; [done|].
  intros E. rewrite E in Hd. by apply not_above_itself in Hd.
Qed.

Lemma voted_observed env type targetInst current w :
  observed (voted env type targetInst current w)
  = (cache w, responderChanges w,
     dispatched w ++ calledUntilTrue (voteDispatches env type (Some current) current),
     trackedTouchCount w, previousActiveTouches w, interactionChanges w).
Proof.
  unfold observed, voted, retargeted. simpl. case_decide; by autorewrite with frame.
Qed.

(** C8.  When the responder [current] has no listener for the
    termination request, [setResponderAndExtractTransfer] returns the same
    events and reaches the same state as with a listener that approves the
    request, the trace of the listeners called apart; and the two traces
    differ by the call of that listener only.  With a candidate [next],
    the responder is released, its [responderTerminate] listener is called,
    the [gestureEnd] for the instances from the responder up to the
    candidate is returned, the [responderGrant] listener of the candidate
    is called and the candidate is granted the status. *)
Theorem no_listener_is_approval env topLevelType targetInst nativeEvent w current :
  ResponderCache.findAncestor env (ResponderCache.InstTarget (Some targetInst)) w
    = Some current →
  getListener env current "onResponderTerminationRequest" = None →
  let approving :=
    withListener env current "onResponderTerminationRequest" (JBool true) in
  let r := setResponderAndExtractTransfer env topLevelType targetInst nativeEvent w in
  let r' :=
    setResponderAndExtractTransfer approving topLevelType targetInst nativeEvent w in
  let votes := voteDispatches env topLevelType (Some current) current in
  r.1 = r'.1
  ∧ forget r.2 = forget r'.2
  ∧ ∀ next,
      firstTrue votes = Some next →
      r.1 = Some [GesturePropagators.accumulateDescendantDispatches env current next
                    (createEvent gestureEnd (Some next) nativeEvent)]
      ∧ cache r.2
        = <[getTagFromInstance next := next]>
            (delete (getTagFromInstance current) (cache w))
      ∧ responderChanges r.2
        = responderChanges w
          ++ [mkChange (Some current) None None;
              mkChange None (Some next)
                (Some (strictlyTrue
                         (default JUndefined
                            (getListener env next "onResponderGrant"))))]
      ∧ dispatched r.2
        = dispatched w ++ calledUntilTrue votes
          ++ listenerOf env "onResponderTerminate" current
          ++ listenerOf env "onResponderGrant" next
      ∧ dispatched r'.2
        = dispatched w ++ calledUntilTrue votes
          ++ [mkDispatch current "onResponderTerminationRequest" (JBool true)]
          ++ listenerOf env "onResponderTerminate" current
          ++ listenerOf env "onResponderGrant" next.
Proof.
  intros Hcur Hnone approving r r' votes. unfold r, r'.
  rewrite (transfer_without_listener env _ _ _ _ _ Hcur Hnone).
  rewrite (transfer_approved approving _ _ _ _ current (JBool true)); [|done| |done].
  2:{ unfold approving, withListener. simpl. by rewrite decide_True. }
  unfold approving. rewrite voteDispatches_withListener.
  assert (Hv : voted (withListener env current "onResponderTerminationRequest" (JBool true))
                 topLevelType targetInst current w
               = voted env topLevelType targetInst current w).
  { unfold voted. by rewrite voteDispatches_withListener. }
  rewrite Hv. fold votes.
  destruct (firstTrue votes) as [next|] eqn:Hvote.
  - rewrite approvedTransfer_withListener.
    destruct (approvedTransfer_forget env topLevelType current next nativeEvent
      (voted env topLevelType targetInst current w)
      (call (mkDispatch current "onResponderTerminationRequest" (JBool true))
         (voted env topLevelType targetInst current w))) as [E1 E2]; [done|].
    split_and!; [done|done|].
    intros ? [= <-].
    destruct (vote_winner_above env topLevelType current next Hvote) as [_ Hne].
    pose proof (voted_observed env topLevelType targetInst current w) as Hobs.
    apply observed_inv in Hobs as (Hc & Hr & Hd & _).
    destruct (approvedTransfer_observed env topLevelType current next nativeEvent
                (voted env topLevelType targetInst current w) Hne) as [F1 F2].
    destruct (approvedTransfer_observed env topLevelType current next nativeEvent
                (call (mkDispatch current "onResponderTerminationRequest" (JBool true))
                   (voted env topLevelType targetInst current w)) Hne) as [_ F2'].
    apply observed_inv in F2 as (G1 & G2 & G3 & _).
    apply observed_inv in F2' as (_ & _ & G3' & _).
    rewrite F1, G1, G2, G3, G3', Hc, Hr. cbn [dispatched call set_dispatched].
    rewrite Hd. fold votes.
    split_and!; try done; by rewrite <- !(assoc_L (++)).
  - split_and!; [done|done|]. by intros.
Qed.

(** ** A transfer from a responder to one of its ancestors *)

Lemma executeDispatchesInOrder_spec event w :
  executeDispatchesInOrder event w = set_dispatched (λ l, l ++ dispatches event) w.
Proof.
  unfold executeDispatchesInOrder. generalize (dispatches event) as ds.
  intros ds. revert w. induction ds as [|d ds IH]; intros w; simpl.
  - apply World_eq; simpl; try done. by rewrite app_nil_r.
  - rewrite IH. apply World_eq; simpl; try done. by rewrite <- (assoc_L (++)).
Qed.

Lemma foldl_accumulateDispatch env name (l : list Inst) (event : SyntheticEvent) :
  eventTypes (eventType event) = directRegistrationName name →
  foldl (λ event inst, GesturePropagators.accumulateDispatch env inst event) event l
  = addDispatches (l ≫= listenerOf env name) event.
Proof.
  revert event. induction l as [|i l IH]; intros event E; simpl.
  - destruct event. unfold addDispatches. simpl. by rewrite app_nil_r.
  - rewrite IH.
    + unfold GesturePropagators.accumulateDispatch. rewrite E.
      unfold addDispatches. simpl. by rewrite <- (assoc_L (++)).
    + unfold GesturePropagators.accumulateDispatch. by rewrite E.
Qed.

Lemma accumulateStartDispatches_dispatches env inst ne :
  dispatches (GesturePropagators.accumulateStartDispatches env (Some inst)
                (createEvent gestureStart (Some inst) ne))
  = rev (pathToRoot inst) ≫= listenerOf env "onGestureStart".
Proof.
  unfold GesturePropagators.accumulateStartDispatches.
  by rewrite (foldl_accumulateDispatch env "onGestureStart").
Qed.

Lemma findAncestor_responder env inst w :
  is_Some (cache w !! getTagFromInstance inst) →
  ResponderCache.findAncestor env (ResponderCache.InstTarget (Some inst)) w = Some inst.
Proof.
  intros [x Hx]. unfold ResponderCache.findAncestor. simpl.
  destruct inst; simpl in *; by rewrite Hx.
Qed.

Lemma extractEvents_start env type targetInst ne w :
  isStartish type = true → is_Some (TouchEvent.touches ne) →
  extractEvents env type targetInst ne w
  = (let! events :=
       touchesChanged env type ne in
     λ w, let '(extracted, w) := forEachGesture env type events None w in
          (Ok extracted, reportInteraction env w))
      (set_trackedTouchCount
         (λ n, n + Z.of_nat (length (TouchEvent.changedTouches ne)))%Z w).
Proof.
  intros Hs [l Hl]. unfold extractEvents. by rewrite Hl, Hs.
Qed.

(** X22.  The child [T2] is the responder, a touch starts at
    [T2], the vote among the ancestors of [T2] is won by its parent [T1],
    and [T2] approves the termination request.  Then [extractEvents] calls
    the listeners of the vote, of the termination request, of
    [responderTerminate] at [T2] and of [responderGrant] at [T1], in this
    order, and returns the [gestureEnd] for the descendants of [T1] down
    to [T2] followed by the [responderStart] of [T1]; the tracked-touch
    count grows by one, the interaction observer is told once, and the
    registry holds [T1] in place of [T2].  The touches of the event are
    those that the gesture of [T2] had, with the touch that starts; a
    gesture that the batch creates had none. *)
Theorem transfer_to_ancestor
    env topLevelType targetInst nativeEvent touch w tag2 (T1 : Inst) result :
  let T2 := Child tag2 T1 in
  isStartish topLevelType = true →
  is_Some (TouchEvent.touches nativeEvent) →
  TouchEvent.changedTouches nativeEvent = [touch] →
  Touch.target touch = tag2 →
  getInstanceFromTag env tag2 = Some T2 →
  getTagFromInstance T1 ≠ tag2 →
  is_Some (cache w !! tag2) →
  firstTrue (voteDispatches env topLevelType (Some T2) T2) = Some T1 →
  getListener env T2 "onResponderTerminationRequest" = Some result →
  truthy result = true →
  creationOrdered w → targetIndexed w →
  GlobalInteractionHandler env = true →
  previousActiveTouches w = trackedTouchCount w →
  let r := extractEvents env topLevelType targetInst nativeEvent w in
  ∃ event,
    GestureEvent.target event = tag2
    ∧ GestureEvent.touches event
      = values
          (<[Touch.identifier touch := touch]>
             (Gesture.touchMap (deref (GestureEvent.gesture event) w)))
    ∧ r.1 = Ok (Some
        [GesturePropagators.accumulateDescendantDispatches env T2 T1
           (createEvent gestureEnd (Some T1) event);
         EventPropagators.accumulateDirectDispatches env
           (createEvent responderStart (Some T1) event)])
    ∧ dispatched r.2
      = dispatched w
        ++ (if bool_decide (length (GestureEvent.touches event) = 1)
            then rev (pathToRoot T2) ≫= listenerOf env "onGestureStart"
            else [])
        ++ calledUntilTrue (voteDispatches env topLevelType (Some T2) T2)
        ++ [mkDispatch T2 "onResponderTerminationRequest" result]
        ++ listenerOf env "onResponderTerminate" T2
        ++ listenerOf env "onResponderGrant" T1
    ∧ trackedTouchCount r.2 = (trackedTouchCount w + 1)%Z
    ∧ interactionChanges r.2 = interactionChanges w ++ [(trackedTouchCount w + 1)%Z]
    ∧ cache r.2 = <[getTagFromInstance T1 := T1]> (delete tag2 (cache w))
    ∧ responderChanges r.2
      = responderChanges w
        ++ [mkChange (Some T2) None None;
            mkChange None (Some T1)
              (Some (strictlyTrue
                       (default JUndefined (getListener env T1 "onResponderGrant"))))].
Proof.
  intros T2 Hs Htouches Hchanged Htarget Hinst Htags Hresp Hvote Htr Htrue
    Hordered Hindexed Hhandler Hprev r.
  unfold r. rewrite extractEvents_start by done. rewrite Hchanged.
  change (Z.of_nat (length [touch])) with 1%Z.
  set (wa := set_trackedTouchCount (λ n, n + 1)%Z w).
  assert (Htgt : gestureTarget env touch wa = tag2).
  { unfold gestureTarget, ResponderCache.findAncestor. simpl.
    rewrite Htarget, Hinst. simpl. destruct Hresp as [x ->]. done. }
  unfold bind.
  destruct (touchesChanged_start_single env topLevelType nativeEvent touch wa)
    as (event & w1 & -> & Htarget1 & Htouches1 & Hchg & Hobs1); [done..|].
  rewrite Htgt in Htarget1.
  exists event. split; [done|]. split; [done|].
  apply observed_inv in Hobs1 as (Hc1 & Hr1 & Hd1 & Ht1 & Hp1 & Hi1).
  simpl in Hc1, Hr1, Hd1, Ht1, Hp1, Hi1.
  simpl forEachGesture. unfold extractGestureEvents.
  unfold changedOf in Hchg.
  rewrite Hchg, Hs, (isStartish_not_isEndish _ Hs), Htarget1, Hinst.
  cbn [length andb].
  set (gestureStarts :=
    if bool_decide (length (GestureEvent.touches event) = 1)
    then rev (pathToRoot T2) ≫= listenerOf env "onGestureStart" else []).
  match goal with |- context [extractTouchEvents _ _ _ _ ?x] => set (w2 := x) end.
  assert (Hobs2 : observed w2
    = (cache w, responderChanges w, dispatched w ++ gestureStarts,
       (trackedTouchCount w + 1)%Z, previousActiveTouches w, interactionChanges w)).
  { unfold observed, w2, gestureStarts. case_bool_decide.
    - rewrite executeDispatchesInOrder_spec, accumulateStartDispatches_dispatches.
      simpl. by rewrite Hc1, Hr1, Hd1, Ht1, Hp1, Hi1.
    - by rewrite Hc1, Hr1, Hd1, Ht1, Hp1, Hi1, app_nil_r. }
  apply observed_inv in Hobs2 as (Hc2 & Hr2 & Hd2 & Ht2 & Hp2 & Hi2).
  clearbody w2.
  unfold extractTouchEvents, canTriggerTransfer.
  rewrite Hs, bool_decide_eq_true_2 by done.
  rewrite orb_true_r. cbn [andb orb].
  rewrite (transfer_approved env topLevelType T2 event w2 T2 result); try done.
  2:{ apply findAncestor_responder. rewrite Hc2. done. }
  rewrite Hvote.
  match goal with |- context [approvedTransfer _ _ _ _ _ ?x] => set (w3 := x) end.
  assert (Hobs3 : observed w3
    = (cache w, responderChanges w,
       dispatched w ++ gestureStarts
         ++ calledUntilTrue (voteDispatches env topLevelType (Some T2) T2)
         ++ [mkDispatch T2 "onResponderTerminationRequest" result],
       (trackedTouchCount w + 1)%Z, previousActiveTouches w, interactionChanges w)).
  { unfold observed, w3, voted, retargeted. rewrite decide_False by (by intros []).
    simpl. rewrite Hc2, Hr2, Hd2, Ht2, Hp2, Hi2. by rewrite <- !(assoc_L (++)). }
  assert (Hne : T1 ≠ T2).
  { intros E. apply (f_equal getTagFromInstance) in E. by apply Htags. }
  apply observed_inv in Hobs3 as (Hc3 & Hr3 & Hd3 & Ht3 & Hp3 & Hi3).
  clearbody w3.
  destruct (approvedTransfer_observed env topLevelType T2 T1 event w3 Hne) as [E1 E2].
  destruct (approvedTransfer env topLevelType T2 T1 event w3) as [extracted w4].
  cbn [fst snd] in E1, E2. subst extracted.
  rewrite Hc3, Hr3, Hd3, Ht3, Hp3, Hi3 in E2.
  apply observed_inv in E2 as (Hc4 & Hr4 & Hd4 & Ht4 & Hp4 & Hi4).
  unfold extractResponderEvents.
  assert (Hfind : ResponderCache.findAncestor env
                    (ResponderCache.InstTarget (Some T2)) w4 = Some T1).
  { unfold ResponderCache.findAncestor. simpl. rewrite Hc4.
    rewrite lookup_insert_ne by done. rewrite lookup_delete_eq.
    destruct T1; simpl; by rewrite lookup_insert_eq. }
  rewrite Hfind, Hs, (isStartish_not_isEndish _ Hs). cbn [negb fst snd].
  unfold reportInteraction.
  rewrite Hhandler, Ht4, Hp4, bool_decide_eq_false_2 by lia.
  cbn -[listenerOf]. rewrite Ht4.
  split_and!; try done.
  - by rewrite Hd4, <- !(assoc_L (++)).
  - by rewrite Hi4.
Qed.

(** ** A touch below the responder *)

Lemma calledUntilTrue_none ds : firstTrue ds = None → calledUntilTrue ds = ds.
Proof.
  induction ds as [|d ds IH]; simpl; [done|].
  destruct (truthy (listenerResult d)); [done|]. intros H. f_equal. by apply IH.
Qed.

(** A negotiation in which no ancestor of the responder claims the status. *)
Lemma transfer_no_candidate env topLevelType targetInst ne w current :
  ResponderCache.findAncestor env (ResponderCache.InstTarget (Some targetInst)) w
    = Some current →
  firstTrue (voteDispatches env topLevelType (Some current) current) = None →
  setResponderAndExtractTransfer env topLevelType targetInst ne w
  = (None, voted env topLevelType targetInst current w).
Proof.
  intros Hcur Hvote. unfold setResponderAndExtractTransfer.
  rewrite Hcur, retarget_current.
  unfold executeDispatchesInOrderStopAtTrue.
  rewrite (vote_dispatches env topLevelType (Some current) current ne).
  by rewrite stopAtTrue_spec, Hvote.
Qed.

(** The nearest responder of an instance is the instance or one of its
    ancestors. *)
Lemma findAncestorFrom_above registry inst ancestor :
  ResponderCache.findAncestorFrom registry inst = Some ancestor →
  ancestor ∈ pathToRoot inst.
Proof.
  induction inst as [tag|tag parent IH]; simpl.
  - destruct (registry !! tag); [|done]. intros [= <-]. by left.
  - destruct (registry !! tag).
    + intros [= <-]. by left.
    + intros H. right. by apply IH.
Qed.

Lemma findAncestorFrom_registered registry inst ancestor :
  ResponderCache.findAncestorFrom registry inst = Some ancestor →
  is_Some (registry !! getTagFromInstance ancestor).
Proof.
  induction inst as [tag|tag parent IH]; simpl.
  - destruct (registry !! tag) eqn:E; [|done]. intros [= <-]. simpl. by rewrite E.
  - destruct (registry !! tag) eqn:E; [|done]. intros [= <-]. simpl. by rewrite E.
Qed.

Lemma above_and_below (inst ancestor : Inst) :
  ancestor ∈ pathToRoot inst → inst ∈ pathToRoot ancestor → inst = ancestor.
Proof.
  intros H1 H2.
  pose proof (pathToRoot_length_le _ _ H1) as L1.
  pose proof (pathToRoot_length_le _ _ H2) as L2.
  destruct inst as [tag|tag parent]; simpl in H1.
  - by apply list_elem_of_singleton in H1.
  - apply elem_of_cons in H1 as [->|H1]; [done|].
    apply pathToRoot_length_le in H1. simpl in L2. lia.
Qed.

(** A start-like batch of one touch: where the touch is filed. *)
Lemma touchesChanged_start_filed env type ne touch w :
  isStartish type = true →
  TouchEvent.changedTouches ne = [touch] →
  creationOrdered w → targetIndexed w →
  ∃ event w1,
    touchesChanged env type ne w = (Ok [event], w1)
    ∧ GestureEvent.target event = gestureTarget env touch w
    ∧ changedOf w1 (GestureEvent.gesture event) = [touch]
    ∧ observed w1 = observed w
    ∧ gesturesByTouch w1
      = <[Touch.identifier touch := GestureEvent.gesture event]> (gesturesByTouch w)
    ∧ Gesture.target (deref (GestureEvent.gesture event) w1)
      = gestureTarget env touch w
    ∧ GestureEvent.touches event
      = values (Gesture.touchMap (deref (GestureEvent.gesture event) w1)).
Proof.
  intros Hs Hne Hw Hidx.
  destruct (gesturesByTarget w !! gestureTarget env touch w) as [g|] eqn:Hg.
  - destruct (Hidx _ _ Hg) as [Hact Htgt].
    destruct (touchesChanged_start_existing env type ne touch w g Hs Hne Hw Hg Hact)
      as [-> Hc].
    eexists _, _. split; [reflexivity|].
    cbn [GestureEvent.target GestureEvent.gesture GestureEvent.touches].
    assert (Hlt : g < length (heap w)).
    { destruct Hw as [_ Hb]. rewrite Forall_forall in Hb. auto. }
    assert (Hd : deref g
                   (recorded type
                      (update g
                         (Gesture.set_touchMap (insert (Touch.identifier touch) touch))
                         (update g (Gesture.set_changedTouches (λ l, l ++ [touch]))
                            (set_gesturesByTouch (insert (Touch.identifier touch) g)
                               (clearChangedTouches w)))) g)
                 = Gesture.set_touchHistory
                     (TouchHistory.recordTouchEvent type [touch])
                     (Gesture.set_touchMap (insert (Touch.identifier touch) touch)
                        (Gesture.set_changedTouches (λ _, [touch]) (deref g w)))).
    { revert Hc. unfold changedOf. intros Hc.
      rewrite recorded_deref in Hc |- *. rewrite !update_length in Hc |- *.
      change (length (heap (set_gesturesByTouch ?f ?x))) with (length (heap x))
        in Hc |- *.
      rewrite clearChangedTouches_length, decide_True in Hc |- * by done.
      unfold changedOf.
      rewrite !deref_update, !update_length.
      change (length (heap (set_gesturesByTouch ?f ?x))) with (length (heap x)).
      rewrite clearChangedTouches_length, !decide_True by done.
      change (deref g (set_gesturesByTouch ?f ?x)) with (deref g x).
      rewrite clearChangedTouches_deref. by rewrite decide_True by done. }
    split_and!; try done.
    + unfold observed, recorded. simpl. by autorewrite with frame.
    + unfold recorded. simpl. by autorewrite with frame.
    + by rewrite Hd.
    + by rewrite Hd.
  - rewrite (touchesChanged_start_fresh env type ne touch w Hs Hne Hw Hg).
    eexists _, _. split; [reflexivity|].
    cbn [GestureEvent.target GestureEvent.gesture GestureEvent.touches].
    assert (Hd : ∀ G (x : World),
               deref (length (heap w))
                 (set_heap (λ _, heap (clearChangedTouches w) ++ [G]) x) = G).
    { intros G x. unfold deref. simpl. rewrite <- (clearChangedTouches_length w).
      by rewrite list_lookup_total_middle. }
    split_and!; try done.
    + unfold changedOf. by rewrite Hd.
    + by rewrite Hd.
    + rewrite Hd. simpl. by rewrite values_singleton.
Qed.

Lemma gestureStart_instances env inst d :
  d ∈ rev (pathToRoot inst) ≫= listenerOf env "onGestureStart" →
  dispatchInstance d ∈ pathToRoot inst ∧ registrationName d = "onGestureStart".
Proof.
  rewrite list_elem_of_bind. intros (i & Hd & Hi).
  apply list_elem_of_In, in_rev, list_elem_of_In in Hi.
  unfold listenerOf in Hd.
  destruct (getListener env i "onGestureStart"); [|by apply not_elem_of_nil in Hd].
  apply list_elem_of_singleton in Hd as ->. done.
Qed.

Lemma startVote_names env type currentInst voteTarget d :
  isStartish type = true →
  d ∈ voteDispatches env type currentInst voteTarget →
  registrationName d = "onStartShouldSetResponderCapture"
  ∨ registrationName d = "onStartShouldSetResponder".
Proof.
  intros Hs. unfold voteDispatches, shouldSetEventType. rewrite Hs. simpl.
  intros [H|H]%elem_of_app; apply list_elem_of_bind in H as (i & Hd & _);
    unfold listenerOf in Hd;
    destruct (getListener env i _); try (by apply not_elem_of_nil in Hd);
    apply list_elem_of_singleton in Hd as ->; auto.
Qed.

(** C2, amended.  [T1] is the responder and one touch starts at [T2], an
    instance below [T1] with no responder in between, while no ancestor of
    [T1] claims the status.  Whatever the vote handler of [T2] and the
    termination-request handler of [T1] return, [extractEvents] returns
    one event, the [responderStart] of [T1].  The touch is filed under a
    gesture whose target is [T1].  The listeners called on demand are
    those of [gestureStart] from the root down to [T1], if the touch is
    the only one of the gesture, and those of the vote among the strict
    ancestors of [T1]: none of [T2], no termination request, no
    [responderTerminate] and no [responderGrant].  The registry and its
    observer are as before, the tracked-touch count grows by one and the
    interaction observer is told once. *)
Theorem touch_below_responder
    env topLevelType targetInst nativeEvent touch w (T1 T2 : Inst) :
  isStartish topLevelType = true →
  is_Some (TouchEvent.touches nativeEvent) →
  TouchEvent.changedTouches nativeEvent = [touch] →
  getInstanceFromTag env (Touch.target touch) = Some T2 →
  ResponderCache.findAncestor env (ResponderCache.InstTarget (Some T2)) w = Some T1 →
  T2 ≠ T1 →
  getInstanceFromTag env (getTagFromInstance T1) = Some T1 →
  firstTrue (voteDispatches env topLevelType (Some T1) T1) = None →
  creationOrdered w → targetIndexed w →
  GlobalInteractionHandler env = true →
  previousActiveTouches w = trackedTouchCount w →
  let r := extractEvents env topLevelType targetInst nativeEvent w in
  ∃ event called,
    GestureEvent.target event = getTagFromInstance T1
    ∧ gesturesByTouch r.2
      = <[Touch.identifier touch := GestureEvent.gesture event]> (gesturesByTouch w)
    ∧ Gesture.target (deref (GestureEvent.gesture event) r.2) = getTagFromInstance T1
    ∧ GestureEvent.touches event
      = values (Gesture.touchMap (deref (GestureEvent.gesture event) r.2))
    ∧ r.1 = Ok (Some
        [EventPropagators.accumulateDirectDispatches env
           (createEvent responderStart (Some T1) event)])
    ∧ dispatched r.2 = dispatched w ++ called
    ∧ called
      = (if bool_decide (length (GestureEvent.touches event) = 1)
         then rev (pathToRoot T1) ≫= listenerOf env "onGestureStart"
         else [])
        ++ voteDispatches env topLevelType (Some T1) T1
    ∧ Forall (λ d, dispatchInstance d ∈ pathToRoot T1
                   ∧ dispatchInstance d ≠ T2
                   ∧ registrationName d
                     ∈ ["onGestureStart"; "onStartShouldSetResponderCapture";
                        "onStartShouldSetResponder"])
        called
    ∧ cache r.2 = cache w
    ∧ responderChanges r.2 = responderChanges w
    ∧ trackedTouchCount r.2 = (trackedTouchCount w + 1)%Z
    ∧ interactionChanges r.2 = interactionChanges w ++ [(trackedTouchCount w + 1)%Z].
Proof.
  intros Hs Htouches Hchanged Hinst2 Hnear Hbelow Hinst1 Hvote
    Hordered Hindexed Hhandler Hprev r.
  assert (Habove : T1 ∈ pathToRoot T2).
  { revert Hnear. unfold ResponderCache.findAncestor. simpl.
    apply findAncestorFrom_above. }
  assert (Hresp : is_Some (cache w !! getTagFromInstance T1)).
  { revert Hnear. unfold ResponderCache.findAncestor. simpl.
    apply findAncestorFrom_registered. }
  unfold r. rewrite extractEvents_start by done. rewrite Hchanged.
  change (Z.of_nat (length [touch])) with 1%Z.
  set (wa := set_trackedTouchCount (λ n, n + 1)%Z w).
  assert (Htgt : gestureTarget env touch wa = getTagFromInstance T1).
  { unfold gestureTarget. revert Hnear. unfold ResponderCache.findAncestor. simpl.
    rewrite Hinst2. by intros ->. }
  unfold bind.
  destruct (touchesChanged_start_filed env topLevelType nativeEvent touch wa)
    as (event & w1 & -> & Htarget1 & Hchg & Hobs1 & Hfiled & Hgt & Hvalues);
    [done..|].
  rewrite Htgt in Htarget1, Hgt.
  apply observed_inv in Hobs1 as (Hc1 & Hr1 & Hd1 & Ht1 & Hp1 & Hi1).
  simpl in Hc1, Hr1, Hd1, Ht1, Hp1, Hi1, Hfiled.
  simpl forEachGesture. unfold extractGestureEvents.
  unfold changedOf in Hchg.
  rewrite Hchg, Hs, (isStartish_not_isEndish _ Hs), Htarget1, Hinst1.
  cbn [length andb].
  set (gestureStarts :=
    if bool_decide (length (GestureEvent.touches event) = 1)
    then rev (pathToRoot T1) ≫= listenerOf env "onGestureStart" else []).
  match goal with |- context [extractTouchEvents _ _ _ _ ?x] => set (w2 := x) end.
  assert (Hw2 : w2 = set_dispatched (λ l, l ++ gestureStarts) w1).
  { unfold w2, gestureStarts. case_bool_decide.
    - by rewrite executeDispatchesInOrder_spec, accumulateStartDispatches_dispatches.
    - apply World_eq; simpl; try done. by rewrite app_nil_r. }
  clearbody w2. subst w2.
  unfold extractTouchEvents, canTriggerTransfer.
  rewrite Hs, bool_decide_eq_true_2 by done.
  rewrite orb_true_r. cbn [andb orb].
  rewrite (transfer_no_candidate env topLevelType T1 event _ T1); try done.
  2:{ apply findAncestor_responder. simpl. by rewrite Hc1. }
  unfold voted, retargeted. rewrite decide_False by (by intros []).
  rewrite (calledUntilTrue_none _ Hvote).
  unfold extractResponderEvents.
  rewrite findAncestor_responder by (simpl; by rewrite Hc1).
  rewrite Hs, (isStartish_not_isEndish _ Hs). cbn [negb fst snd].
  unfold reportInteraction. cbn [trackedTouchCount previousActiveTouches set_dispatched].
  rewrite Hhandler, Ht1, Hp1, bool_decide_eq_false_2 by lia.
  cbn -[listenerOf voteDispatches]. 
  exists event, (gestureStarts ++ voteDispatches env topLevelType (Some T1) T1).
  rewrite Hc1, Hr1, Hd1, Ht1, Hi1, Hfiled.
  split_and!; try done.
  - by rewrite <- !(assoc_L (++)).
  - apply Forall_app. split.
    + unfold gestureStarts. case_bool_decide; [|by constructor].
      apply Forall_forall. intros d [Hd Hname]%gestureStart_instances.
      split_and!; [done| |rewrite Hname; by left].
      intros E. rewrite E in Hd. by apply Hbelow, above_and_below.
    + apply Forall_forall. intros d Hd.
      pose proof (voteDispatches_instances _ _ _ _ _ Hd) as Hup.
      assert (Hpath : dispatchInstance d ∈ pathToRoot T1).
      { destruct T1; simpl in *; [by apply not_elem_of_nil in Hup|by right]. }
      split_and!.
      * done.
      * intros E. rewrite E in Hpath. by apply Hbelow, above_and_below.
      * destruct (startVote_names _ _ _ _ _ Hs Hd) as [-> | ->];
          [right; left|right; right; left].
Qed.

(** * The gesture cache stays consistent *)

Lemma consistent_ext w w' :
  heap w' = heap w → activeGestures w' = activeGestures w →
  gesturesByTarget w' = gesturesByTarget w →
  consistent w → consistent w'.
Proof.
  unfold consistent, creationOrdered, targetIndexed, deref.
  by intros -> -> ->.
Qed.

Lemma consistent_update g f w :
  (∀ x, Gesture.target (f x) = Gesture.target x) →
  consistent w → consistent (update g f w).
Proof.
  intros Hf [Hw Hti]. split; [by apply creationOrdered_update|].
  intros target g' Hg'. destruct (Hti _ _ Hg') as [Ha Ht].
  split; [done|]. rewrite deref_update. case_decide; [by rewrite Hf|done].
Qed.

Lemma consistent_clear w : consistent w → consistent (clearChangedTouches w).
Proof.
  intros [Hw Hti]. split; [by apply creationOrdered_clear|].
  intros target g Hg. rewrite clearChangedTouches_byTarget in Hg.
  destruct (Hti _ _ Hg) as [Ha Ht].
  rewrite clearChangedTouches_active, clearChangedTouches_deref.
  split; [done|]. by case_decide.
Qed.

Lemma consistent_attach env touch w :
  consistent w → consistent (attachGesture env touch w).2.
Proof.
  intros [Hw Hti]. split; [by apply creationOrdered_attach|].
  revert Hti. unfold attachGesture, targetIndexed.
  destruct (gesturesByTarget w !! gestureTarget env touch w) as [g|] eqn:E; simpl; [done|].
  intros Hti. apply map_Forall_insert_2.
  - split; [set_solver|]. unfold deref. simpl.
    by rewrite list_lookup_total_middle.
  - intros target g Hg. destruct (Hti _ _ Hg) as [Ha Ht].
    split; [set_solver|]. unfold deref in *. simpl.
    destruct Hw as [_ Hb]. rewrite Forall_forall in Hb.
    rewrite lookup_total_app_l; [done|]. by apply Hb.
Qed.

Lemma consistent_rebuild env type touch w :
  consistent w → consistent (rebuildChangedTouches env type touch w).2.
Proof.
  intros Hw. unfold rebuildChangedTouches.
  destruct (isStartish type).
  - pose proof (consistent_attach env touch w Hw) as H.
    destruct (attachGesture env touch w) as [g w1]. simpl in *.
    destruct (negb _); simpl; repeat apply consistent_update; done.
  - destruct (gesturesByTouch w !! _); simpl; [|done].
    destruct (negb _); simpl; repeat apply consistent_update; done.
Qed.

Lemma consistent_detach touch w :
  consistent w → consistent (detachTouch touch w).2.
Proof.
  intros Hw. unfold detachTouch.
  destruct (gesturesByTouch w !! _); simpl; [|done].
  eapply (consistent_ext
            (update _ (Gesture.set_touchMap (delete (Touch.identifier touch))) w));
    [done..|].
  by apply consistent_update.
Qed.

Lemma consistent_removeGesture g w :
  g ∈ activeGestures w → consistent w → consistent (removeGesture g w).
Proof.
  intros Hg [Hw Hti]. split; [by apply creationOrdered_removeGesture|].
  pose proof (creationOrdered_NoDup _ Hw) as Hnd.
  intros target g' Hg'. unfold removeGesture in Hg'. simpl in Hg'.
  apply lookup_delete_Some in Hg' as [Hne Hg'].
  destruct (Hti _ _ Hg') as [Ha Ht].
  rewrite removeGesture_active.
  change (deref g' (removeGesture g w)) with (deref g' w).
  split; [|done].
  apply list_elem_of_lookup in Hg as [i Hi].
  rewrite (indexOf_lookup _ i g Hnd Hi). simpl.
  rewrite (elem_of_delete_NoDup _ i g g' Hnd Hi). split; [done|].
  intros ->. exact (Hne Ht).
Qed.

Lemma consistent_visit type ne g events w :
  g ∈ activeGestures w →
  consistent w → consistent (visitGesture type ne g events w).2.
Proof.
  intros Hg Hw. unfold visitGesture.
  destruct (Gesture.changedTouches (deref g w)); [done|].
  simpl. case_match.
  - apply consistent_removeGesture; [done|]. by apply consistent_update.
  - by apply consistent_update.
Qed.

Lemma consistent_loop type ne n :
  ∀ events w, consistent w →
    consistent (changedGestureEvents type ne n events w).2.
Proof.
  induction n as [|i IH]; intros events w Hw; simpl; [done|].
  destruct (activeGestures w !! i) as [g|] eqn:E; [|done].
  pose proof (consistent_visit type ne g events w) as H.
  destruct (visitGesture _ _ _ _ _) as [events1 w1]. apply IH, H; [|done].
  by eapply list_elem_of_lookup_2.
Qed.

Lemma consistent_touchesChanged env type ne w :
  consistent w → consistent (touchesChanged env type ne w).2.
Proof.
  intros Hw. rewrite touchesChanged_unfold.
  pose proof (forEach_preserves consistent
    (rebuildChangedTouches env type) (TouchEvent.changedTouches ne) _
    (consistent_rebuild env type) (consistent_clear w Hw)) as H1.
  destruct (forEach _ _ _) as [[[]|e] w1]; [|done]. simpl in H1.
  destruct (isEndish type).
  - pose proof (forEach_preserves consistent detachTouch
      (TouchEvent.changedTouches ne) w1 consistent_detach H1) as H2.
    destruct (forEach _ detachTouch w1) as [[[]|e] w2]; [|done].
    by apply consistent_loop.
  - by apply consistent_loop.
Qed.

Lemma consistent_targetChanged type oldTarget newTarget w :
  consistent w → consistent (targetChanged type oldTarget newTarget w).
Proof.
  intros Hw. unfold targetChanged.
  destruct (gesturesByTarget w !! getTagFromInstance oldTarget)
    as [oldGesture|] eqn:Eold; [|done].
  destruct (proj2 Hw _ _ Eold) as [Hold Htold].
  destruct (gesturesByTarget w !! getTagFromInstance newTarget)
    as [newGesture|] eqn:Enew.
  - apply consistent_removeGesture; [done|].
    apply consistent_update; [done|].
    eapply consistent_ext; [..|apply consistent_update; [|apply consistent_update; [|done]]];
      done.
  - destruct Hw as [Hw Hti]. split; [by apply creationOrdered_update|].
    assert (Hne : getTagFromInstance newTarget ≠ getTagFromInstance oldTarget)
      by congruence.
    assert (Hlt : oldGesture < length (heap w)).
    { destruct Hw as [_ Hb]. rewrite Forall_forall in Hb. by apply Hb. }
    intros target g Hg. simpl in Hg.
    apply lookup_delete_Some in Hg as [Hne' Hg].
    change (activeGestures _) with (activeGestures w).
    change (deref g _)
      with (deref g (update oldGesture
                       (Gesture.set_target (getTagFromInstance newTarget)) w)).
    rewrite deref_update.
    apply lookup_insert_Some in Hg as [[<- <-]|[Hne'' Hg]].
    + split; [done|]. by rewrite decide_True.
    + destruct (Hti _ _ Hg) as [Ha Ht]. split; [done|].
      rewrite decide_False; [done|]. intros [-> _]. congruence.
Qed.

(** What the plugin does outside the gesture cache leaves it as it is. *)
Lemma consistent_call d w : consistent w → consistent (call d w).
Proof. by apply consistent_ext. Qed.

Lemma consistent_release inst w :
  consistent w → consistent (ResponderCache.release inst w).
Proof. by apply consistent_ext. Qed.

Lemma consistent_grant inst block w :
  consistent w → consistent (ResponderCache.grant inst block w).
Proof. by apply consistent_ext. Qed.

Lemma consistent_stopAtTrue ds :
  ∀ w, consistent w → consistent (stopAtTrue ds w).2.
Proof.
  induction ds as [|d ds IH]; intros w Hw; simpl; [done|].
  destruct (truthy _); simpl; [|apply IH]; by apply consistent_call.
Qed.

Lemma consistent_executeDirectDispatch event w :
  consistent w → consistent (executeDirectDispatch event w).2.
Proof.
  intros Hw. unfold executeDirectDispatch.
  destruct (dispatches event); simpl; [done|by apply consistent_call].
Qed.

Lemma consistent_executeDispatchesInOrder event w :
  consistent w → consistent (executeDispatchesInOrder event w).
Proof.
  unfold executeDispatchesInOrder. revert w.
  induction (dispatches event) as [|d ds IH]; intros w Hw; simpl; [done|].
  by apply IH, consistent_call.
Qed.

Lemma consistent_grantResponder env type targetInst nextInst ne w :
  consistent w → consistent (grantResponder env type targetInst nextInst ne w).2.
Proof.
  intros Hw. unfold grantResponder.
  case_decide.
  - pose proof (consistent_executeDirectDispatch
      (EventPropagators.accumulateDirectDispatches env
         (createEvent responderGrant (Some nextInst) ne))
      (targetChanged type targetInst nextInst w)
      (consistent_targetChanged _ _ _ _ Hw)) as H1.
    destruct (executeDirectDispatch _ _) as [result w1]. simpl in *.
    by apply consistent_grant.
  - pose proof (consistent_executeDirectDispatch
      (EventPropagators.accumulateDirectDispatches env
         (createEvent responderGrant (Some nextInst) ne)) w Hw) as H1.
    destruct (executeDirectDispatch _ _) as [result w1]. simpl in *.
    by apply consistent_grant.
Qed.

Lemma consistent_setResponderAndExtractTransfer env type targetInst ne w :
  consistent w →
  consistent (setResponderAndExtractTransfer env type targetInst ne w).2.
Proof.
  intros Hw. unfold setResponderAndExtractTransfer.
  destruct (ResponderCache.findAncestor _ _ _) as [current|].
  - set (tw := if decide (current ≠ targetInst) then _ else _).
    assert (Htw : consistent tw.2).
    { unfold tw. case_decide; simpl; [by apply consistent_targetChanged|done]. }
    destruct tw as [target w1]. simpl in Htw.
    unfold executeDispatchesInOrderStopAtTrue.
    pose proof (consistent_stopAtTrue
      (dispatches (EventPropagators.accumulateTwoPhaseDispatchesSkipTarget env
         (createEvent (shouldSetEventType type) (Some target) ne))) w1 Htw) as H2.
    destruct (stopAtTrue _ _) as [[next|] w2]; simpl in H2; [|done].
    set (event := EventPropagators.accumulateDirectDispatches env
                    (createEvent responderTerminationRequest (Some current) ne)).
    destruct (hasDispatches event); simpl.
    + pose proof (consistent_executeDirectDispatch event w2 H2) as H3.
      destruct (executeDirectDispatch event w2) as [result w3]. simpl in H3.
      destruct (truthy result); simpl; [|done].
      apply consistent_grantResponder.
      case_match; [apply consistent_executeDirectDispatch|];
        by apply consistent_release.
    + apply consistent_grantResponder.
      case_match; [apply consistent_executeDirectDispatch|];
        by apply consistent_release.
  - unfold executeDispatchesInOrderStopAtTrue.
    pose proof (consistent_stopAtTrue
      (dispatches (EventPropagators.accumulateTwoPhaseDispatches env
         (createEvent (shouldSetEventType type) (Some targetInst) ne))) w Hw) as H2.
    destruct (stopAtTrue _ _) as [[next|] w2]; simpl in H2; [|done].
    by apply consistent_grantResponder.
Qed.

Lemma consistent_extractResponderEvents env type targetInst ne extracted w :
  consistent w →
  consistent (extractResponderEvents env type targetInst ne extracted w).2.
Proof.
  intros Hw. unfold extractResponderEvents.
  repeat case_match; simpl; try done; by apply consistent_release.
Qed.

Lemma consistent_extractTouchEvents env type targetInst ne w :
  consistent w → consistent (extractTouchEvents env type targetInst ne w).2.
Proof.
  intros Hw. unfold extractTouchEvents.
  destruct (canTriggerTransfer _ _ _ _); [|by apply consistent_extractResponderEvents].
  destruct targetInst as [inst|]; [|by apply consistent_extractResponderEvents].
  pose proof (consistent_setResponderAndExtractTransfer env type inst ne w Hw) as H.
  destruct (setResponderAndExtractTransfer _ _ _ _ _) as [extracted w1].
  by apply consistent_extractResponderEvents.
Qed.

Lemma consistent_extractGestureEvents env type event extracted w :
  consistent w → consistent (extractGestureEvents env type event extracted w).2.
Proof.
  intros Hw. unfold extractGestureEvents.
  set (w1 := if _ && _ then _ else w).
  assert (H1 : consistent w1).
  { unfold w1. case_match; [by apply consistent_executeDispatchesInOrder|done]. }
  clearbody w1.
  pose proof (consistent_extractTouchEvents env type
    (getInstanceFromTag env (GestureEvent.target event)) event w1 H1) as H2.
  by destruct (extractTouchEvents _ _ _ _ _) as [touchEvents w2].
Qed.

Lemma consistent_forEachGesture env type events :
  ∀ extracted w, consistent w →
    consistent (forEachGesture env type events extracted w).2.
Proof.
  induction events as [|event events IH]; intros extracted w Hw; simpl; [done|].
  pose proof (consistent_extractGestureEvents env type event extracted w Hw) as H.
  destruct (extractGestureEvents _ _ _ _ _) as [extracted1 w1]. by apply IH.
Qed.

Lemma consistent_reportInteraction env w :
  consistent w → consistent (reportInteraction env w).
Proof.
  intros Hw. unfold reportInteraction.
  case_match; eapply consistent_ext; try exact Hw; done.
Qed.

Lemma consistent_initialWorld : consistent initialWorld.
Proof. split; [split; constructor|]. apply map_Forall_empty. Qed.

Lemma consistent_extractEvents env type targetInst ne w :
  consistent w → consistent (extractEvents env type targetInst ne w).2.
Proof.
  intros Hw. unfold extractEvents.
  destruct (TouchEvent.touches ne); [|by eapply consistent_ext].
  set (w1 := if isStartish type then _ else _).
  assert (H1 : consistent w1).
  { unfold w1. repeat case_match; eapply consistent_ext; try exact Hw; done. }
  clearbody w1.
  case_match; [by eapply consistent_ext|].
  unfold bind.
  pose proof (consistent_touchesChanged env type ne w1 H1) as H2.
  destruct (touchesChanged env type ne w1) as [[events|e] w2]; [|done].
  pose proof (consistent_forEachGesture env type events None w2 H2) as H3.
  destruct (forEachGesture _ _ _ _ _) as [extracted w3].
  by apply consistent_reportInteraction.
Qed.

(** X1.  Every state that the plugin reaches is consistent: [activeGestures]
    is in creation order, and [gesturesByTarget] leads to active gestures
    under their own targets. *)
Lemma reachable_consistent env w : reachable env w → consistent w.
Proof.
  induction 1; [apply consistent_initialWorld|by apply consistent_extractEvents].
Qed.

(** X18.  The other guard of section 7: an end-like event that takes the
    count of tracked touches below zero is reported, and nothing else
    happens; the count stays where the event has taken it. *)
Lemma extractEvents_uncounted_end env type targetInst ne w :
  is_Some (TouchEvent.touches ne) →
  isEndish type = true →
  (trackedTouchCount w < Z.of_nat (length (TouchEvent.changedTouches ne)))%Z →
  extractEvents env type targetInst ne w
  = (Ok None,
     error EndedUncountedTouch
       (set_trackedTouchCount
          (λ n, n - Z.of_nat (length (TouchEvent.changedTouches ne)))%Z w)).
Proof.
  intros [l Hl] He Hlt. unfold extractEvents.
  rewrite Hl, He, (isEndish_not_isStartish _ He). simpl.
  rewrite bool_decide_eq_true_2; [done|lia].
Qed.

(** * The first copy of the batch processor *)





(** * The registry *)

Import Scenario.

(** C10. [ResponderCache.release] calls the observer's [onChange] with the
    instance and [null], whatever the registry holds: the call is the same
    whether or not the instance was the responder. *)
Theorem release_always_notifies (inst : Inst) (w : World) :
  responderChanges (ResponderCache.release inst w)
  = responderChanges w ++ [mkChange (Some inst) None None].
Proof. reflexivity. Qed.

(** C5, as amended.  [ResponderCache.release] reports nothing, whether or
    not the instance is the entry of its tag: it deletes the entry of the
    tag and calls the observer. *)
Theorem release_reports_nothing (inst : Inst) (w : World) :
  console (ResponderCache.release inst w) = console w
  ∧ cache (ResponderCache.release inst w) = delete (getTagFromInstance inst) (cache w)
  ∧ responderChanges (ResponderCache.release inst w)
    = responderChanges w ++ [mkChange (Some inst) None None].
Proof. done. Qed.

(** C5 as stated fails: the release of an instance that is not in the
    registry leaves the console as it was. *)
Lemma release_not_current_silent :
  cache initialWorld !! getTagFromInstance T1 ≠ Some T1
  ∧ console (ResponderCache.release T1 initialWorld) = console initialWorld.
Proof. split; [|reflexivity]. by vm_compute. Qed.

(** * When a transfer is attempted *)

Lemma canTriggerTransfer_spec topLevelType topLevelInst nativeEvent w :
  canTriggerTransfer topLevelType topLevelInst nativeEvent w = true ↔
  is_Some topLevelInst ∧
  ((topLevelType = "topScroll"
    ∧ GestureEvent.responderIgnoreScroll nativeEvent = false)
   ∨ ((0 < trackedTouchCount w)%Z ∧ topLevelType = "topSelectionChange")
   ∨ isStartish topLevelType = true
   ∨ isMoveish topLevelType = true).
Proof.
  unfold canTriggerTransfer.
  rewrite andb_true_iff, !orb_true_iff, !andb_true_iff, !bool_decide_eq_true,
    negb_true_iff.
  tauto.
Qed.

(** C7. [extractTouchEvents] attempts a transfer exactly when the target
    instance exists and the event is a scroll that is not to be ignored, a
    selection change while touches are tracked, start-like or move-like. *)
Theorem transfer_attempted_iff env topLevelType targetInst nativeEvent w :
  let attempted := canTriggerTransfer topLevelType targetInst nativeEvent w in
  (attempted = true ↔
   is_Some targetInst ∧
   ((topLevelType = "topScroll"
     ∧ GestureEvent.responderIgnoreScroll nativeEvent = false)
    ∨ ((0 < trackedTouchCount w)%Z ∧ topLevelType = "topSelectionChange")
    ∨ isStartish topLevelType = true
    ∨ isMoveish topLevelType = true))
  ∧ extractTouchEvents env topLevelType targetInst nativeEvent w
    = (if attempted then
         match targetInst with
         | Some inst =>
             let '(extracted, w') :=
               setResponderAndExtractTransfer env topLevelType inst nativeEvent w in
             extractResponderEvents env topLevelType targetInst nativeEvent
               extracted w'
         | None =>
             extractResponderEvents env topLevelType targetInst nativeEvent None w
         end
       else extractResponderEvents env topLevelType targetInst nativeEvent None w).
Proof.
  intros attempted. split; [apply canTriggerTransfer_spec|].
  unfold extractTouchEvents. fold attempted.
  destruct attempted; [|done]. destruct targetInst as [inst|]; [|done].
  by destruct (setResponderAndExtractTransfer _ _ _ _ _).
Qed.

(** * Retargeting *)

(** The part of C3 that the exported [targetChanged] keeps: without a
    gesture for [oldTarget] it warns and changes nothing else. *)
Lemma targetChanged_no_gesture topLevelType oldTarget newTarget w :
  gesturesByTarget w !! getTagFromInstance oldTarget = None →
  targetChanged topLevelType oldTarget newTarget w
  = warn (InvalidTargetHasNoGesture (getTagFromInstance oldTarget)) w.
Proof. intros H. unfold targetChanged. by rewrite H. Qed.

(** X20.  The first copy of [targetChanged] does what C3 says: equal
    targets, or an old target without a gesture, lead to one warning and
    to nothing else. *)
Lemma first_targetChanged_rejects topLevelType oldTarget newTarget w :
  getTagFromInstance oldTarget = getTagFromInstance newTarget
  ∨ gesturesByTarget w !! getTagFromInstance oldTarget = None →
  ∃ m, GestureCacheFirst.targetChanged topLevelType oldTarget newTarget w = warn m w.
Proof.
  unfold GestureCacheFirst.targetChanged, getNodeFromInstance.
  intros [E|E].
  - rewrite E, decide_True by done. by eexists.
  - case_decide; [by eexists|]. rewrite E. by eexists.
Qed.

Lemma deref_update_eq g f w :
  g < length (heap w) → deref g (update g f w) = f (deref g w).
Proof. intros H. rewrite deref_update. by rewrite decide_True. Qed.

(** C3.  The exported [targetChanged] does not compare the two targets.
    When a target that has a gesture is handed to itself, nothing is
    reported: the gesture absorbs itself, which doubles its changed
    touches, and is then removed from [activeGestures] and from
    [gesturesByTarget], while [gesturesByTouch] still leads to it. *)
Theorem targetChanged_same_target topLevelType target w g :
  gesturesByTarget w !! getTagFromInstance target = Some g →
  creationOrdered w → targetIndexed w →
  let w' := targetChanged topLevelType target target w in
  console w' = console w
  ∧ (g ∉ activeGestures w')
  ∧ gesturesByTarget w' = delete (getTagFromInstance target) (gesturesByTarget w)
  ∧ gesturesByTouch w'
    = ((λ _, g) <$> Gesture.touchMap (deref g w)) ∪ gesturesByTouch w
  ∧ changedOf w' g = changedOf w g ++ changedOf w g.
Proof.
  intros Hg Hw Hti w'.
  destruct (Hti _ _ Hg) as [Hactive Htarget].
  pose proof (creationOrdered_NoDup _ Hw) as Hnd.
  destruct Hw as [_ Hb]. rewrite Forall_forall in Hb. pose proof (Hb _ Hactive) as Hlt.
  unfold w', targetChanged. rewrite Hg. cbv zeta.
  set (w1 := update g (Gesture.set_touchHistory _) w).
  assert (H1 : deref g w1 = Gesture.set_touchHistory
            (TouchHistory.recordTouchEvent topLevelType
               (Gesture.changedTouches (deref g w))) (deref g w))
    by (by apply deref_update_eq).
  assert (L1 : length (heap w1) = length (heap w)) by apply update_length.
  set (w2 := update g (Gesture.set_changedTouches _) w1).
  assert (H2 : deref g w2
               = Gesture.set_changedTouches
                   (λ l, l ++ Gesture.changedTouches (deref g w1)) (deref g w1)).
  { apply deref_update_eq. by rewrite L1. }
  assert (L2 : length (heap w2) = length (heap w)) by (unfold w2; by rewrite update_length).
  set (w3 := set_gesturesByTouch _ w2).
  set (w4 := update g (Gesture.set_touchMap _) w3).
  assert (H4 : deref g w4
               = Gesture.set_touchMap (λ m, Gesture.touchMap (deref g w2) ∪ m) (deref g w2)).
  { unfold w4. rewrite deref_update_eq; [done|].
    change (heap w3) with (heap w2). by rewrite L2. }
  split_and!.
  - done.
  - rewrite removeGesture_active.
    change (activeGestures w4) with (activeGestures w).
    apply list_elem_of_lookup in Hactive as [i Hi].
    rewrite (indexOf_lookup _ i g Hnd Hi). simpl.
    rewrite (elem_of_delete_NoDup _ i g g Hnd Hi). tauto.
  - unfold removeGesture. simpl.
    change (deref g _) with (deref g w4).
    rewrite H4, H2, H1. simpl. by rewrite Htarget.
  - simpl. by rewrite H2, H1.
  - unfold changedOf. change (deref g (removeGesture g w4)) with (deref g w4).
    rewrite H4, H2, H1. reflexivity.
Qed.

(** The same at a gesture with one touch. *)
Lemma targetChanged_same_target_witness :
  let w := childTouched silent in
  let w' := targetChanged "topTouchMove" T2 T2 w in
  (gesturesByTarget w !! getTagFromInstance T2 = Some 0
   ∧ creationOrdered w ∧ targetIndexed w)
  ∧ console w' = console w
  ∧ (0 ∉ activeGestures w')
  ∧ gesturesByTarget w' = delete (getTagFromInstance T2) (gesturesByTarget w)
  ∧ gesturesByTouch w'
    = ((λ _, 0) <$> Gesture.touchMap (deref 0 w)) ∪ gesturesByTouch w
  ∧ changedOf w' 0 = changedOf w 0 ++ changedOf w 0.
Proof.
  intros w w'.
  assert (H1 : gesturesByTarget w !! getTagFromInstance T2 = Some 0)
    by (vm_compute; reflexivity).
  assert (H2 : creationOrdered w) by (apply (bool_decide_unpack _); vm_compute; exact I).
  assert (H3 : targetIndexed w) by (apply (bool_decide_unpack _); vm_compute; exact I).
  split; [by split_and!|].
  exact (targetChanged_same_target "topTouchMove" T2 w 0 H1 H2 H3).
Defined.

(** C3 as stated fails for the exported [targetChanged].  One touch is
    down on [T2], and [T2] is handed to itself: the console stays empty,
    the gesture is gone from [activeGestures] and [gesturesByTarget], its
    touch still leads to it, and its changed touches are doubled. *)
Lemma targetChanged_self_removes_gesture :
  let w := childTouched silent in
  let w' := targetChanged "topTouchMove" T2 T2 w in
  activeGestures w = [0] ∧ gesturesByTarget w !! 2%Z = Some 0
  ∧ console w' = console w
  ∧ activeGestures w' = []
  ∧ gesturesByTarget w' !! 2%Z = None
  ∧ gesturesByTouch w' !! 10%Z = Some 0
  ∧ changedOf w 0 = [touch 10 2 0]
  ∧ changedOf w' 0 = [touch 10 2 0; touch 10 2 0].
Proof. vm_compute. done. Qed.

(** * Runs on a parent and its child *)

(** ** The order of the events *)

(** C1 as stated fails.  Two touches start in one batch on two targets:
    the gesture of the first touch is created first, and its event comes
    last. *)
Lemma touchesChanged_not_oldest_first :
  ∃ events,
    (touchesChanged silent "topTouchStart" (batch [touch 10 1 0; touch 11 2 0])
       initialWorld).1 = Ok events
    ∧ GestureEvent.gesture <$> events = [1; 0]
    ∧ ¬ oldestFirst events.
Proof.
  eexists. split; [vm_compute; reflexivity|]. split; [reflexivity|].
  unfold oldestFirst. simpl.
  intros [H _]%StronglySorted_cons. apply Forall_cons in H as [H _]. lia.
Qed.

(** The same batch: its two events come newest first. *)
Lemma touchesChanged_newest_first_witness :
  creationOrdered initialWorld
  ∧ newestFirst
      (eventsOf (touchesChanged silent "topTouchStart"
                   (batch [touch 10 1 0; touch 11 2 0]) initialWorld)).
Proof.
  assert (H : creationOrdered initialWorld) by (split; constructor).
  split; [exact H|].
  apply (touchesChanged_newest_first silent "topTouchStart"
           (batch [touch 10 1 0; touch 11 2 0]) initialWorld _
           (touchesChanged silent "topTouchStart"
              (batch [touch 10 1 0; touch 11 2 0]) initialWorld).2 H).
  vm_compute. reflexivity.
Defined.

(** ** Touches that never started *)

(** C4 as stated fails.  One touch is down on [T2], and an end arrives
    for a touch that never started: the batch processor throws at the
    touch, and so does [extractEvents]; the console stays empty.  Where
    [T2] is the responder, the count of tracked touches has gone down
    before the exception, and the interaction observer has not been told.
    The end of the touch that is down then takes the count below zero and
    is refused as uncounted: its gesture stays active, its entry stays in
    [gesturesByTouch], and [T2] stays the responder. *)
Lemma touchesChanged_untracked_throws :
  let w := childTouched silent in
  let r := touchesChanged silent "topTouchEnd" (batch [touch 11 2 0]) w in
  let r' := extractEvents silent "topTouchEnd" (Some T2) (batch [touch 11 2 0]) w in
  let v := childTouched eager in
  let s := extractEvents eager "topTouchEnd" (Some T2) (batch [touch 11 2 0]) v in
  let s' := extractEvents eager "topTouchEnd" (Some T2) (batch [touch 10 2 1]) s.2 in
  isStartish "topTouchEnd" = false
  ∧ gesturesByTouch w !! 11%Z = None
  ∧ r.1 = Throw (TypeError "changedTouches")
  ∧ console r.2 = []
  ∧ r'.1 = Throw (TypeError "changedTouches")
  ∧ console r'.2 = []
  ∧ cache v = {[2%Z := T2]}
  ∧ activeGestures v = [0]
  ∧ gesturesByTouch v = {[10%Z := 0]}
  ∧ trackedTouchCount v = 1%Z
  ∧ s.1 = Throw (TypeError "changedTouches")
  ∧ console s.2 = []
  ∧ trackedTouchCount s.2 = 0%Z
  ∧ previousActiveTouches s.2 = 1%Z
  ∧ interactionChanges s.2 = interactionChanges v
  ∧ s'.1 = Ok None
  ∧ console s'.2 = [console_error EndedUncountedTouch]
  ∧ trackedTouchCount s'.2 = (-1)%Z
  ∧ cache s'.2 = {[2%Z := T2]}
  ∧ responderChanges s'.2 = responderChanges v
  ∧ activeGestures s'.2 = [0]
  ∧ gesturesByTouch s'.2 = {[10%Z := 0]}.
Proof. vm_compute. split_and!; reflexivity. Qed.

(** A move of the touch that has started on [T2] returns. *)
Lemma touchesChanged_returns_iff_witness :
  isStartish "topTouchMove" = false
  ∧ returns (touchesChanged silent "topTouchMove" (batch [touch 10 2 1])
               (childTouched silent))
  ∧ console (touchesChanged silent "topTouchMove" (batch [touch 10 2 1])
               (childTouched silent)).2
    = console (childTouched silent).
Proof.
  assert (H : isStartish "topTouchMove" = false) by reflexivity.
  split; [exact H|].
  destruct (touchesChanged_returns_iff silent "topTouchMove" (batch [touch 10 2 1])
              (childTouched silent) H) as [Hiff Hconsole].
  split; [|exact Hconsole].
  apply Hiff. split.
  - repeat constructor. unfold tracked. vm_compute. by eexists.
  - intros He. vm_compute in He. discriminate.
Defined.

(** ** A refused transfer *)

(** The child is the responder and refuses to let go: the parent, which
    has won the vote, is told so, and the child stays the responder. *)
Lemma termination_refused_witness :
  let w := childTouched stubborn in
  let r := setResponderAndExtractTransfer stubborn "topTouchStart" T2
             (gestureEventOf 2 0) w in
  ResponderCache.findAncestor stubborn (ResponderCache.InstTarget (Some T2)) w = Some T2
  ∧ firstTrue (voteDispatches stubborn "topTouchStart" (Some T2) T2) = Some T1
  ∧ getListener stubborn T2 "onResponderTerminationRequest" = Some (JBool false)
  ∧ truthy (JBool false) = false
  ∧ r.1 = Some [rejectEvent stubborn T1 (gestureEventOf 2 0)]
  ∧ cache r.2 = cache w
  ∧ responderChanges r.2 = responderChanges w
  ∧ dispatched r.2
    = dispatched w
      ++ calledUntilTrue (voteDispatches stubborn "topTouchStart" (Some T2) T2)
      ++ [mkDispatch T2 "onResponderTerminationRequest" (JBool false)].
Proof.
  intros w r.
  assert (H1 : ResponderCache.findAncestor stubborn
                 (ResponderCache.InstTarget (Some T2)) w = Some T2)
    by (vm_compute; reflexivity).
  assert (H2 : firstTrue (voteDispatches stubborn "topTouchStart" (Some T2) T2) = Some T1)
    by (vm_compute; reflexivity).
  assert (H3 : getListener stubborn T2 "onResponderTerminationRequest" = Some (JBool false))
    by (vm_compute; reflexivity).
  assert (H4 : truthy (JBool false) = false) by reflexivity.
  split; [exact H1|]. split; [exact H2|]. split; [exact H3|]. split; [exact H4|].
  exact (termination_refused stubborn "topTouchStart" T2 (gestureEventOf 2 0) w
           T2 T1 (JBool false) H1 H2 H3 H4).
Defined.

(** ** A responder without a say *)

(** The child is the responder and has no listener for the termination
    request: the parent takes over as if the child had agreed. *)
Lemma no_listener_is_approval_witness :
  let w := childTouched indifferent in
  let approving :=
    withListener indifferent T2 "onResponderTerminationRequest" (JBool true) in
  let r := setResponderAndExtractTransfer indifferent "topTouchStart" T2
             (gestureEventOf 2 0) w in
  let r' := setResponderAndExtractTransfer approving "topTouchStart" T2
              (gestureEventOf 2 0) w in
  let votes := voteDispatches indifferent "topTouchStart" (Some T2) T2 in
  ResponderCache.findAncestor indifferent (ResponderCache.InstTarget (Some T2)) w
    = Some T2
  ∧ getListener indifferent T2 "onResponderTerminationRequest" = None
  ∧ r.1 = r'.1
  ∧ forget r.2 = forget r'.2
  ∧ ∀ next,
      firstTrue votes = Some next →
      r.1 = Some [GesturePropagators.accumulateDescendantDispatches indifferent T2 next
                    (createEvent gestureEnd (Some next) (gestureEventOf 2 0))]
      ∧ cache r.2
        = <[getTagFromInstance next := next]>
            (delete (getTagFromInstance T2) (cache w))
      ∧ responderChanges r.2
        = responderChanges w
          ++ [mkChange (Some T2) None None;
              mkChange None (Some next)
                (Some (strictlyTrue
                         (default JUndefined
                            (getListener indifferent next "onResponderGrant"))))]
      ∧ dispatched r.2
        = dispatched w ++ calledUntilTrue votes
          ++ listenerOf indifferent "onResponderTerminate" T2
          ++ listenerOf indifferent "onResponderGrant" next
      ∧ dispatched r'.2
        = dispatched w ++ calledUntilTrue votes
          ++ [mkDispatch T2 "onResponderTerminationRequest" (JBool true)]
          ++ listenerOf indifferent "onResponderTerminate" T2
          ++ listenerOf indifferent "onResponderGrant" next.
Proof.
  intros w approving r r' votes.
  assert (H1 : ResponderCache.findAncestor indifferent
                 (ResponderCache.InstTarget (Some T2)) w = Some T2)
    by (vm_compute; reflexivity).
  assert (H2 : getListener indifferent T2 "onResponderTerminationRequest" = None)
    by (vm_compute; reflexivity).
  split; [exact H1|]. split; [exact H2|].
  exact (no_listener_is_approval indifferent "topTouchStart" T2 (gestureEventOf 2 0) w
           T2 H1 H2).
Defined.

(** ** A touch on the child of the responder *)

(** C2 as stated fails.  The parent [T1] is the responder and a touch
    starts at its child [T2], whose vote handler returns true and whose
    parent agrees to let go.  The touch is filed under the gesture of
    [T1], the vote is held at [T1] and skips it, so the handler of [T2] is
    not called: [T1] stays the responder, and the only event is its
    [responderStart]. *)
Lemma descendant_does_not_take_over :
  let w := parentResponds in
  let r := extractEvents eager "topTouchStart" (Some T2) (batch [touch 11 2 0]) w in
  cache w = {[1%Z := T1]}
  ∧ getListener eager T2 "onStartShouldSetResponder" = Some (JBool true)
  ∧ getListener eager T1 "onResponderTerminationRequest" = Some (JBool true)
  ∧ (∃ event,
        r.1 = Ok (Some [EventPropagators.accumulateDirectDispatches eager
                          (createEvent responderStart (Some T1) event)]))
  ∧ cache r.2 = cache w
  ∧ responderChanges r.2 = responderChanges w
  ∧ dispatched r.2 = dispatched w
  ∧ trackedTouchCount r.2 = (trackedTouchCount w + 1)%Z
  ∧ interactionChanges r.2 = interactionChanges w ++ [2%Z].
Proof. split_and!; [| | |eexists|..]; vm_compute; reflexivity. Qed.

(** The same run: the parent stays the responder, and only its
    [responderStart] is returned. *)
Lemma touch_below_responder_witness :
  let w := parentResponds in
  let r := extractEvents eager "topTouchStart" (Some T2) (batch [touch 11 2 0]) w in
  (isStartish "topTouchStart" = true
   ∧ is_Some (TouchEvent.touches (batch [touch 11 2 0]))
   ∧ getInstanceFromTag eager 2 = Some T2
   ∧ ResponderCache.findAncestor eager (ResponderCache.InstTarget (Some T2)) w
     = Some T1
   ∧ T2 ≠ T1
   ∧ getInstanceFromTag eager 1 = Some T1
   ∧ getListener eager T2 "onStartShouldSetResponder" = Some (JBool true)
   ∧ getListener eager T1 "onResponderTerminationRequest" = Some (JBool true)
   ∧ firstTrue (voteDispatches eager "topTouchStart" (Some T1) T1) = None
   ∧ creationOrdered w ∧ targetIndexed w
   ∧ previousActiveTouches w = trackedTouchCount w)
  ∧ ∃ event called,
      GestureEvent.target event = 1%Z
      ∧ gesturesByTouch r.2 = <[11%Z := GestureEvent.gesture event]> (gesturesByTouch w)
      ∧ Gesture.target (deref (GestureEvent.gesture event) r.2) = 1%Z
      ∧ GestureEvent.touches event
        = values (Gesture.touchMap (deref (GestureEvent.gesture event) r.2))
      ∧ r.1 = Ok (Some
          [EventPropagators.accumulateDirectDispatches eager
             (createEvent responderStart (Some T1) event)])
      ∧ dispatched r.2 = dispatched w ++ called
      ∧ called
        = (if bool_decide (length (GestureEvent.touches event) = 1)
           then rev (pathToRoot T1) ≫= listenerOf eager "onGestureStart"
           else [])
          ++ voteDispatches eager "topTouchStart" (Some T1) T1
      ∧ Forall (λ d, dispatchInstance d ∈ pathToRoot T1
                     ∧ dispatchInstance d ≠ T2
                     ∧ registrationName d
                       ∈ ["onGestureStart"; "onStartShouldSetResponderCapture";
                          "onStartShouldSetResponder"])
          called
      ∧ cache r.2 = cache w
      ∧ responderChanges r.2 = responderChanges w
      ∧ trackedTouchCount r.2 = (trackedTouchCount w + 1)%Z
      ∧ interactionChanges r.2 = interactionChanges w ++ [(trackedTouchCount w + 1)%Z].
Proof.
  intros w r.
  assert (H1 : isStartish "topTouchStart" = true) by reflexivity.
  assert (H2 : is_Some (TouchEvent.touches (batch [touch 11 2 0]))) by (by eexists).
  assert (H3 : TouchEvent.changedTouches (batch [touch 11 2 0]) = [touch 11 2 0])
    by reflexivity.
  assert (H4 : getInstanceFromTag eager (Touch.target (touch 11 2 0)) = Some T2)
    by (vm_compute; reflexivity).
  assert (H5 : ResponderCache.findAncestor eager
                 (ResponderCache.InstTarget (Some T2)) w = Some T1)
    by (vm_compute; reflexivity).
  assert (H6 : T2 ≠ T1) by discriminate.
  assert (H7 : getInstanceFromTag eager (getTagFromInstance T1) = Some T1)
    by (vm_compute; reflexivity).
  assert (H8 : firstTrue (voteDispatches eager "topTouchStart" (Some T1) T1) = None)
    by (vm_compute; reflexivity).
  assert (H9 : creationOrdered w) by (apply (bool_decide_unpack _); vm_compute; exact I).
  assert (H10 : targetIndexed w) by (apply (bool_decide_unpack _); vm_compute; exact I).
  assert (H11 : GlobalInteractionHandler eager = true) by reflexivity.
  assert (H12 : previousActiveTouches w = trackedTouchCount w) by (vm_compute; reflexivity).
  split; [split_and!; try done; vm_compute; reflexivity|].
  exact (touch_below_responder eager "topTouchStart" (Some T2) (batch [touch 11 2 0])
           (touch 11 2 0) w T1 T2 H1 H2 H3 H4 H5 H6 H7 H8 H9 H10 H11 H12).
Defined.

(** The child is the responder, a second touch starts on it, and the
    parent takes over. *)
Lemma transfer_to_ancestor_witness :
  let w := childTouched eager in
  let r := extractEvents eager "topTouchStart" (Some T2) (batch [touch 11 2 0]) w in
  (isStartish "topTouchStart" = true
   ∧ is_Some (TouchEvent.touches (batch [touch 11 2 0]))
   ∧ getInstanceFromTag eager 2 = Some T2
   ∧ is_Some (cache w !! 2%Z)
   ∧ firstTrue (voteDispatches eager "topTouchStart" (Some T2) T2) = Some T1
   ∧ getListener eager T2 "onResponderTerminationRequest" = Some (JBool true)
   ∧ creationOrdered w ∧ targetIndexed w
   ∧ previousActiveTouches w = trackedTouchCount w)
  ∧ ∃ event,
      GestureEvent.target event = 2%Z
      ∧ GestureEvent.touches event
        = values (<[11%Z := touch 11 2 0]>
                    (Gesture.touchMap (deref (GestureEvent.gesture event) w)))
      ∧ r.1 = Ok (Some
          [GesturePropagators.accumulateDescendantDispatches eager T2 T1
             (createEvent gestureEnd (Some T1) event);
           EventPropagators.accumulateDirectDispatches eager
             (createEvent responderStart (Some T1) event)])
      ∧ dispatched r.2
        = dispatched w
          ++ (if bool_decide (length (GestureEvent.touches event) = 1)
              then rev (pathToRoot T2) ≫= listenerOf eager "onGestureStart"
              else [])
          ++ calledUntilTrue (voteDispatches eager "topTouchStart" (Some T2) T2)
          ++ [mkDispatch T2 "onResponderTerminationRequest" (JBool true)]
          ++ listenerOf eager "onResponderTerminate" T2
          ++ listenerOf eager "onResponderGrant" T1
      ∧ trackedTouchCount r.2 = (trackedTouchCount w + 1)%Z
      ∧ interactionChanges r.2 = interactionChanges w ++ [(trackedTouchCount w + 1)%Z]
      ∧ cache r.2 = <[getTagFromInstance T1 := T1]> (delete 2%Z (cache w))
      ∧ responderChanges r.2
        = responderChanges w
          ++ [mkChange (Some T2) None None;
              mkChange None (Some T1)
                (Some (strictlyTrue
                         (default JUndefined (getListener eager T1 "onResponderGrant"))))].
Proof.
  intros w r.
  assert (H1 : isStartish "topTouchStart" = true) by reflexivity.
  assert (H2 : is_Some (TouchEvent.touches (batch [touch 11 2 0]))) by (by eexists).
  assert (H3 : TouchEvent.changedTouches (batch [touch 11 2 0]) = [touch 11 2 0])
    by reflexivity.
  assert (H4 : Touch.target (touch 11 2 0) = 2%Z) by reflexivity.
  assert (H5 : getInstanceFromTag eager 2 = Some T2) by (vm_compute; reflexivity).
  assert (H6 : getTagFromInstance T1 ≠ 2%Z) by (vm_compute; discriminate).
  assert (H7 : is_Some (cache w !! 2%Z)) by (vm_compute; by eexists).
  assert (H8 : firstTrue (voteDispatches eager "topTouchStart" (Some T2) T2) = Some T1)
    by (vm_compute; reflexivity).
  assert (H9 : getListener eager T2 "onResponderTerminationRequest" = Some (JBool true))
    by (vm_compute; reflexivity).
  assert (H10 : truthy (JBool true) = true) by reflexivity.
  assert (H11 : creationOrdered w) by (apply (bool_decide_unpack _); vm_compute; exact I).
  assert (H12 : targetIndexed w) by (apply (bool_decide_unpack _); vm_compute; exact I).
  assert (H13 : GlobalInteractionHandler eager = true) by reflexivity.
  assert (H14 : previousActiveTouches w = trackedTouchCount w) by (vm_compute; reflexivity).
  split; [by split_and!|].
  exact (transfer_to_ancestor eager "topTouchStart" (Some T2) (batch [touch 11 2 0])
           (touch 11 2 0) w 2 T1 (JBool true)
           H1 H2 H3 H4 H5 H6 H7 H8 H9 H10 H11 H12 H13 H14).
Defined.

(** ** The removal of gestures *)

(** C9 as stated fails.  Two gestures are active and the parent [T1] is
    the responder; the touch of the child's gesture moves.  The move makes
    the plugin hand the child's gesture to the responder, whose own
    gesture absorbs it: the child's gesture leaves [activeGestures] and
    [gesturesByTarget] during a move, with one active touch in its
    history, and its touch now leads to the gesture of the parent. *)
Lemma gesture_removed_during_move :
  let w := twoGestures in
  let r := extractEvents claimsOnMove "topTouchMove" (Some T2) (batch [touch 10 2 1]) w in
  isEndish "topTouchMove" = false
  ∧ activeGestures w = [0; 1]
  ∧ gesturesByTarget w !! 2%Z = Some 0
  ∧ gesturesByTouch w !! 10%Z = Some 0
  ∧ returns r
  ∧ activeGestures r.2 = [1]
  ∧ gesturesByTarget r.2 !! 2%Z = None
  ∧ gesturesByTouch r.2 !! 10%Z = Some 1
  ∧ TouchHistory.numberActiveTouches (Gesture.touchHistory (deref 0 r.2)) = 1%Z.
Proof. vm_compute. split_and!; done. Qed.

(** C9, amended to what [touchesChanged] does by itself.  A gesture that
    was active before a batch is missing from [activeGestures] afterwards
    exactly when the batch is end-like, the gesture has changed touches and
    its touch history reports zero active touches; its entry of
    [gesturesByTarget] is then gone too, and no gesture leaves in a batch
    that is not end-like.  One touch that starts a new gesture and then
    ends takes the gesture out of [activeGestures], [gesturesByTarget] and
    [gesturesByTouch]. *)
Theorem gesture_removed_by_end_batch env :
  (∀ topLevelType nativeEvent w events w',
     creationOrdered w →
     touchesChanged env topLevelType nativeEvent w = (Ok events, w') →
     ∀ g, g ∈ activeGestures w →
       (g ∉ activeGestures w'
        ↔ isEndish topLevelType = true
          ∧ hasChanged w' g
          ∧ TouchHistory.numberActiveTouches (Gesture.touchHistory (deref g w')) = 0%Z)
       ∧ (g ∉ activeGestures w'
          → gesturesByTarget w' !! Gesture.target (deref g w') = None)
       ∧ (isEndish topLevelType = false → g ∈ activeGestures w'))
  ∧ (∀ startType endType ne1 ne2 touch touch' w,
       isStartish startType = true → isEndish endType = true →
       TouchEvent.changedTouches ne1 = [touch] →
       TouchEvent.changedTouches ne2 = [touch'] →
       Touch.identifier touch' = Touch.identifier touch →
       creationOrdered w → refsBelow w →
       gesturesByTarget w !! gestureTarget env touch w = None →
       ∃ g event1 w1 event2 w2,
         touchesChanged env startType ne1 w = (Ok [event1], w1)
         ∧ touchesChanged env endType ne2 w1 = (Ok [event2], w2)
         ∧ GestureEvent.gesture event1 = g ∧ GestureEvent.gesture event2 = g
         ∧ g ∈ activeGestures w1
         ∧ gesturesByTarget w1 !! gestureTarget env touch w = Some g
         ∧ gesturesByTouch w1 !! Touch.identifier touch = Some g
         ∧ (g ∉ activeGestures w2)
         ∧ gesturesByTarget w2 !! gestureTarget env touch w = None
         ∧ (∀ identifier, gesturesByTouch w2 !! identifier ≠ Some g)).
Proof.
  split.
  - intros topLevelType nativeEvent w events w' Hw Hrun g Hg.
    destruct (gesture_removed_iff _ _ _ _ _ _ Hw Hrun g Hg) as [Hiff Htarget].
    split_and!; [done..|].
    intros He. destruct (decide (g ∈ activeGestures w')) as [|Hn]; [done|].
    apply Hiff in Hn as [Hn _]. congruence.
  - apply start_then_end.
Qed.

(** The touch on [T2] ends, and its gesture is removed; from the initial
    state, the touch starts and ends. *)
Lemma gesture_removed_by_end_batch_witness :
  let w := childTouched silent in
  let r := touchesChanged silent "topTouchEnd" (batch [touch 10 2 1]) w in
  (creationOrdered w ∧ r = (Ok (eventsOf r), r.2) ∧ 0 ∈ activeGestures w)
  ∧ ((0 ∉ activeGestures r.2
      ↔ isEndish "topTouchEnd" = true
        ∧ hasChanged r.2 0
        ∧ TouchHistory.numberActiveTouches (Gesture.touchHistory (deref 0 r.2)) = 0%Z)
     ∧ (0 ∉ activeGestures r.2
        → gesturesByTarget r.2 !! Gesture.target (deref 0 r.2) = None)
     ∧ (isEndish "topTouchEnd" = false → 0 ∈ activeGestures r.2))
  ∧ (isStartish "topTouchStart" = true ∧ isEndish "topTouchEnd" = true
     ∧ creationOrdered initialWorld ∧ refsBelow initialWorld
     ∧ gesturesByTarget initialWorld !! gestureTarget silent (touch 10 2 0) initialWorld
       = None)
  ∧ ∃ g event1 w1 event2 w2,
      touchesChanged silent "topTouchStart" (batch [touch 10 2 0]) initialWorld
      = (Ok [event1], w1)
      ∧ touchesChanged silent "topTouchEnd" (batch [touch 10 2 1]) w1 = (Ok [event2], w2)
      ∧ GestureEvent.gesture event1 = g ∧ GestureEvent.gesture event2 = g
      ∧ g ∈ activeGestures w1
      ∧ gesturesByTarget w1 !! gestureTarget silent (touch 10 2 0) initialWorld = Some g
      ∧ gesturesByTouch w1 !! Touch.identifier (touch 10 2 0) = Some g
      ∧ (g ∉ activeGestures w2)
      ∧ gesturesByTarget w2 !! gestureTarget silent (touch 10 2 0) initialWorld = None
      ∧ (∀ identifier, gesturesByTouch w2 !! identifier ≠ Some g).
Proof.
  intros w r.
  assert (H1 : creationOrdered w) by (apply (bool_decide_unpack _); vm_compute; exact I).
  assert (H2 : r = (Ok (eventsOf r), r.2)) by (vm_compute; reflexivity).
  assert (H3 : 0 ∈ activeGestures w) by (apply (bool_decide_unpack _); vm_compute; exact I).
  assert (S1 : isStartish "topTouchStart" = true) by reflexivity.
  assert (S2 : isEndish "topTouchEnd" = true) by reflexivity.
  assert (S3 : creationOrdered initialWorld)
    by (apply (bool_decide_unpack _); vm_compute; exact I).
  assert (S4 : refsBelow initialWorld)
    by (apply (bool_decide_unpack _); vm_compute; exact I).
  assert (S5 : gesturesByTarget initialWorld
               !! gestureTarget silent (touch 10 2 0) initialWorld = None)
    by (vm_compute; reflexivity).
  split; [by split_and!|].
  split; [exact (proj1 (gesture_removed_by_end_batch silent) "topTouchEnd"
                   (batch [touch 10 2 1]) w (eventsOf r) r.2 H1 H2 0 H3)|].
  split; [by split_and!|].
  exact (proj2 (gesture_removed_by_end_batch silent) "topTouchStart" "topTouchEnd"
           (batch [touch 10 2 0]) (batch [touch 10 2 1]) (touch 10 2 0) (touch 10 2 1)
           initialWorld S1 S2 eq_refl eq_refl eq_refl S3 S4 S5).
Defined.

(** * More of the code

    Further properties of the four modules, beyond those above. *)

(** ** What the gesture cache leaves alone *)

Lemma outside_update g f w : outsideGestures (update g f w) = outsideGestures w.
Proof. reflexivity. Qed.

Lemma outside_clear w : outsideGestures (clearChangedTouches w) = outsideGestures w.
Proof. by rewrite clearChangedTouches_fold. Qed.

Lemma outside_attach env touch w :
  outsideGestures (attachGesture env touch w).2 = outsideGestures w.
Proof. unfold attachGesture. by destruct (gesturesByTarget w !! _). Qed.

Lemma outside_rebuild env type touch w :
  outsideGestures (rebuildChangedTouches env type touch w).2 = outsideGestures w.
Proof.
  unfold rebuildChangedTouches. destruct (isStartish type).
  - pose proof (outside_attach env touch w) as H.
    destruct (attachGesture env touch w) as [g w1]. simpl in *.
    by destruct (negb _).
  - destruct (gesturesByTouch w !! _); [|done]. by destruct (negb _).
Qed.

Lemma outside_detach touch w :
  outsideGestures (detachTouch touch w).2 = outsideGestures w.
Proof. unfold detachTouch. by destruct (gesturesByTouch w !! _). Qed.

Lemma outside_visit type ne g events w :
  outsideGestures (visitGesture type ne g events w).2 = outsideGestures w.
Proof.
  unfold visitGesture. destruct (Gesture.changedTouches _); [done|].
  simpl. by case_match.
Qed.

Lemma outside_loop type ne n :
  ∀ events w,
    outsideGestures (changedGestureEvents type ne n events w).2 = outsideGestures w.
Proof.
  induction n as [|i IH]; intros events w; simpl; [done|].
  destruct (activeGestures w !! i) as [g|]; [|done].
  pose proof (outside_visit type ne g events w) as H.
  destruct (visitGesture _ _ _ _ _) as [events1 w1]. rewrite IH. exact H.
Qed.

Lemma touchesChanged_outside env topLevelType nativeEvent w :
  outsideGestures (touchesChanged env topLevelType nativeEvent w).2 = outsideGestures w.
Proof.
  rewrite touchesChanged_unfold.
  pose proof (forEach_preserves (λ w', outsideGestures w' = outsideGestures w)
    (rebuildChangedTouches env topLevelType) (TouchEvent.changedTouches nativeEvent)
    (clearChangedTouches w)
    (λ x w' H, eq_trans (outside_rebuild env topLevelType x w') H)
    (outside_clear w)) as H1.
  destruct (forEach _ _ _) as [[[]|e] w1]; [|done]. simpl in H1.
  destruct (isEndish topLevelType).
  - pose proof (forEach_preserves (λ w', outsideGestures w' = outsideGestures w)
      detachTouch (TouchEvent.changedTouches nativeEvent) w1
      (λ x w' H, eq_trans (outside_detach x w') H) H1) as H2.
    destruct (forEach _ detachTouch w1) as [[[]|e] w2]; [|done].
    simpl in H2. by rewrite outside_loop.
  - simpl. by rewrite outside_loop.
Qed.

(** * Invariants of the plugin

    A property of the state that the primitive steps of the plugin keep is
    kept by [extractEvents], whatever its outcome, and holds in every
    state that the plugin reaches. *)

Section PluginInvariant.
Variable env : Env.
Variable P : World → Prop.
Hypothesis P_call : ∀ d w, P w → P (call d w).
Hypothesis P_grant : ∀ inst block w, P w → P (ResponderCache.grant inst block w).
Hypothesis P_release : ∀ inst w, P w → P (ResponderCache.release inst w).
Hypothesis P_targetChanged : ∀ type o n w, P w → P (targetChanged type o n w).
Hypothesis P_touchesChanged : ∀ type ne w, P w → P (touchesChanged env type ne w).2.
Hypothesis P_count : ∀ f w, P w → P (set_trackedTouchCount f w).
Hypothesis P_console : ∀ f w, P w → P (set_console f w).
Hypothesis P_report : ∀ w, P w → P (reportInteraction env w).

Lemma invariant_stopAtTrue ds : ∀ w, P w → P (stopAtTrue ds w).2.
Proof using P_call.
  induction ds as [|d ds IH]; intros w Hw; simpl; [done|].
  destruct (truthy _); simpl; [|apply IH]; by apply P_call.
Qed.

Lemma invariant_executeDirectDispatch event w :
  P w → P (executeDirectDispatch event w).2.
Proof using P_call.
  intros Hw. unfold executeDirectDispatch.
  destruct (dispatches event); simpl; [done|by apply P_call].
Qed.

Lemma invariant_executeDispatchesInOrder event w :
  P w → P (executeDispatchesInOrder event w).
Proof using P_call.
  unfold executeDispatchesInOrder. revert w.
  induction (dispatches event) as [|d ds IH]; intros w Hw; simpl; [done|].
  by apply IH, P_call.
Qed.

Lemma invariant_grantResponder type targetInst nextInst ne w :
  P w → P (grantResponder env type targetInst nextInst ne w).2.
Proof using P_call P_grant P_targetChanged.
  intros Hw. unfold grantResponder.
  case_decide.
  - pose proof (invariant_executeDirectDispatch
      (EventPropagators.accumulateDirectDispatches env
         (createEvent responderGrant (Some nextInst) ne))
      (targetChanged type targetInst nextInst w)
      (P_targetChanged _ _ _ _ Hw)) as H1.
    destruct (executeDirectDispatch _ _) as [result w1]. simpl in *.
    by apply P_grant.
  - pose proof (invariant_executeDirectDispatch
      (EventPropagators.accumulateDirectDispatches env
         (createEvent responderGrant (Some nextInst) ne)) w Hw) as H1.
    destruct (executeDirectDispatch _ _) as [result w1]. simpl in *.
    by apply P_grant.
Qed.

Lemma invariant_setResponderAndExtractTransfer type targetInst ne w :
  P w → P (setResponderAndExtractTransfer env type targetInst ne w).2.
Proof using P_call P_grant P_release P_targetChanged.
  intros Hw. unfold setResponderAndExtractTransfer.
  destruct (ResponderCache.findAncestor _ _ _) as [current|].
  - set (tw := if decide (current ≠ targetInst) then _ else _).
    assert (Htw : P tw.2).
    { unfold tw. case_decide; simpl; [by apply P_targetChanged|done]. }
    destruct tw as [target w1]. simpl in Htw.
    unfold executeDispatchesInOrderStopAtTrue.
    pose proof (invariant_stopAtTrue
      (dispatches (EventPropagators.accumulateTwoPhaseDispatchesSkipTarget env
         (createEvent (shouldSetEventType type) (Some target) ne))) w1 Htw) as H2.
    destruct (stopAtTrue _ _) as [[next|] w2]; simpl in H2; [|done].
    set (event := EventPropagators.accumulateDirectDispatches env
                    (createEvent responderTerminationRequest (Some current) ne)).
    destruct (hasDispatches event); simpl.
    + pose proof (invariant_executeDirectDispatch event w2 H2) as H3.
      destruct (executeDirectDispatch event w2) as [result w3]. simpl in H3.
      destruct (truthy result); simpl; [|done].
      apply invariant_grantResponder.
      case_match; [apply invariant_executeDirectDispatch|]; by apply P_release.
    + apply invariant_grantResponder.
      case_match; [apply invariant_executeDirectDispatch|]; by apply P_release.
  - unfold executeDispatchesInOrderStopAtTrue.
    pose proof (invariant_stopAtTrue
      (dispatches (EventPropagators.accumulateTwoPhaseDispatches env
         (createEvent (shouldSetEventType type) (Some targetInst) ne))) w Hw) as H2.
    destruct (stopAtTrue _ _) as [[next|] w2]; simpl in H2; [|done].
    by apply invariant_grantResponder.
Qed.

Lemma invariant_extractResponderEvents type targetInst ne extracted w :
  P w → P (extractResponderEvents env type targetInst ne extracted w).2.
Proof using P_release.
  intros Hw. unfold extractResponderEvents.
  repeat case_match; simpl; try done; by apply P_release.
Qed.

Lemma invariant_extractTouchEvents type targetInst ne w :
  P w → P (extractTouchEvents env type targetInst ne w).2.
Proof using P_call P_grant P_release P_targetChanged.
  intros Hw. unfold extractTouchEvents.
  destruct (canTriggerTransfer _ _ _ _); [|by apply invariant_extractResponderEvents].
  destruct targetInst as [inst|]; [|by apply invariant_extractResponderEvents].
  pose proof (invariant_setResponderAndExtractTransfer type inst ne w Hw) as H.
  destruct (setResponderAndExtractTransfer _ _ _ _ _) as [extracted w1].
  by apply invariant_extractResponderEvents.
Qed.

Lemma invariant_extractGestureEvents type event extracted w :
  P w → P (extractGestureEvents env type event extracted w).2.
Proof using P_call P_grant P_release P_targetChanged.
  intros Hw. unfold extractGestureEvents.
  set (w1 := if _ && _ then _ else w).
  assert (H1 : P w1).
  { unfold w1. case_match; [by apply invariant_executeDispatchesInOrder|done]. }
  clearbody w1.
  pose proof (invariant_extractTouchEvents type
    (getInstanceFromTag env (GestureEvent.target event)) event w1 H1) as H2.
  by destruct (extractTouchEvents _ _ _ _ _) as [touchEvents w2].
Qed.

Lemma invariant_forEachGesture type events :
  ∀ extracted w, P w → P (forEachGesture env type events extracted w).2.
Proof using P_call P_grant P_release P_targetChanged.
  induction events as [|event events IH]; intros extracted w Hw; simpl; [done|].
  pose proof (invariant_extractGestureEvents type event extracted w Hw) as H.
  destruct (extractGestureEvents _ _ _ _ _) as [extracted1 w1]. by apply IH.
Qed.

Lemma invariant_extractEvents type targetInst ne w :
  P w → P (extractEvents env type targetInst ne w).2.
Proof using All.
  intros Hw. unfold extractEvents.
  destruct (TouchEvent.touches ne); [|by apply P_console].
  set (w1 := if isStartish type then _ else _).
  assert (H1 : P w1).
  { unfold w1. repeat case_match; try done; by apply P_count. }
  clearbody w1.
  case_match; [by apply P_console|].
  unfold bind.
  pose proof (P_touchesChanged type ne w1 H1) as H2.
  destruct (touchesChanged env type ne w1) as [[events|e] w2]; [|done].
  pose proof (invariant_forEachGesture type events None w2 H2) as H3.
  destruct (forEachGesture _ _ _ _ _) as [extracted w3].
  by apply P_report.
Qed.

Lemma invariant_reachable w : P initialWorld → reachable env w → P w.
Proof using All.
  intros H0. induction 1; [done|by apply invariant_extractEvents].
Qed.

End PluginInvariant.

(** ** The observer of the registry sees every change *)

Lemma outside_inv w w' :
  outsideGestures w' = outsideGestures w →
  cache w' = cache w ∧ responderChanges w' = responderChanges w
  ∧ trackedTouchCount w' = trackedTouchCount w
  ∧ previousActiveTouches w' = previousActiveTouches w
  ∧ interactionChanges w' = interactionChanges w
  ∧ dispatched w' = dispatched w ∧ console w' = console w.
Proof. unfold outsideGestures. intros [= -> -> -> -> -> -> ->]. done. Qed.

(** X4.  Whatever its outcome, [touchesChanged] changes nothing outside the
    gesture cache: the registry, the counters of the plugin, both
    observers, the listeners called and the console are left alone. *)
Theorem touchesChanged_frame env topLevelType nativeEvent w :
  let w' := (touchesChanged env topLevelType nativeEvent w).2 in
  cache w' = cache w ∧ responderChanges w' = responderChanges w
  ∧ trackedTouchCount w' = trackedTouchCount w
  ∧ previousActiveTouches w' = previousActiveTouches w
  ∧ interactionChanges w' = interactionChanges w
  ∧ dispatched w' = dispatched w ∧ console w' = console w.
Proof. apply outside_inv, touchesChanged_outside. Qed.

Lemma replay_snoc changes c : replay (changes ++ [c]) = replayChange (replay changes) c.
Proof. unfold replay. by rewrite foldl_app. Qed.

Lemma reportInteraction_registry env w :
  cache (reportInteraction env w) = cache w
  ∧ responderChanges (reportInteraction env w) = responderChanges w.
Proof. unfold reportInteraction. by case_match. Qed.

(** X2.  In every state that the plugin reaches, the registry is what the calls
    received by [ResponderCache.globalHandler] add up to: no responder is
    granted or released behind the back of the observer. *)
Theorem registry_replayed env w :
  reachable env w → cache w = replay (responderChanges w).
Proof.
  apply (invariant_reachable env (λ w, cache w = replay (responderChanges w))).
  - done.
  - intros inst block w0 H. unfold ResponderCache.grant, ResponderCache.onChange. simpl.
    by rewrite replay_snoc, <- H.
  - intros inst w0 H. unfold ResponderCache.release, ResponderCache.onChange. simpl.
    by rewrite replay_snoc, <- H.
  - intros type o n w0 H. by rewrite targetChanged_cache, targetChanged_responderChanges.
  - intros type ne w0 H.
    destruct (outside_inv _ _ (touchesChanged_outside env type ne w0)) as (-> & -> & _).
    done.
  - done.
  - done.
  - intros w0 H. destruct (reportInteraction_registry env w0) as [-> ->]. done.
  - done.
Qed.

Lemma registry_replayed_witness :
  reachable eager (childTouched eager)
  ∧ cache (childTouched eager) = replay (responderChanges (childTouched eager)).
Proof.
  assert (H : reachable eager (childTouched eager)).
  { apply reachable_extractEvents, reachable_initial. }
  split; [exact H|]. exact (registry_replayed eager (childTouched eager) H).
Defined.

(** ** The observer of the interaction *)

Lemma noRepeat_snoc l : ∀ previous x,
  noRepeat previous (l ++ [x]) ↔ noRepeat previous l ∧ x ≠ default previous (last l).
Proof.
  induction l as [|y l IH]; intros previous x; simpl; [tauto|].
  rewrite IH. destruct l as [|z l]; simpl; [tauto|].
  rewrite !last_cons. destruct (last l); simpl; tauto.
Qed.

Lemma last_snoc_default {A} (l : list A) x d : default d (last (l ++ [x])) = x.
Proof. by rewrite last_snoc. Qed.

(** X3.  With an interaction handler injected, the handler is never told the
    same number of touches twice in a row, the first number it is told is
    not zero, and [previousActiveTouches] is the last number it was told. *)
Theorem interaction_never_repeated env w :
  GlobalInteractionHandler env = true →
  reachable env w →
  noRepeat 0 (interactionChanges w)
  ∧ previousActiveTouches w = default 0%Z (last (interactionChanges w)).
Proof.
  intros Hh.
  apply (invariant_reachable env
    (λ w, noRepeat 0 (interactionChanges w)
          ∧ previousActiveTouches w = default 0%Z (last (interactionChanges w)))).
  - done.
  - done.
  - done.
  - intros type o n w0 H.
    by rewrite targetChanged_interactionChanges, targetChanged_previousActiveTouches.
  - intros type ne w0 H.
    destruct (outside_inv _ _ (touchesChanged_outside env type ne w0))
      as (_ & _ & _ & -> & -> & _).
    done.
  - done.
  - done.
  - intros w0 [Hn Hp]. unfold reportInteraction. rewrite Hh. simpl.
    case_bool_decide as E; simpl.
    + split; [done|]. rewrite <- Hp. by symmetry.
    + rewrite last_snoc_default. split; [|done].
      apply noRepeat_snoc. split; [done|]. by rewrite <- Hp.
  - done.
Qed.

Lemma interaction_never_repeated_witness :
  (GlobalInteractionHandler eager = true ∧ reachable eager (childTouched eager))
  ∧ noRepeat 0 (interactionChanges (childTouched eager))
  ∧ previousActiveTouches (childTouched eager)
    = default 0%Z (last (interactionChanges (childTouched eager))).
Proof.
  assert (H1 : GlobalInteractionHandler eager = true) by reflexivity.
  assert (H2 : reachable eager (childTouched eager)).
  { apply reachable_extractEvents, reachable_initial. }
  split; [by split|]. exact (interaction_never_repeated eager (childTouched eager) H1 H2).
Defined.

(** ** The count of tracked touches *)

Lemma forEachGesture_trackedTouchCount env type events extracted w :
  trackedTouchCount (forEachGesture env type events extracted w).2
  = trackedTouchCount w.
Proof.
  apply (invariant_forEachGesture env
           (λ w', trackedTouchCount w' = trackedTouchCount w)); [done..| |done].
  intros type0 o n w0 H. by rewrite targetChanged_trackedTouchCount.
Qed.

(** X5.  [extractEvents] settles the count of tracked touches before anything
    else: a start-like event adds the number of its changed touches, an
    end-like event takes it away, and this stands whatever happens next,
    also when the end is then rejected as uncounted or when the batch
    throws.  An event without [touches] leaves the count alone. *)
Theorem extractEvents_trackedTouchCount env topLevelType targetInst nativeEvent w :
  let changed := Z.of_nat (length (TouchEvent.changedTouches nativeEvent)) in
  trackedTouchCount (extractEvents env topLevelType targetInst nativeEvent w).2
  = match TouchEvent.touches nativeEvent with
    | None => trackedTouchCount w
    | Some _ =>
        if isStartish topLevelType then (trackedTouchCount w + changed)%Z
        else if isEndish topLevelType then (trackedTouchCount w - changed)%Z
        else trackedTouchCount w
    end.
Proof.
  intros changed. unfold extractEvents.
  destruct (TouchEvent.touches nativeEvent); [|done].
  set (w1 := if isStartish topLevelType then _ else _).
  assert (H1 : trackedTouchCount w1
               = if isStartish topLevelType then (trackedTouchCount w + changed)%Z
                 else if isEndish topLevelType then (trackedTouchCount w - changed)%Z
                 else trackedTouchCount w).
  { unfold w1. by repeat case_match. }
  clearbody w1. rewrite <- H1. clear H1.
  case_match; [done|]. unfold bind.
  destruct (outside_inv _ _ (touchesChanged_outside env topLevelType nativeEvent w1))
    as (_ & _ & H2 & _).
  destruct (touchesChanged env topLevelType nativeEvent w1) as [[events|e] w2];
    [|done].
  pose proof (forEachGesture_trackedTouchCount env topLevelType events None w2) as H3.
  destruct (forEachGesture _ _ _ _ _) as [extracted w3]. simpl in *.
  unfold reportInteraction. case_match; simpl; congruence.
Qed.

(** ** Events that cannot trigger a transfer *)

Lemma canTriggerTransfer_false type inst ne w :
  isStartish type = false → isMoveish type = false →
  type ≠ "topScroll" → type ≠ "topSelectionChange" →
  canTriggerTransfer type inst ne w = false.
Proof.
  intros Hs Hm Hscroll Hsel. unfold canTriggerTransfer.
  rewrite Hs, Hm.
  rewrite (bool_decide_eq_false_2 (type = "topScroll")) by done.
  rewrite (bool_decide_eq_false_2 (type = "topSelectionChange")) by done.
  by rewrite andb_false_r, andb_false_l, andb_false_r.
Qed.

Lemma extractResponderEvents_no_transfer env type inst ne extracted w :
  isStartish type = false → isMoveish type = false →
  (extractResponderEvents env type inst ne extracted w).2 = w
  ∨ ∃ current, (extractResponderEvents env type inst ne extracted w).2
               = ResponderCache.release current w.
Proof.
  intros Hs Hm. unfold extractResponderEvents.
  destruct (ResponderCache.findAncestor _ _ _) as [current|]; [|by left].
  destruct (negb (isEndish type)); [by left|].
  repeat case_match; simpl; try (by left); right; by eexists.
Qed.

Lemma extractGestureEvents_no_transfer env type event extracted w :
  isStartish type = false → isMoveish type = false →
  type ≠ "topScroll" → type ≠ "topSelectionChange" →
  (extractGestureEvents env type event extracted w).2 = w
  ∨ ∃ inst, (extractGestureEvents env type event extracted w).2
            = ResponderCache.release inst w.
Proof.
  intros Hs Hm Hscroll Hsel. unfold extractGestureEvents. rewrite Hs. cbn [andb].
  unfold extractTouchEvents.
  rewrite (canTriggerTransfer_false type _ event w Hs Hm Hscroll Hsel).
  pose proof (extractResponderEvents_no_transfer env type
    (getInstanceFromTag env (GestureEvent.target event)) event None w Hs Hm) as H.
  by destruct (extractResponderEvents _ _ _ _ _ _) as [touchEvents w1].
Qed.

Lemma forEachGesture_no_transfer env type events :
  isStartish type = false → isMoveish type = false →
  type ≠ "topScroll" → type ≠ "topSelectionChange" →
  ∀ extracted w,
    let w' := (forEachGesture env type events extracted w).2 in
    cache w' ⊆ cache w
    ∧ (∃ changes, responderChanges w' = responderChanges w ++ changes
                  ∧ Forall isRelease changes)
    ∧ dispatched w' = dispatched w.
Proof.
  intros Hs Hm Hscroll Hsel.
  induction events as [|event events IH]; intros extracted w; simpl.
  { split_and!; [done| |done]. exists []. by rewrite app_nil_r. }
  destruct (extractGestureEvents_no_transfer env type event extracted w Hs Hm Hscroll Hsel)
    as [E|[inst E]];
    destruct (extractGestureEvents env type event extracted w) as [extracted1 w1];
    simpl in E; subst w1.
  - apply IH.
  - destruct (IH extracted1 (ResponderCache.release inst w)) as (Hc & (l & Hl & Hrel) & Hd).
    split_and!.
    + etrans; [exact Hc|]. simpl. apply delete_subseteq.
    + exists (mkChange (Some inst) None None :: l). split.
      * rewrite Hl. simpl. by rewrite <- app_assoc.
      * constructor; [|done]. split; [by eexists|done].
    + by rewrite Hd.
Qed.

(** X6.  An event that is neither start-like nor move-like, and is no scroll
    and no selection change, makes nobody the responder: the registry can
    only lose entries, its observer hears of releases only, and no
    listener is called on demand. *)
Theorem no_transfer_no_grant env topLevelType targetInst nativeEvent w :
  isStartish topLevelType = false → isMoveish topLevelType = false →
  topLevelType ≠ "topScroll" → topLevelType ≠ "topSelectionChange" →
  let w' := (extractEvents env topLevelType targetInst nativeEvent w).2 in
  cache w' ⊆ cache w
  ∧ (∃ changes, responderChanges w' = responderChanges w ++ changes
                ∧ Forall isRelease changes)
  ∧ dispatched w' = dispatched w.
Proof.
  intros Hs Hm Hscroll Hsel. unfold extractEvents.
  assert (Hnil : ∀ w0 : World,
            cache w0 = cache w → responderChanges w0 = responderChanges w →
            dispatched w0 = dispatched w →
            cache w0 ⊆ cache w
            ∧ (∃ changes, responderChanges w0 = responderChanges w ++ changes
                          ∧ Forall isRelease changes)
            ∧ dispatched w0 = dispatched w).
  { intros w0 -> -> ->. split_and!; [done| |done]. exists []. by rewrite app_nil_r. }
  destruct (TouchEvent.touches nativeEvent); [|by apply Hnil].
  rewrite Hs. cbn [negb andb].
  set (w1 := if isEndish topLevelType then _ else w).
  assert (H1 : cache w1 = cache w ∧ responderChanges w1 = responderChanges w
               ∧ dispatched w1 = dispatched w).
  { unfold w1. by case_match. }
  clearbody w1. destruct H1 as (Hc1 & Hr1 & Hd1).
  case_match; [by apply Hnil|]. unfold bind.
  destruct (outside_inv _ _ (touchesChanged_outside env topLevelType nativeEvent w1))
    as (Hc2 & Hr2 & _ & _ & _ & Hd2 & _).
  destruct (touchesChanged env topLevelType nativeEvent w1) as [[events|e] w2];
    simpl in *; [|apply Hnil; congruence].
  pose proof (forEachGesture_no_transfer env topLevelType events Hs Hm Hscroll Hsel
                None w2) as H3.
  destruct (forEachGesture _ _ _ _ _) as [extracted w3]. simpl in *.
  change (cache (reportInteraction env w3) ⊆ cache w
          ∧ (∃ changes,
               responderChanges (reportInteraction env w3)
               = responderChanges w ++ changes
               ∧ Forall isRelease changes)
          ∧ dispatched (reportInteraction env w3) = dispatched w).
  destruct (reportInteraction_registry env w3) as [-> ->].
  assert (Hd3 : dispatched (reportInteraction env w3) = dispatched w3).
  { unfold reportInteraction. by case_match. }
  rewrite Hd3. rewrite <- Hc1, <- Hc2, <- Hr1, <- Hr2, <- Hd1, <- Hd2. exact H3.
Qed.

Lemma no_transfer_no_grant_witness :
  let w := childTouched eager in
  let w' := (extractEvents eager "topTouchEnd" (Some T2) (batch [touch 10 2 1]) w).2 in
  (isStartish "topTouchEnd" = false ∧ isMoveish "topTouchEnd" = false
   ∧ "topTouchEnd" ≠ "topScroll" ∧ "topTouchEnd" ≠ "topSelectionChange")
  ∧ cache w' ⊆ cache w
  ∧ (∃ changes, responderChanges w' = responderChanges w ++ changes
                ∧ Forall isRelease changes)
  ∧ dispatched w' = dispatched w.
Proof.
  intros w w'.
  assert (H1 : isStartish "topTouchEnd" = false) by reflexivity.
  assert (H2 : isMoveish "topTouchEnd" = false) by reflexivity.
  assert (H3 : "topTouchEnd" ≠ "topScroll") by discriminate.
  assert (H4 : "topTouchEnd" ≠ "topSelectionChange") by discriminate.
  split; [by split_and!|].
  exact (no_transfer_no_grant eager "topTouchEnd" (Some T2) (batch [touch 10 2 1]) w
           H1 H2 H3 H4).
Defined.

(** * Looking up the registry *)

Lemma findAncestorFrom_nearest (registry : gmap Z Inst) inst :
  ResponderCache.findAncestorFrom registry inst
  = head (filter (λ i, is_Some (registry !! getTagFromInstance i)) (pathToRoot inst)).
Proof.
  induction inst as [tag|tag parent IH]; simpl; rewrite filter_cons; simpl;
    destruct (registry !! tag) as [r|] eqn:E; case_decide as H; try done.
  all: try (by destruct H); exfalso; apply H; by eexists.
Qed.

(** X7.  [findAncestor] returns the nearest instance, from the target up to
    the root and the target included, whose tag has an entry in the
    registry; it returns nothing for a target that resolves to no
    instance or has no such ancestor. *)
Theorem findAncestor_nearest env target w :
  ResponderCache.findAncestor env target w
  = ResponderCache.resolveInstance env target ≫= λ inst,
      head (filter (λ i, is_Some (cache w !! getTagFromInstance i)) (pathToRoot inst)).
Proof.
  unfold ResponderCache.findAncestor.
  destruct (ResponderCache.resolveInstance env target) as [inst|]; simpl; [|done].
  apply findAncestorFrom_nearest.
Qed.

(** X8.  An instance that has been granted the responder status is found as
    its own nearest responder; releasing it again leaves the registry as
    it was, while the observer has heard of both steps. *)
Theorem grant_release_round_trip env inst block w :
  cache w !! getTagFromInstance inst = None →
  let w1 := ResponderCache.grant inst block w in
  let w2 := ResponderCache.release inst w1 in
  ResponderCache.findAncestor env (ResponderCache.InstTarget (Some inst)) w1 = Some inst
  ∧ cache w2 = cache w
  ∧ ResponderCache.findAncestor env (ResponderCache.InstTarget (Some inst)) w2
    = ResponderCache.findAncestor env (ResponderCache.InstTarget (Some inst)) w
  ∧ responderChanges w2
    = responderChanges w
      ++ [mkChange None (Some inst) (Some block); mkChange (Some inst) None None].
Proof.
  intros Hnone w1 w2.
  assert (Hc : cache w2 = cache w).
  { unfold w2, w1. simpl. rewrite delete_insert_eq. by apply delete_id. }
  split_and!.
  - apply findAncestor_responder. unfold w1. simpl. rewrite lookup_insert_eq. by eexists.
  - done.
  - unfold ResponderCache.findAncestor, ResponderCache.resolveInstance. by rewrite Hc.
  - unfold w2, w1. simpl. by rewrite <- app_assoc.
Qed.

Lemma grant_release_round_trip_witness :
  let w1 := ResponderCache.grant T2 true initialWorld in
  let w2 := ResponderCache.release T2 w1 in
  cache initialWorld !! getTagFromInstance T2 = None
  ∧ ResponderCache.findAncestor silent (ResponderCache.InstTarget (Some T2)) w1 = Some T2
  ∧ cache w2 = cache initialWorld
  ∧ ResponderCache.findAncestor silent (ResponderCache.InstTarget (Some T2)) w2
    = ResponderCache.findAncestor silent (ResponderCache.InstTarget (Some T2)) initialWorld
  ∧ responderChanges w2
    = responderChanges initialWorld
      ++ [mkChange None (Some T2) (Some true); mkChange (Some T2) None None].
Proof.
  intros w1 w2.
  assert (H : cache initialWorld !! getTagFromInstance T2 = None) by reflexivity.
  split; [exact H|].
  exact (grant_release_round_trip silent T2 true initialWorld H).
Defined.

(** * Retargeting a gesture *)

Lemma alter_alter_fixed (f f' : Gesture.t → Gesture.t) (h : list Gesture.t) g :
  (∀ x, h !! g = Some x → f (f' x) = x) → alter f g (alter f' g h) = h.
Proof.
  intros Hf. apply list_eq. intros i.
  destruct (decide (i = g)) as [->|Hne].
  - rewrite !list_lookup_alter_eq. destruct (h !! g) as [x|] eqn:E; simpl; [|done].
    by rewrite Hf.
  - by rewrite !list_lookup_alter_ne.
Qed.

(** X9.  A gesture whose target changes to a target without a gesture moves
    there as it is: it is filed under the new target only, and nothing
    else changes.  Moving it back restores the state. *)
Theorem targetChanged_moves topLevelType oldTarget newTarget w g :
  consistent w →
  gesturesByTarget w !! getTagFromInstance oldTarget = Some g →
  gesturesByTarget w !! getTagFromInstance newTarget = None →
  let w' := targetChanged topLevelType oldTarget newTarget w in
  gesturesByTarget w'
  = <[getTagFromInstance newTarget := g]>
      (delete (getTagFromInstance oldTarget) (gesturesByTarget w))
  ∧ deref g w' = Gesture.set_target (getTagFromInstance newTarget) (deref g w)
  ∧ activeGestures w' = activeGestures w
  ∧ gesturesByTouch w' = gesturesByTouch w
  ∧ console w' = console w
  ∧ targetChanged topLevelType newTarget oldTarget w' = w.
Proof.
  intros [Hw Hti] Hold Hnew w'.
  destruct (Hti _ _ Hold) as [Hactive Htarget].
  assert (Hlt : g < length (heap w)).
  { destruct Hw as [_ Hb]. rewrite Forall_forall in Hb. by apply Hb. }
  assert (Hne : getTagFromInstance newTarget ≠ getTagFromInstance oldTarget)
    by congruence.
  assert (E : w' = set_gesturesByTarget (delete (getTagFromInstance oldTarget))
                     (set_gesturesByTarget (insert (getTagFromInstance newTarget) g)
                        (update g (Gesture.set_target (getTagFromInstance newTarget)) w))).
  { unfold w', targetChanged. by rewrite Hold, Hnew. }
  assert (Hm : gesturesByTarget w'
               = <[getTagFromInstance newTarget := g]>
                   (delete (getTagFromInstance oldTarget) (gesturesByTarget w))).
  { rewrite E. simpl. by rewrite delete_insert_ne. }
  assert (Hd : deref g w'
               = Gesture.set_target (getTagFromInstance newTarget) (deref g w)).
  { rewrite E.
    change (deref g (update g (Gesture.set_target (getTagFromInstance newTarget)) w)
            = Gesture.set_target (getTagFromInstance newTarget) (deref g w)).
    rewrite deref_update. by rewrite decide_True. }
  split_and!; [done|done|by rewrite E..|].
  unfold targetChanged. rewrite Hm, lookup_insert_eq, lookup_insert_ne by done.
  rewrite lookup_delete_eq.
  clearbody w'.
  apply World_eq; try (rewrite E; reflexivity).
  - rewrite E. simpl. apply alter_alter_fixed.
    intros x Hx. unfold deref in Htarget.
    rewrite (list_lookup_total_correct _ _ _ Hx) in Htarget.
    destruct x. simpl in *. by subst.
  - simpl. rewrite Hm. apply map_eq. intros k.
    destruct (decide (k = getTagFromInstance newTarget)) as [->|Hk].
    { by rewrite lookup_delete_eq, Hnew. }
    rewrite lookup_delete_ne by done.
    destruct (decide (k = getTagFromInstance oldTarget)) as [->|Hk'].
    { by rewrite lookup_insert_eq, Hold. }
    rewrite !lookup_insert_ne by done. by rewrite lookup_delete_ne.
Qed.

Lemma targetChanged_moves_witness :
  let w := childTouched silent in
  let w' := targetChanged "topTouchMove" T2 T1 w in
  (consistent w
   ∧ gesturesByTarget w !! getTagFromInstance T2 = Some 0
   ∧ gesturesByTarget w !! getTagFromInstance T1 = None)
  ∧ gesturesByTarget w'
    = <[getTagFromInstance T1 := 0]>
        (delete (getTagFromInstance T2) (gesturesByTarget w))
  ∧ deref 0 w' = Gesture.set_target (getTagFromInstance T1) (deref 0 w)
  ∧ activeGestures w' = activeGestures w
  ∧ gesturesByTouch w' = gesturesByTouch w
  ∧ console w' = console w
  ∧ targetChanged "topTouchMove" T1 T2 w' = w.
Proof.
  intros w w'.
  assert (H1 : consistent w) by (apply (bool_decide_unpack _); vm_compute; exact I).
  assert (H2 : gesturesByTarget w !! getTagFromInstance T2 = Some 0)
    by (vm_compute; reflexivity).
  assert (H3 : gesturesByTarget w !! getTagFromInstance T1 = None)
    by (vm_compute; reflexivity).
  split; [by split_and!|].
  exact (targetChanged_moves "topTouchMove" T2 T1 w 0 H1 H2 H3).
Defined.

(** X10.  A gesture whose target changes to a target that has a gesture of its
    own is absorbed by that gesture and removed: its touches are filed
    under the other gesture, which also takes its changed touches, and
    the old target has no gesture any more. *)
Theorem targetChanged_merges topLevelType oldTarget newTarget w old new :
  consistent w →
  gesturesByTarget w !! getTagFromInstance oldTarget = Some old →
  gesturesByTarget w !! getTagFromInstance newTarget = Some new →
  getTagFromInstance oldTarget ≠ getTagFromInstance newTarget →
  let w' := targetChanged topLevelType oldTarget newTarget w in
  (old ∉ activeGestures w') ∧ new ∈ activeGestures w'
  ∧ gesturesByTarget w'
    = delete (getTagFromInstance oldTarget) (gesturesByTarget w)
  ∧ (∀ identifier,
       gesturesByTouch w' !! identifier
       = if decide (is_Some (Gesture.touchMap (deref old w) !! identifier))
         then Some new
         else gesturesByTouch w !! identifier)
  ∧ Gesture.touchMap (deref new w')
    = Gesture.touchMap (deref old w) ∪ Gesture.touchMap (deref new w)
  ∧ changedOf w' new = changedOf w new ++ changedOf w old
  ∧ console w' = console w.
Proof.
  intros [Hw Hti] Hold Hnew Htags w'.
  destruct (Hti _ _ Hold) as [Hao Hto]. destruct (Hti _ _ Hnew) as [Han Htn].
  pose proof (creationOrdered_NoDup _ Hw) as Hnd.
  assert (Hne : new ≠ old) by (intros ->; congruence).
  assert (Hlt : new < length (heap w)).
  { destruct Hw as [_ Hb]. rewrite Forall_forall in Hb. by apply Hb. }
  unfold w', targetChanged. rewrite Hold, Hnew. cbv zeta.
  set (w1 := update new (Gesture.set_touchHistory _) w).
  assert (O1 : deref old w1 = deref old w).
  { unfold w1. rewrite deref_update. rewrite decide_False; [done|tauto]. }
  assert (N1 : deref new w1 = Gesture.set_touchHistory
            (TouchHistory.recordTouchEvent topLevelType
               (Gesture.changedTouches (deref old w))) (deref new w))
    by (by apply deref_update_eq).
  assert (L1 : length (heap w1) = length (heap w)) by apply update_length.
  set (w2 := update new (Gesture.set_changedTouches _) w1).
  assert (O2 : deref old w2 = deref old w).
  { unfold w2. rewrite deref_update. rewrite decide_False; [done|tauto]. }
  assert (N2 : deref new w2
               = Gesture.set_changedTouches
                   (λ l, l ++ Gesture.changedTouches (deref old w1)) (deref new w1)).
  { apply deref_update_eq. by rewrite L1. }
  assert (L2 : length (heap w2) = length (heap w)) by (unfold w2; by rewrite update_length).
  set (w3 := set_gesturesByTouch _ w2).
  set (w4 := update new (Gesture.set_touchMap _) w3).
  assert (O4 : deref old w4 = deref old w).
  { unfold w4. rewrite deref_update. rewrite decide_False; [done|tauto]. }
  assert (N4 : deref new w4
               = Gesture.set_touchMap (λ m, Gesture.touchMap (deref old w2) ∪ m)
                   (deref new w2)).
  { unfold w4. rewrite deref_update_eq; [done|].
    change (heap w3) with (heap w2). by rewrite L2. }
  split_and!.
  - rewrite removeGesture_active.
    change (activeGestures w4) with (activeGestures w).
    apply list_elem_of_lookup in Hao as [i Hi].
    rewrite (indexOf_lookup _ i old Hnd Hi). simpl.
    rewrite (elem_of_delete_NoDup _ i old old Hnd Hi). tauto.
  - rewrite removeGesture_active.
    change (activeGestures w4) with (activeGestures w).
    apply list_elem_of_lookup in Hao as [i Hi].
    rewrite (indexOf_lookup _ i old Hnd Hi). simpl.
    by rewrite (elem_of_delete_NoDup _ i old new Hnd Hi).
  - unfold removeGesture. simpl.
    change (deref old _) with (deref old w4). by rewrite O4, Hto.
  - intros identifier. simpl. rewrite O2.
    rewrite lookup_union, lookup_fmap.
    destruct (decide (is_Some (Gesture.touchMap (deref old w) !! identifier)))
      as [[t Ht]|Hn].
    + rewrite Ht. simpl. by destruct (gesturesByTouch w !! identifier).
    + destruct (Gesture.touchMap (deref old w) !! identifier) eqn:E; simpl.
      * exfalso. apply Hn. by eexists.
      * by destruct (gesturesByTouch w !! identifier).
  - change (deref new (removeGesture old w4)) with (deref new w4).
    rewrite N4, N2, N1, O2. reflexivity.
  - unfold changedOf. change (deref new (removeGesture old w4)) with (deref new w4).
    rewrite N4, N2, N1, O1. reflexivity.
  - done.
Qed.

Lemma targetChanged_merges_witness :
  let w := twoGestures in
  let w' := targetChanged "topTouchMove" T2 T1 w in
  (consistent w
   ∧ gesturesByTarget w !! getTagFromInstance T2 = Some 0
   ∧ gesturesByTarget w !! getTagFromInstance T1 = Some 1
   ∧ getTagFromInstance T2 ≠ getTagFromInstance T1)
  ∧ (0 ∉ activeGestures w') ∧ 1 ∈ activeGestures w'
  ∧ gesturesByTarget w'
    = delete (getTagFromInstance T2) (gesturesByTarget w)
  ∧ (∀ identifier,
       gesturesByTouch w' !! identifier
       = if decide (is_Some (Gesture.touchMap (deref 0 w) !! identifier))
         then Some 1
         else gesturesByTouch w !! identifier)
  ∧ Gesture.touchMap (deref 1 w')
    = Gesture.touchMap (deref 0 w) ∪ Gesture.touchMap (deref 1 w)
  ∧ changedOf w' 1 = changedOf w 1 ++ changedOf w 0
  ∧ console w' = console w.
Proof.
  intros w w'.
  assert (H1 : consistent w) by (apply (bool_decide_unpack _); vm_compute; exact I).
  assert (H2 : gesturesByTarget w !! getTagFromInstance T2 = Some 0)
    by (vm_compute; reflexivity).
  assert (H3 : gesturesByTarget w !! getTagFromInstance T1 = Some 1)
    by (vm_compute; reflexivity).
  assert (H4 : getTagFromInstance T2 ≠ getTagFromInstance T1) by discriminate.
  split; [by split_and!|].
  exact (targetChanged_merges "topTouchMove" T2 T1 w 0 1 H1 H2 H3 H4).
Defined.

(** * What a batch does to the gesture cache *)

Lemma changedOf_update g f w g' :
  g < length (heap w) →
  changedOf (update g f w) g'
  = if decide (g' = g) then Gesture.changedTouches (f (deref g w)) else changedOf w g'.
Proof.
  intros Hlt. unfold changedOf. rewrite deref_update.
  destruct (decide (g' = g)) as [->|Hne].
  - by rewrite decide_True.
  - rewrite decide_False; [done|]. by intros [-> _].
Qed.

Lemma changedOf_beyond w g : length (heap w) ≤ g → changedOf w g = [].
Proof.
  intros Hge. unfold changedOf, deref.
  rewrite list_lookup_total_alt, (lookup_ge_None_2 _ _ Hge). done.
Qed.

Lemma attachGesture_changedOf env touch w g' :
  changedOf (attachGesture env touch w).2 g' = changedOf w g'.
Proof.
  unfold attachGesture.
  destruct (gesturesByTarget w !! gestureTarget env touch w); [done|].
  unfold changedOf, deref. simpl.
  destruct (decide (g' < length (heap w))) as [Hlt|Hge].
  - by rewrite lookup_total_app_l.
  - rewrite !list_lookup_total_alt.
    rewrite (lookup_ge_None_2 (heap w)) by lia.
    destruct (decide (g' = length (heap w))) as [->|Hne].
    + by rewrite list_lookup_middle.
    + rewrite lookup_ge_None_2; [done|]. rewrite length_app. simpl. lia.
Qed.

Lemma attachGesture_result env touch w :
  consistent w →
  let r := attachGesture env touch w in
  r.1 ∈ activeGestures r.2 ∧ r.1 < length (heap r.2)
  ∧ gesturesByTouch r.2 = <[Touch.identifier touch := r.1]> (gesturesByTouch w)
  ∧ (r.1 ∈ activeGestures w ∨ changedOf w r.1 = []).
Proof.
  intros [[Hs Hb] Hti]. unfold attachGesture. rewrite Forall_forall in Hb.
  destruct (gesturesByTarget w !! gestureTarget env touch w) as [g|] eqn:E; simpl.
  - destruct (Hti _ _ E) as [Ha _]. split_and!; auto.
  - split_and!; [set_solver|rewrite length_app; simpl; lia|done|].
    right. by apply changedOf_beyond.
Qed.

Lemma touchIndexed_mono w w' :
  (∀ g, g ∈ activeGestures w → g ∈ activeGestures w') →
  gesturesByTouch w' = gesturesByTouch w →
  touchIndexed w → touchIndexed w'.
Proof.
  intros Hmono Hb Hw identifier g Hg. rewrite Hb in Hg. by apply Hmono, (Hw identifier).
Qed.

(** One step of the first loop: the touch is pushed on the changed
    touches of one active gesture, and of no other. *)
Lemma rebuild_step env type touch w w1 :
  consistent w → touchIndexed w →
  rebuildChangedTouches env type touch w = (Ok tt, w1) →
  ∃ g, g ∈ activeGestures w1
       ∧ (g ∈ activeGestures w ∨ changedOf w g = [])
       ∧ touchIndexed w1
       ∧ (∀ g', g' ∈ activeGestures w → g' ∈ activeGestures w1)
       ∧ (∀ g', g' ∈ activeGestures w1 → g' ∈ activeGestures w ∨ g' = g)
       ∧ ∀ g', changedOf w1 g'
               = changedOf w g' ++ (if decide (g' = g) then [touch] else []).
Proof.
  intros Hw Htw. unfold rebuildChangedTouches.
  destruct (isStartish type).
  - destruct (attachGesture_result env touch w Hw) as (Ha & Hlt & Hb & Hold).
    pose proof (attachGesture_changedOf env touch w) as Hc.
    pose proof (attachGesture_active_mono env touch w) as Hmono.
    assert (Hnew : ∀ g', g' ∈ activeGestures (attachGesture env touch w).2 →
                         g' ∈ activeGestures w ∨ g' = (attachGesture env touch w).1).
    { unfold attachGesture.
      destruct (gesturesByTarget w !! gestureTarget env touch w); simpl; [by left|].
      intros g' [Hg'| ->%list_elem_of_singleton]%elem_of_app; auto. }
    destruct (attachGesture env touch w) as [g wa]. simpl in *.
    set (wb := update g (Gesture.set_changedTouches (λ l, l ++ [touch])) wa).
    assert (Hcb : ∀ g', changedOf wb g'
                        = changedOf w g' ++ (if decide (g' = g) then [touch] else [])).
    { intros g'. unfold wb. rewrite changedOf_update by done. simpl.
      case_decide; subst; rewrite <- Hc; [done|by rewrite app_nil_r]. }
    assert (Htb : touchIndexed wb).
    { intros identifier g' Hg'. change (gesturesByTouch wb) with (gesturesByTouch wa) in Hg'.
      rewrite Hb in Hg'. apply lookup_insert_Some in Hg' as [[_ <-]|[_ Hg']]; [done|].
      apply Hmono, (Htw identifier), Hg'. }
    destruct (negb (isEndish type)); intros [= <-]; exists g.
    + split_and!; [done|done| |done|done|].
      * eapply touchIndexed_mono; [| |exact Htb]; done.
      * intros g'. rewrite changedOf_update by (unfold wb; by rewrite update_length).
        pose proof (Hcb g') as Hg'.
        destruct (decide (g' = g)) as [->|Hne]; simpl; exact Hg'.
    + done.
  - destruct (gesturesByTouch w !! Touch.identifier touch) as [g|] eqn:E; [|done].
    pose proof (Htw _ _ E) as Ha.
    assert (Hlt : g < length (heap w)).
    { destruct Hw as [[_ Hb] _]. rewrite Forall_forall in Hb. by apply Hb. }
    set (wb := update g (Gesture.set_changedTouches (λ l, l ++ [touch])) w).
    assert (Hcb : ∀ g', changedOf wb g'
                        = changedOf w g' ++ (if decide (g' = g) then [touch] else [])).
    { intros g'. unfold wb. rewrite changedOf_update by done. simpl.
      case_decide; subst; [done|by rewrite app_nil_r]. }
    destruct (negb (isEndish type)); intros [= <-]; exists g.
    + split_and!; [done|by left| |done|by left|].
      * eapply touchIndexed_mono; [| |exact Htw]; done.
      * intros g'. rewrite changedOf_update by (unfold wb; by rewrite update_length).
        pose proof (Hcb g') as Hg'.
        destruct (decide (g' = g)) as [->|Hne]; simpl; exact Hg'.
    + split_and!; [done|by left| |done|by left|done].
      eapply touchIndexed_mono; [| |exact Htw]; done.
Qed.

Lemma forEach_rebuild_delivers env type l :
  ∀ seen w w1,
    consistent w → touchIndexed w →
    (∀ g t, g ∈ activeGestures w → t ∈ changedOf w g → t ∈ seen) →
    (∀ t, t ∈ seen → ∃ g, g ∈ activeGestures w ∧ t ∈ changedOf w g) →
    forEach l (rebuildChangedTouches env type) w = (Ok tt, w1) →
    consistent w1 ∧ touchIndexed w1
    ∧ (∀ g t, g ∈ activeGestures w1 → t ∈ changedOf w1 g → t ∈ seen ++ l)
    ∧ (∀ t, t ∈ seen ++ l → ∃ g, g ∈ activeGestures w1 ∧ t ∈ changedOf w1 g).
Proof.
  induction l as [|touch l IH]; intros seen w w1 Hw Htw Hsub Hall; simpl.
  - intros [= <-]. by rewrite app_nil_r.
  - unfold bind.
    pose proof (consistent_rebuild env type touch w Hw) as Hw'.
    pose proof (rebuild_step env type touch w) as Hstep.
    destruct (rebuildChangedTouches env type touch w) as [[[]|e] wa]; [|done].
    simpl in Hw'. intros Hrun.
    destruct (Hstep wa Hw Htw eq_refl) as (g & Ha & Hold & Hta & Hmono & Hnew & Hc).
    replace (seen ++ touch :: l) with ((seen ++ [touch]) ++ l)
      by (by rewrite <- app_assoc).
    apply (IH (seen ++ [touch]) wa w1); [done|done| | |done].
    + intros g' t Hg' Ht. rewrite Hc in Ht.
      apply elem_of_app in Ht as [Ht|Ht].
      * destruct (Hnew g' Hg') as [Hin| ->].
        -- apply elem_of_app. left. by eapply Hsub.
        -- destruct Hold as [Hin|Hnil].
           ++ apply elem_of_app. left. by eapply Hsub.
           ++ rewrite Hnil in Ht. by apply elem_of_nil in Ht.
      * case_decide; [|by apply elem_of_nil in Ht].
        apply elem_of_app. by right.
    + intros t [Ht| ->%list_elem_of_singleton]%elem_of_app.
      * destruct (Hall t Ht) as (g' & Hg' & Hin). exists g'. split; [auto|].
        rewrite Hc. apply elem_of_app. by left.
      * exists g. split; [done|]. rewrite Hc, decide_True by done.
        apply elem_of_app. right. by left.
Qed.

Lemma detach_changedOf touch w g :
  changedOf (detachTouch touch w).2 g = changedOf w g.
Proof.
  unfold detachTouch. destruct (gesturesByTouch w !! _) as [g'|]; [|done].
  change (Gesture.changedTouches
            (deref g (update g' (Gesture.set_touchMap (delete (Touch.identifier touch))) w))
          = Gesture.changedTouches (deref g w)).
  rewrite deref_update. by case_decide.
Qed.

Lemma forEach_detach_frame l w :
  let w' := (forEach l detachTouch w).2 in
  activeGestures w' = activeGestures w ∧ ∀ g, changedOf w' g = changedOf w g.
Proof.
  apply (forEach_preserves
    (λ w', activeGestures w' = activeGestures w ∧ ∀ g, changedOf w' g = changedOf w g));
    [|done].
  intros touch w0 [Ha Hc]. split.
  - by rewrite detach_active.
  - intros g. by rewrite detach_changedOf.
Qed.

Lemma changedGestureEvents_changedOf type ne n :
  ∀ events w g,
    changedOf (changedGestureEvents type ne n events w).2 g = changedOf w g.
Proof.
  induction n as [|i IH]; intros events w g; simpl; [done|].
  destruct (activeGestures w !! i) as [c|]; [|done].
  pose proof (visitGesture_changedOf type ne c events w g) as H.
  destruct (visitGesture _ _ _ _ _) as [events1 w1]. rewrite IH. exact H.
Qed.

(** X11.  No touch is lost and none is made up: in a batch that returns, every
    changed touch of the native event is among the changed touches of
    the gesture of one of the events handed out, and every event stands
    for a gesture that has changed touches, all of them from the native
    event. *)
Theorem touchesChanged_delivers env topLevelType nativeEvent w events w' :
  consistent w → touchIndexed w →
  touchesChanged env topLevelType nativeEvent w = (Ok events, w') →
  (∀ t, t ∈ TouchEvent.changedTouches nativeEvent →
        ∃ e, e ∈ events ∧ t ∈ changedOf w' (GestureEvent.gesture e))
  ∧ (∀ e, e ∈ events →
          hasChanged w' (GestureEvent.gesture e)
          ∧ ∀ t, t ∈ changedOf w' (GestureEvent.gesture e) →
                 t ∈ TouchEvent.changedTouches nativeEvent).
Proof.
  intros Hw Htw. rewrite touchesChanged_unfold.
  assert (H0 : ∀ g t, g ∈ activeGestures (clearChangedTouches w) →
                      t ∈ changedOf (clearChangedTouches w) g → t ∈ []).
  { intros g t Hg Ht. rewrite clearChangedTouches_active in Hg.
    pose proof (clearChangedTouches_unchanged w g Hg) as Hn.
    unfold hasChanged in Hn. destruct (changedOf (clearChangedTouches w) g); [done|].
    by destruct Hn. }
  assert (Ht0 : touchIndexed (clearChangedTouches w)).
  { eapply touchIndexed_mono; [| |exact Htw].
    - intros g. by rewrite clearChangedTouches_active.
    - apply clearChangedTouches_byTouch. }
  pose proof (forEach_rebuild_delivers env topLevelType
    (TouchEvent.changedTouches nativeEvent) [] (clearChangedTouches w)) as H1.
  destruct (forEach _ (rebuildChangedTouches env topLevelType) _) as [[[]|e] w1];
    [|done].
  destruct (H1 w1 (consistent_clear w Hw) Ht0 H0) as (Hw1 & _ & Hsub & Hall);
    [intros t Ht; by apply elem_of_nil in Ht|done|].
  clear H1. simpl in Hsub, Hall.
  assert (H2 : ∀ w2, consistent w2 →
            activeGestures w2 = activeGestures w1 →
            (∀ g, changedOf w2 g = changedOf w1 g) →
            changedGestureEvents topLevelType nativeEvent
              (length (activeGestures w2)) [] w2 = (Ok events, w') →
            (∀ t, t ∈ TouchEvent.changedTouches nativeEvent →
                  ∃ e, e ∈ events ∧ t ∈ changedOf w' (GestureEvent.gesture e))
            ∧ (∀ e, e ∈ events →
                    hasChanged w' (GestureEvent.gesture e)
                    ∧ ∀ t, t ∈ changedOf w' (GestureEvent.gesture e) →
                           t ∈ TouchEvent.changedTouches nativeEvent)).
  { intros w2 Hw2 Ha Hc Hrun.
    pose proof (changedGestureEvents_gestures topLevelType nativeEvent
      (length (activeGestures w2)) [] w2 events w'
      (creationOrdered_NoDup _ (proj1 Hw2)) (le_n _) Hrun) as Hg.
    rewrite firstn_all in Hg. simpl in Hg.
    assert (Hc' : ∀ g, changedOf w' g = changedOf w1 g).
    { intros g. rewrite <- Hc.
      replace w' with (changedGestureEvents topLevelType nativeEvent
                         (length (activeGestures w2)) [] w2).2 by (by rewrite Hrun).
      apply changedGestureEvents_changedOf. }
    assert (Hev : ∀ g, (∃ e, e ∈ events ∧ GestureEvent.gesture e = g)
                       ↔ g ∈ activeGestures w1 ∧ hasChanged w1 g).
    { intros g. rewrite <- Ha.
      assert (Hch : hasChanged w1 g ↔ hasChanged w2 g)
        by (unfold hasChanged; by rewrite Hc).
      rewrite Hch. split.
      - intros (e & He & <-).
        assert (Hin : GestureEvent.gesture e ∈ GestureEvent.gesture <$> events)
          by (apply list_elem_of_fmap; eauto).
        rewrite Hg, elem_of_reverse in Hin.
        apply list_elem_of_filter in Hin. tauto.
      - intros [Hin Hc2].
        assert (Hin' : g ∈ GestureEvent.gesture <$> events).
        { rewrite Hg, elem_of_reverse. by apply list_elem_of_filter. }
        apply list_elem_of_fmap in Hin' as (e & -> & He). eauto. }
    split.
    - intros t Ht. destruct (Hall t Ht) as (g & Hga & Hgt).
      destruct (proj2 (Hev g)) as (e & He & <-).
      { split; [done|]. unfold hasChanged. intros Hn. rewrite Hn in Hgt.
        by apply elem_of_nil in Hgt. }
      exists e. split; [done|]. by rewrite Hc'.
    - intros e He. destruct (proj1 (Hev (GestureEvent.gesture e))) as [Hga Hch]; [eauto|].
      split.
      + unfold hasChanged. by rewrite Hc'.
      + intros t Ht. rewrite Hc' in Ht. by eapply Hsub. }
  destruct (isEndish topLevelType).
  - pose proof (forEach_detach_frame (TouchEvent.changedTouches nativeEvent) w1)
      as [Ha Hc].
    pose proof (forEach_preserves consistent detachTouch
      (TouchEvent.changedTouches nativeEvent) w1 consistent_detach Hw1) as Hw2.
    destruct (forEach _ detachTouch w1) as [[[]|e] w2]; [|done].
    by apply H2.
  - by apply H2.
Qed.

Lemma touchesChanged_delivers_witness :
  let w := childTouched silent in
  let r := touchesChanged silent "topTouchMove" (batch [touch 10 2 1]) w in
  (consistent w ∧ touchIndexed w ∧ r = (Ok (eventsOf r), r.2))
  ∧ (∀ t, t ∈ TouchEvent.changedTouches (batch [touch 10 2 1]) →
          ∃ e, e ∈ eventsOf r ∧ t ∈ changedOf r.2 (GestureEvent.gesture e))
  ∧ (∀ e, e ∈ eventsOf r →
          hasChanged r.2 (GestureEvent.gesture e)
          ∧ ∀ t, t ∈ changedOf r.2 (GestureEvent.gesture e) →
                 t ∈ TouchEvent.changedTouches (batch [touch 10 2 1])).
Proof.
  intros w r.
  assert (H1 : consistent w) by (apply (bool_decide_unpack _); vm_compute; exact I).
  assert (H2 : touchIndexed w) by (apply (bool_decide_unpack _); vm_compute; exact I).
  assert (H3 : r = (Ok (eventsOf r), r.2)) by (vm_compute; reflexivity).
  split; [by split_and!|].
  exact (touchesChanged_delivers silent "topTouchMove" (batch [touch 10 2 1]) w
           (eventsOf r) r.2 H1 H2 H3).
Defined.

(** ** The touch-to-gesture index after a batch *)

Lemma rebuild_start_byTouch env type touch w :
  isStartish type = true → consistent w →
  let w1 := (rebuildChangedTouches env type touch w).2 in
  ∃ g, g ∈ activeGestures w1
       ∧ gesturesByTouch w1 = <[Touch.identifier touch := g]> (gesturesByTouch w)
       ∧ ∀ g', g' ∈ activeGestures w → g' ∈ activeGestures w1.
Proof.
  intros Hs Hw. rewrite (rebuild_start env type touch w Hs).
  destruct (attachGesture_result env touch w Hw) as (Ha & _ & Hb & _).
  pose proof (attachGesture_active_mono env touch w) as Hmono.
  destruct (attachGesture env touch w) as [g wa]. simpl in *. eauto.
Qed.

Lemma forEach_rebuild_start_byTouch env type l :
  isStartish type = true →
  ∀ w, consistent w →
    let w1 := (forEach l (rebuildChangedTouches env type) w).2 in
    (∀ g, g ∈ activeGestures w → g ∈ activeGestures w1)
    ∧ ∀ identifier,
        (identifier ∈ Touch.identifier <$> l →
         ∃ g, gesturesByTouch w1 !! identifier = Some g ∧ g ∈ activeGestures w1)
        ∧ (identifier ∉ Touch.identifier <$> l →
           gesturesByTouch w1 !! identifier = gesturesByTouch w !! identifier).
Proof.
  intros Hs. induction l as [|touch l IH]; intros w Hw; simpl.
  { split; [done|]. intros identifier. split; [|done]. by intros ?%elem_of_nil. }
  unfold bind.
  pose proof (consistent_rebuild env type touch w Hw) as Hw1.
  destruct (rebuild_start_byTouch env type touch w Hs Hw) as (g & Ha & Hb & Hmono).
  assert (Hok : ∃ wa, rebuildChangedTouches env type touch w = (Ok tt, wa)).
  { rewrite (rebuild_start env type touch w Hs).
    destruct (attachGesture env touch w). by eexists. }
  destruct Hok as [wa E]. rewrite E in *. simpl in *.
  destruct (IH wa Hw1) as [Hmono' Hids].
  split; [auto|]. intros identifier. destruct (Hids identifier) as [Hin Hout].
  split.
  - intros [->|Hin']%elem_of_cons; [|auto].
    destruct (decide (Touch.identifier touch ∈ Touch.identifier <$> l)) as [Hl|Hl].
    + auto.
    + rewrite (proj2 (Hids _) Hl), Hb, lookup_insert_eq. eauto.
  - intros Hnot. apply not_elem_of_cons in Hnot as [Hne Hnot].
    rewrite Hout by done. rewrite Hb. by rewrite lookup_insert_ne.
Qed.

Lemma forEach_detach_byTouch l :
  ∀ w w2, forEach l detachTouch w = (Ok tt, w2) →
    ∀ identifier,
      gesturesByTouch w2 !! identifier
      = if decide (identifier ∈ Touch.identifier <$> l) then None
        else gesturesByTouch w !! identifier.
Proof.
  induction l as [|touch l IH]; intros w w2.
  { simpl. by intros [= <-] identifier. }
  rewrite fmap_cons. cbn [forEach]. unfold bind, detachTouch.
  destruct (gesturesByTouch w !! Touch.identifier touch) as [g|] eqn:E; [|done].
  intros Hrun identifier. rewrite (IH _ _ Hrun identifier).
  change (gesturesByTouch (set_gesturesByTouch (delete (Touch.identifier touch)) _))
    with (delete (Touch.identifier touch) (gesturesByTouch w)).
  destruct (decide (identifier ∈ Touch.identifier <$> l)) as [Hin|Hout].
  - rewrite decide_True; [done|]. by right.
  - destruct (decide (identifier = Touch.identifier touch)) as [->|Hne].
    + rewrite decide_True by left. apply lookup_delete_eq.
    + rewrite decide_False by (by intros [?|?]%elem_of_cons).
      by rewrite lookup_delete_ne.
Qed.

Lemma visitGesture_byTouch type ne g events w :
  gesturesByTouch (visitGesture type ne g events w).2 = gesturesByTouch w.
Proof.
  unfold visitGesture. destruct (Gesture.changedTouches _); [done|].
  simpl. by case_match.
Qed.

Lemma changedGestureEvents_byTouch type ne n :
  ∀ events w,
    gesturesByTouch (changedGestureEvents type ne n events w).2 = gesturesByTouch w.
Proof.
  induction n as [|i IH]; intros events w; simpl; [done|].
  destruct (activeGestures w !! i) as [g|]; [|done].
  pose proof (visitGesture_byTouch type ne g events w) as H.
  destruct (visitGesture _ _ _ _ _) as [events1 w1]. rewrite IH. exact H.
Qed.

Lemma changedGestureEvents_keeps_active type ne n :
  isEndish type = false →
  ∀ events w,
    activeGestures (changedGestureEvents type ne n events w).2 = activeGestures w.
Proof.
  intros He. induction n as [|i IH]; intros events w; simpl; [done|].
  destruct (activeGestures w !! i) as [g|]; [|done].
  pose proof (visitGesture_active type ne g events w) as H.
  unfold removable in H. rewrite He in H. simpl in H.
  destruct (visitGesture _ _ _ _ _) as [events1 w1]. rewrite IH. simpl in H.
  rewrite H. by case_decide.
Qed.

(** A start-like batch always returns. *)
Lemma touchesChanged_start_returns env type ne w :
  isStartish type = true → returns (touchesChanged env type ne w).
Proof.
  intros Hs. rewrite touchesChanged_unfold, (isStartish_not_isEndish _ Hs).
  assert (H : ∀ l w0, ∃ w1, forEach l (rebuildChangedTouches env type) w0 = (Ok tt, w1)).
  { induction l as [|touch l IH]; intros w0; simpl; [by eexists|].
    unfold bind. rewrite (rebuild_start env type touch w0 Hs).
    destruct (attachGesture env touch w0). apply IH. }
  destruct (H (TouchEvent.changedTouches ne) (clearChangedTouches w)) as [w1 ->].
  simpl.
  destruct (changedGestureEvents_returns type ne (length (activeGestures w1)) [] w1)
    as (events & w' & ->); [done|]. done.
Qed.

(** X12.  What a batch does to the touch-to-gesture index.  A start-like batch
    always returns, and files each of its touches under an active gesture;
    an end-like batch that returns removes each of its touches from the
    index; any other batch that returns leaves the index as it is.  The
    touches that are not in the batch stay where they are. *)
Theorem touchesChanged_touch_index env topLevelType nativeEvent w :
  consistent w →
  let r := touchesChanged env topLevelType nativeEvent w in
  let ids := Touch.identifier <$> TouchEvent.changedTouches nativeEvent in
  (isStartish topLevelType = true → returns r)
  ∧ (returns r →
     ∀ identifier,
       (identifier ∉ ids →
        gesturesByTouch r.2 !! identifier = gesturesByTouch w !! identifier)
       ∧ (identifier ∈ ids → isStartish topLevelType = true →
          ∃ g, gesturesByTouch r.2 !! identifier = Some g ∧ g ∈ activeGestures r.2)
       ∧ (identifier ∈ ids → isEndish topLevelType = true →
          gesturesByTouch r.2 !! identifier = None)
       ∧ (isStartish topLevelType = false → isEndish topLevelType = false →
          gesturesByTouch r.2 !! identifier = gesturesByTouch w !! identifier)).
Proof.
  intros Hw r ids. split; [apply touchesChanged_start_returns|].
  unfold r. rewrite touchesChanged_unfold. intros Hret.
  destruct (isStartish topLevelType) eqn:Hs.
  - rewrite (isStartish_not_isEndish _ Hs) in *.
    destruct (forEach_rebuild_start_byTouch env topLevelType
      (TouchEvent.changedTouches nativeEvent) Hs (clearChangedTouches w)
      (consistent_clear w Hw)) as [_ Hids].
    destruct (forEach _ _ _) as [[[]|e] w1]; [|done]. simpl in *.
    intros identifier. destruct (Hids identifier) as [Hin Hout].
    rewrite changedGestureEvents_byTouch,
      (changedGestureEvents_keeps_active _ _ _ (isStartish_not_isEndish _ Hs)).
    rewrite clearChangedTouches_byTouch in Hout.
    split_and!; [done|auto|done|done].
  - pose proof (forEach_rebuild_byTouch env topLevelType
      (TouchEvent.changedTouches nativeEvent) (clearChangedTouches w) Hs) as Hb.
    rewrite clearChangedTouches_byTouch in Hb.
    destruct (forEach _ _ _) as [[[]|e] w1]; [|done]. simpl in *.
    destruct (isEndish topLevelType) eqn:He.
    + pose proof (forEach_detach_byTouch (TouchEvent.changedTouches nativeEvent) w1) as Hd.
      destruct (forEach _ detachTouch w1) as [[[]|e] w2]; [|done]. simpl in *.
      intros identifier. rewrite changedGestureEvents_byTouch.
      rewrite (Hd w2 eq_refl identifier), Hb. fold ids.
      split_and!; [by intros; rewrite decide_False|done|by intros; rewrite decide_True|done].
    + simpl in *. intros identifier. rewrite changedGestureEvents_byTouch, Hb.
      split_and!; done.
Qed.

Lemma touchesChanged_touch_index_witness :
  let w := childTouched silent in
  let r := touchesChanged silent "topTouchEnd" (batch [touch 10 2 1]) w in
  let ids := Touch.identifier <$> TouchEvent.changedTouches (batch [touch 10 2 1]) in
  consistent w
  ∧ (isStartish "topTouchEnd" = true → returns r)
  ∧ (returns r →
     ∀ identifier,
       (identifier ∉ ids →
        gesturesByTouch r.2 !! identifier = gesturesByTouch w !! identifier)
       ∧ (identifier ∈ ids → isStartish "topTouchEnd" = true →
          ∃ g, gesturesByTouch r.2 !! identifier = Some g ∧ g ∈ activeGestures r.2)
       ∧ (identifier ∈ ids → isEndish "topTouchEnd" = true →
          gesturesByTouch r.2 !! identifier = None)
       ∧ (isStartish "topTouchEnd" = false → isEndish "topTouchEnd" = false →
          gesturesByTouch r.2 !! identifier = gesturesByTouch w !! identifier)).
Proof.
  intros w r ids.
  assert (H1 : consistent w) by (apply (bool_decide_unpack _); vm_compute; exact I).
  split; [exact H1|].
  exact (touchesChanged_touch_index silent "topTouchEnd" (batch [touch 10 2 1]) w H1).
Defined.

(** * The gesture propagators *)

Lemma reverse_bind_listenerOf env name (l : list Inst) :
  reverse (l ≫= listenerOf env name) = rev l ≫= listenerOf env name.
Proof.
  induction l as [|i l IH]; [done|].
  rewrite bind_cons, reverse_app, IH. simpl rev. rewrite bind_app. f_equal.
  simpl. rewrite app_nil_r.
  unfold listenerOf. by destruct (getListener env i name).
Qed.

(** X14.  [gestureStart] travels top-down and [gestureEnd] bottom-up: from the
    same target, the two reach the same listeners, in opposite orders. *)
Theorem start_reverses_end env targetInst kind inst ne :
  dispatches (GesturePropagators.accumulateStartDispatches env targetInst
                (createEvent kind inst ne))
  = reverse (dispatches (GesturePropagators.accumulateEndDispatches env targetInst
                           (createEvent kind inst ne))).
Proof.
  unfold GesturePropagators.accumulateStartDispatches,
    GesturePropagators.accumulateEndDispatches.
  destruct (eventTypes kind) as [bubbled captured|name] eqn:E.
  - assert (H : ∀ l, foldl (λ event i, GesturePropagators.accumulateDispatch env i event)
                       (createEvent kind inst ne) l = createEvent kind inst ne).
    { induction l as [|i l IH]; simpl; [done|].
      unfold GesturePropagators.accumulateDispatch at 2. simpl. by rewrite E. }
    by rewrite !H.
  - rewrite !(foldl_accumulateDispatch env name) by done. simpl.
    by rewrite reverse_bind_listenerOf.
Qed.

Lemma descendantsBelow_path targetInst deepestInst :
  GesturePropagators.descendantsBelow targetInst deepestInst
  ++ GesturePropagators.instancesUpFrom
       (if decide (targetInst ∈ pathToRoot deepestInst) then Some targetInst else None)
  = pathToRoot deepestInst.
Proof.
  induction deepestInst as [tag|tag parent IH]; simpl.
  - destruct (decide (Root tag = targetInst)) as [<-|Hne]; simpl.
    + by rewrite decide_True by left.
    + rewrite decide_False; [done|]. intros [?|?%elem_of_nil]%elem_of_cons; [|done].
      by subst.
  - destruct (decide (Child tag parent = targetInst)) as [<-|Hne]; simpl.
    + by rewrite decide_True by left.
    + f_equal.
      assert (E : (if decide (targetInst ∈ Child tag parent :: pathToRoot parent)
                   then Some targetInst else None)
                  = (if decide (targetInst ∈ pathToRoot parent)
                     then Some targetInst else None)).
      { destruct (decide (targetInst ∈ pathToRoot parent)) as [Hin|Hout].
        - rewrite decide_True; [done|]. by right.
        - rewrite decide_False; [done|]. intros [?|?]%elem_of_cons; [by subst|done]. }
      rewrite E. exact IH.
Qed.

(** X15.  The [gestureEnd] for the instances below a target, followed by the
    bottom-up [gestureEnd] from the target, is the bottom-up [gestureEnd]
    from the deepest instance.  When the target is not among the
    ancestors of the deepest instance, the first traversal does not stop
    before the root and is the whole of it. *)
Theorem end_dispatches_compose env deepestInst targetInst event :
  GesturePropagators.accumulateEndDispatches env
    (if decide (targetInst ∈ pathToRoot deepestInst) then Some targetInst else None)
    (GesturePropagators.accumulateDescendantDispatches env deepestInst targetInst event)
  = GesturePropagators.accumulateEndDispatches env (Some deepestInst) event.
Proof.
  unfold GesturePropagators.accumulateEndDispatches,
    GesturePropagators.accumulateDescendantDispatches.
  rewrite <- foldl_app. by rewrite descendantsBelow_path.
Qed.

(** * Edge cases of the batch processor *)

Lemma changedGestureEvents_idle type ne n :
  ∀ events w,
    (∀ g, g ∈ activeGestures w → ¬ hasChanged w g) →
    n ≤ length (activeGestures w) →
    changedGestureEvents type ne n events w = (Ok events, w).
Proof.
  induction n as [|i IH]; intros events w Hnone Hn; simpl; [done|].
  destruct (lookup_lt_is_Some_2 (activeGestures w) i) as [g Hg]; [lia|].
  rewrite Hg, visitGesture_unchanged.
  - apply IH; [done|lia].
  - apply Hnone. by eapply list_elem_of_lookup_2.
Qed.

(** X13.  A batch without changed touches hands out no event; all it does is to
    empty the changed touches of the active gestures. *)
Theorem touchesChanged_empty env topLevelType nativeEvent w :
  TouchEvent.changedTouches nativeEvent = [] →
  touchesChanged env topLevelType nativeEvent w = (Ok [], clearChangedTouches w).
Proof.
  intros Hnil. rewrite touchesChanged_unfold, Hnil. simpl.
  assert (H : changedGestureEvents topLevelType nativeEvent
                (length (activeGestures (clearChangedTouches w))) []
                (clearChangedTouches w)
              = (Ok [], clearChangedTouches w)).
  { apply changedGestureEvents_idle; [|done].
    intros g Hg. rewrite clearChangedTouches_active in Hg.
    by apply clearChangedTouches_unchanged. }
  by destruct (isEndish topLevelType).
Qed.

Lemma touchesChanged_empty_witness :
  TouchEvent.changedTouches (batch []) = []
  ∧ touchesChanged silent "topTouchMove" (batch []) (childTouched silent)
    = (Ok [], clearChangedTouches (childTouched silent)).
Proof.
  split; [reflexivity|].
  exact (touchesChanged_empty silent "topTouchMove" (batch []) (childTouched silent)
           eq_refl).
Defined.

(** * The last touch of a gesture ends *)







(** * A negotiation without a responder *)

(** X17.  While there is no responder, the first instance on the way down from
    the root and back up from the target whose should-set-responder
    handler returns a true value is granted the status at once: nobody is
    asked to let go, the handlers after it are not called, and its
    [onResponderGrant] listener is called on demand.  When it is not the
    target itself, the instances between the target and it are due a
    [gestureEnd].  When nobody claims the status, nothing changes. *)
Theorem negotiation_without_responder env topLevelType targetInst nativeEvent w :
  ResponderCache.findAncestor env (ResponderCache.InstTarget (Some targetInst)) w
    = None →
  let r := setResponderAndExtractTransfer env topLevelType targetInst nativeEvent w in
  let votes := voteDispatches env topLevelType None targetInst in
  match firstTrue votes with
  | None =>
      r.1 = None
      ∧ cache r.2 = cache w
      ∧ responderChanges r.2 = responderChanges w
      ∧ dispatched r.2 = dispatched w ++ votes
  | Some next =>
      r.1 = (if decide (next ≠ targetInst)
             then Some [GesturePropagators.accumulateDescendantDispatches env
                          targetInst next
                          (createEvent gestureEnd (Some next) nativeEvent)]
             else None)
      ∧ cache r.2 = <[getTagFromInstance next := next]> (cache w)
      ∧ responderChanges r.2
        = responderChanges w
          ++ [mkChange None (Some next)
                (Some (strictlyTrue
                         (default JUndefined
                            (getListener env next "onResponderGrant"))))]
      ∧ dispatched r.2
        = dispatched w ++ calledUntilTrue votes
          ++ listenerOf env "onResponderGrant" next
  end.
Proof.
  intros Hcur r votes. unfold r, setResponderAndExtractTransfer.
  rewrite Hcur. unfold executeDispatchesInOrderStopAtTrue.
  rewrite (vote_dispatches env topLevelType None targetInst nativeEvent).
  rewrite stopAtTrue_spec. fold votes.
  destruct (firstTrue votes) as [next|] eqn:Hvote.
  - unfold grantResponder.
    case_decide as Hne.
    + rewrite (executeDirectDispatch_spec env responderGrant "onResponderGrant") by done.
      simpl. autorewrite with frame. simpl.
      split_and!; try done. by rewrite <- (assoc_L (++)).
    + rewrite (executeDirectDispatch_spec env responderGrant "onResponderGrant") by done.
      simpl. split_and!; try done. by rewrite <- (assoc_L (++)).
  - simpl. split_and!; try done. f_equal.
    clear -Hvote. induction votes as [|d ds IH]; simpl in *; [done|].
    destruct (truthy (listenerResult d)); [done|]. f_equal. by apply IH.
Qed.

Lemma negotiation_without_responder_witness :
  let w := initialWorld in
  let r := setResponderAndExtractTransfer eager "topTouchStart" T2
             (gestureEventOf 2 0) w in
  ResponderCache.findAncestor eager (ResponderCache.InstTarget (Some T2)) w = None
  ∧ r.1 = None
  ∧ cache r.2 = <[2%Z := T2]> (cache w)
  ∧ responderChanges r.2
    = responderChanges w ++ [mkChange None (Some T2) (Some false)]
  ∧ dispatched r.2
    = dispatched w ++ [mkDispatch T2 "onStartShouldSetResponder" (JBool true)].
Proof.
  intros w r.
  assert (H : ResponderCache.findAncestor eager
                (ResponderCache.InstTarget (Some T2)) w = None) by reflexivity.
  split; [exact H|].
  exact (negotiation_without_responder eager "topTouchStart" T2 (gestureEventOf 2 0) w H).
Defined.

(** * Runs that show the properties above at work *)

Lemma reachable_consistent_witness :
  reachable claimsOnMove twoGestures ∧ consistent twoGestures.
Proof.
  assert (H : reachable claimsOnMove twoGestures).
  { repeat apply reachable_extractEvents. apply reachable_initial. }
  split; [exact H|]. exact (reachable_consistent claimsOnMove twoGestures H).
Defined.

Lemma extractEvents_uncounted_end_witness :
  (is_Some (TouchEvent.touches (batch [touch 10 2 0]))
   ∧ isEndish "topTouchEnd" = true
   ∧ (trackedTouchCount initialWorld
      < Z.of_nat (length (TouchEvent.changedTouches (batch [touch 10 2 0]))))%Z)
  ∧ extractEvents silent "topTouchEnd" (Some T2) (batch [touch 10 2 0]) initialWorld
    = (Ok None,
       error EndedUncountedTouch
         (set_trackedTouchCount
            (λ n, n - Z.of_nat (length (TouchEvent.changedTouches
                                          (batch [touch 10 2 0]))))%Z
            initialWorld)).
Proof.
  assert (H1 : is_Some (TouchEvent.touches (batch [touch 10 2 0]))) by (by eexists).
  assert (H2 : isEndish "topTouchEnd" = true) by reflexivity.
  assert (H3 : (trackedTouchCount initialWorld
                < Z.of_nat (length (TouchEvent.changedTouches (batch [touch 10 2 0]))))%Z)
    by (simpl; lia).
  split; [by split_and!|].
  exact (extractEvents_uncounted_end silent "topTouchEnd" (Some T2)
           (batch [touch 10 2 0]) initialWorld H1 H2 H3).
Defined.


Lemma first_targetChanged_rejects_witness :
  let w := childTouched silent in
  (getTagFromInstance T2 = getTagFromInstance T2
   ∨ gesturesByTarget w !! getTagFromInstance T2 = None)
  ∧ ∃ m, GestureCacheFirst.targetChanged "topTouchMove" T2 T2 w = warn m w.
Proof.
  intros w.
  assert (H : getTagFromInstance T2 = getTagFromInstance T2
              ∨ gesturesByTarget w !! getTagFromInstance T2 = None) by (by left).
  split; [exact H|].
  exact (first_targetChanged_rejects "topTouchMove" T2 T2 w H).
Defined.

(** * Touches that start are filed by target *)

Lemma rebuild_start_effect env type touch w :
  isStartish type = true →
  let w1 := (rebuildChangedTouches env type touch w).2 in
  ∃ g, gesturesByTouch w1 = <[Touch.identifier touch := g]> (gesturesByTouch w)
       ∧ gesturesByTarget w1 !! gestureTarget env touch w = Some g
       ∧ (∀ target g', gesturesByTarget w !! target = Some g' →
                       gesturesByTarget w1 !! target = Some g')
       ∧ cache w1 = cache w.
Proof.
  intros Hs. rewrite (rebuild_start env type touch w Hs).
  destruct (gesturesByTarget w !! gestureTarget env touch w) as [g|] eqn:E.
  - rewrite (attachGesture_existing env touch w g E). simpl. eauto.
  - rewrite (attachGesture_fresh env touch w E). simpl.
    exists (length (heap w)). split_and!; [done|apply lookup_insert_eq| |done].
    intros target g' Hg'. rewrite lookup_insert_ne; [done|]. intros <-. congruence.
Qed.

Lemma forEach_rebuild_start_target env type l :
  isStartish type = true →
  ∀ w, NoDup (Touch.identifier <$> l) →
    let w1 := (forEach l (rebuildChangedTouches env type) w).2 in
    cache w1 = cache w
    ∧ (∀ target g, gesturesByTarget w !! target = Some g →
                   gesturesByTarget w1 !! target = Some g)
    ∧ (∀ identifier, identifier ∉ Touch.identifier <$> l →
                     gesturesByTouch w1 !! identifier = gesturesByTouch w !! identifier)
    ∧ ∀ t, t ∈ l →
           ∃ g, gesturesByTouch w1 !! Touch.identifier t = Some g
                ∧ gesturesByTarget w1 !! gestureTarget env t w = Some g.
Proof.
  intros Hs. induction l as [|touch l IH]; intros w Hnd.
  { simpl. split_and!; [done..|]. by intros t ?%elem_of_nil. }
  rewrite fmap_cons in Hnd. apply NoDup_cons in Hnd as [Hnot Hnd].
  cbn [forEach]. unfold bind.
  destruct (rebuild_start_effect env type touch w Hs) as (g & Hb & Ht & Hmono & Hc).
  assert (Hok : ∃ wa, rebuildChangedTouches env type touch w = (Ok tt, wa)).
  { rewrite (rebuild_start env type touch w Hs).
    destruct (attachGesture env touch w). by eexists. }
  destruct Hok as [wa E]. rewrite E in *. cbn [snd] in Hb, Ht, Hmono, Hc.
  destruct (IH wa Hnd) as (Hc' & Hmono' & Hout & Hin).
  split_and!.
  - by rewrite Hc'.
  - auto.
  - intros identifier Hid. rewrite fmap_cons in Hid.
    apply not_elem_of_cons in Hid as [Hne Hid].
    rewrite Hout by done. rewrite Hb. by rewrite lookup_insert_ne.
  - intros t [->|Ht']%elem_of_cons.
    + exists g. split; [|by apply Hmono'].
      rewrite Hout by done. rewrite Hb. apply lookup_insert_eq.
    + destruct (Hin t Ht') as (g' & H1 & H2). exists g'. split; [done|].
      by rewrite <- (gestureTarget_cache env t w wa Hc).
Qed.

Lemma changedGestureEvents_keeps_byTarget type ne n :
  isEndish type = false →
  ∀ events w,
    gesturesByTarget (changedGestureEvents type ne n events w).2 = gesturesByTarget w.
Proof.
  intros He. induction n as [|i IH]; intros events w; simpl; [done|].
  destruct (activeGestures w !! i) as [g|]; [|done].
  assert (H : gesturesByTarget (visitGesture type ne g events w).2 = gesturesByTarget w).
  { unfold visitGesture. destruct (Gesture.changedTouches _); [done|].
    by rewrite He. }
  destruct (visitGesture _ _ _ _ _) as [events1 w1]. rewrite IH. exact H.
Qed.

(** X21.  In a start-like batch whose touches have distinct identifiers,
    every touch ends up under the gesture of its target, the target being
    the nearest responder of the touched node when there is one and the
    touched node itself otherwise: [gesturesByTouch] and [gesturesByTarget]
    lead to the same active gesture, which carries that target.  Touches
    with the same target share one gesture. *)
Theorem touchesChanged_start_by_target env topLevelType nativeEvent w :
  isStartish topLevelType = true →
  consistent w →
  NoDup (Touch.identifier <$> TouchEvent.changedTouches nativeEvent) →
  let w' := (touchesChanged env topLevelType nativeEvent w).2 in
  ∀ t, t ∈ TouchEvent.changedTouches nativeEvent →
    ∃ g, gesturesByTouch w' !! Touch.identifier t = Some g
         ∧ gesturesByTarget w' !! gestureTarget env t w = Some g
         ∧ g ∈ activeGestures w'
         ∧ Gesture.target (deref g w') = gestureTarget env t w.
Proof.
  intros Hs Hw Hnd w' t Ht.
  pose proof (consistent_touchesChanged env topLevelType nativeEvent w Hw) as [_ Hti].
  fold w' in Hti.
  assert (H : ∃ g, gesturesByTouch w' !! Touch.identifier t = Some g
                   ∧ gesturesByTarget w' !! gestureTarget env t w = Some g).
  { unfold w'. rewrite touchesChanged_unfold, (isStartish_not_isEndish _ Hs).
    destruct (forEach_rebuild_start_target env topLevelType
                (TouchEvent.changedTouches nativeEvent) Hs (clearChangedTouches w) Hnd)
      as (Hc & _ & _ & Hin).
    destruct (Hin t Ht) as (g & H1 & H2).
    rewrite (gestureTarget_cache env t w _ (clearChangedTouches_cache w)) in H2.
    destruct (forEach _ _ _) as [[[]|e] w1]; simpl in *; [|eauto].
    rewrite changedGestureEvents_byTouch,
      (changedGestureEvents_keeps_byTarget _ _ _ (isStartish_not_isEndish _ Hs)).
    eauto. }
  destruct H as (g & H1 & H2). exists g.
  destruct (Hti _ _ H2) as [Ha Htgt]. done.
Qed.

Lemma touchesChanged_start_by_target_witness :
  let w := parentResponds in
  let ne := batch [touch 11 2 0; touch 12 1 0] in
  let w' := (touchesChanged eager "topTouchStart" ne w).2 in
  (isStartish "topTouchStart" = true ∧ consistent w
   ∧ NoDup (Touch.identifier <$> TouchEvent.changedTouches ne))
  ∧ ∀ t, t ∈ TouchEvent.changedTouches ne →
      ∃ g, gesturesByTouch w' !! Touch.identifier t = Some g
           ∧ gesturesByTarget w' !! gestureTarget eager t w = Some g
           ∧ g ∈ activeGestures w'
           ∧ Gesture.target (deref g w') = gestureTarget eager t w.
Proof.
  intros w ne w'.
  assert (H1 : isStartish "topTouchStart" = true) by reflexivity.
  assert (H2 : consistent w) by (apply (bool_decide_unpack _); vm_compute; exact I).
  assert (H3 : NoDup (Touch.identifier <$> TouchEvent.changedTouches ne))
    by (apply (bool_decide_unpack _); vm_compute; exact I).
  split; [by split_and!|].
  exact (touchesChanged_start_by_target eager "topTouchStart" ne w H1 H2 H3).
Defined.
